(** * The emulated block device of littlefs (emubd/lfs_emubd.c)

    A shallow embedding of the block device that littlefs emulates on top of
    ordinary files, together with the properties its specification states.

    The C code talks to the host through stdio and POSIX calls.  The host is
    modelled as an explicit state: the base directory of the device with its
    entries, the table of open streams, [errno], and a schedule of injected
    faults that lets any host call fail the way a real host may.  Every C
    function becomes a function from the handle and the host to an
    [outcome]; undefined behaviour of the C program (a null stream handed to
    stdio, a remainder by zero) is an outcome of its own. *)

From Stdlib Require Import ZArith Lia String Ascii List.
From stdpp Require Import base gmap strings list.

Local Open Scope Z_scope.

(** ** Machine integers *)

(** The integer types come from headers that are not among the sources.
    [lfs_block_t], [lfs_off_t] and [lfs_size_t] are taken as 32-bit
    unsigned: a block index is printed with ["%x"], the format of an
    [unsigned int], and the validity test widens it with a cast to
    [uint64_t] before it multiplies.  [total_size], which that 64-bit
    address is compared with, and the counters are taken as 64-bit
    unsigned.  [long] and [size_t] are taken as 64-bit (LP64), so that the
    offset handed to [fseek] and the byte counts keep their values. *)
Definition wrap32 (z : Z) : Z := z mod 2 ^ 32.
Definition wrap64 (z : Z) : Z := z mod 2 ^ 64.

Definition uint32 (z : Z) : Prop := 0 <= z < 2 ^ 32.
Definition uint64 (z : Z) : Prop := 0 <= z < 2 ^ 64.

(** Modelled from the spec: [lfs_min] is defined in a header that is not
    among the sources; the spec gives the size of a step of the walk as the
    minimum of the bytes left in the block and the bytes left to transfer. *)
Definition lfs_min (a b : Z) : Z := if a <? b then a else b.

(** ** errno values used by the code (Linux numbering) *)

Definition ENOENT : Z := 2.
Definition ENOMEM : Z := 12.
Definition EEXIST : Z := 17.
Definition EISDIR : Z := 21.
Definition EINVAL : Z := 22.

(** ** Outcomes of a C function *)

Inductive outcome (A : Type) : Type :=
| Returned (a : A)      (* the function returned *)
| Undefined             (* the C program has undefined behaviour *)
| OutOfFuel.            (* the loop bound of the model was reached *)
Arguments Returned {A} a.
Arguments Undefined {A}.
Arguments OutOfFuel {A}.

#[global] Instance outcome_bind : MBind outcome := fun A B f m =>
  match m with
  | Returned a => f a
  | Undefined => Undefined
  | OutOfFuel => OutOfFuel
  end.

(** ** Rendering of a block index: [printf("%x")] *)

Definition hex_char (d : Z) : ascii :=
  match d with
  | 0 => "0" | 1 => "1" | 2 => "2" | 3 => "3"
  | 4 => "4" | 5 => "5" | 6 => "6" | 7 => "7"
  | 8 => "8" | 9 => "9" | 10 => "a" | 11 => "b"
  | 12 => "c" | 13 => "d" | 14 => "e" | _ => "f"
  end%char.

(** The digits of [n], most significant first, in front of [acc]; [fuel]
    bounds the number of digits (8 for a 32-bit value). *)
Fixpoint hex_digits (fuel : nat) (n : Z) (acc : list ascii) : list ascii :=
  match fuel with
  | O => acc
  | S fuel' =>
      let acc' := hex_char (n mod 16) :: acc in
      if n / 16 =? 0 then acc' else hex_digits fuel' (n / 16) acc'
  end.

Definition sprintf_x (n : Z) : string :=
  string_of_list_ascii (hex_digits 8 n []).

(** [snprintf(dst, n, ...)] keeps at most [n - 1] characters and leaves the
    destination alone when [n] is 0. *)
Definition snprintf (n : nat) (s old : string) : string :=
  match n with
  | O => old
  | S k => String.substring 0 k s
  end.

(** ** Data model *)

(** The structures are declared in headers that are not among the sources;
    their fields are the ones the code reads and writes. *)
Record lfs_bd_info : Type := {
  read_size : Z;
  prog_size : Z;
  erase_size : Z;
  total_size : Z;
}.

Record lfs_bd_stats : Type := {
  read_count : Z;
  prog_count : Z;
  erase_count : Z;
}.

(** The handle.  [path] is the base directory; the C buffer [emu->path]
    holds [path ++ "/" ++ child], where [child] is overwritten by every
    operation. *)
Record lfs_emubd_t : Type := {
  path : string;
  child : string;
  stats : lfs_bd_stats;
  info : lfs_bd_info;
}.

Definition set_child (emu : lfs_emubd_t) (c : string) : lfs_emubd_t :=
  {| path := path emu; child := c; stats := stats emu; info := info emu |}.

Definition set_stats (emu : lfs_emubd_t) (s : lfs_bd_stats) : lfs_emubd_t :=
  {| path := path emu; child := child emu; stats := s; info := info emu |}.

(** Build-time configuration: constants of headers that the code uses. *)
Record lfs_config : Type := {
  LFS_NAME_MAX : nat;
  LFS_EMUBD_READ_SIZE : Z;
  LFS_EMUBD_PROG_SIZE : Z;
  LFS_EMUBD_ERASE_SIZE : Z;
  LFS_EMUBD_TOTAL_SIZE : Z;
}.

(** ** The host: directory, streams, errno, faults *)

Inductive entry : Type :=
| RegFile (content : list Byte.byte)
| Directory.

Inductive fmode : Type :=
| Mode_r        (* "r", "rb" *)
| Mode_rplus    (* "r+b" *)
| Mode_wplus.   (* "w+b" *)

Record stream : Type := {
  s_name : string;
  s_pos : Z;
  s_eof : bool;
}.

(** [dir] is [None] while the base directory does not exist.  [faults] is
    consumed one element per host call: [Some e] makes that call fail with
    errno [e], [None] (or an exhausted schedule) lets the call behave as
    the state of the host dictates. *)
Record host : Type := {
  dir : option (gmap string entry);
  streams : gmap nat stream;
  errno : Z;
  faults : list (option positive);
}.

Definition set_dir (h : host) (d : option (gmap string entry)) : host :=
  {| dir := d; streams := streams h; errno := errno h; faults := faults h |}.
Definition set_streams (h : host) (s : gmap nat stream) : host :=
  {| dir := dir h; streams := s; errno := errno h; faults := faults h |}.
Definition set_errno (h : host) (e : Z) : host :=
  {| dir := dir h; streams := streams h; errno := e; faults := faults h |}.
Definition set_faults (h : host) (f : list (option positive)) : host :=
  {| dir := dir h; streams := streams h; errno := errno h; faults := f |}.

Definition next_fault (h : host) : option positive * host :=
  match faults h with
  | [] => (None, h)
  | x :: rest => (x, set_faults h rest)
  end.

(** The entries of the base directory, empty when it does not exist. *)
Definition entries (h : host) : gmap string entry :=
  match dir h with
  | Some d => d
  | None => ∅
  end.

(** The bytes of the regular file [name], if there is one. *)
Definition file_content (h : host) (name : string) : option (list Byte.byte) :=
  match entries h !! name with
  | Some (RegFile c) => Some c
  | _ => None
  end.

(** *** Buffers and file contents *)

Definition zero : Byte.byte := Byte.x00.

(** [memset(buf, 0, n)] on the first [n] bytes of the caller's buffer. *)
Definition memset0 (n : nat) (buf : list Byte.byte) : list Byte.byte :=
  replicate n zero ++ drop n buf.

(** Copy [src] into [buf] at position [pos]. *)
Definition copy_at (pos : nat) (src buf : list Byte.byte) : list Byte.byte :=
  take pos buf ++ src ++ drop (pos + length src)%nat buf.

(** Write [src] into a file at offset [pos]: a write past the end leaves a
    hole of zero bytes, an empty write changes nothing. *)
Definition pwrite (pos : nat) (src old : list Byte.byte) : list Byte.byte :=
  match src with
  | [] => old
  | _ => take pos old ++ replicate (pos - length old)%nat zero
           ++ src ++ drop (pos + length src)%nat old
  end.

(** *** Host calls *)

(** [malloc]: [false] is the null pointer. *)
Definition malloc (h : host) : bool * host :=
  let '(flt, h) := next_fault h in
  match flt with
  | Some _ => (false, h)
  | None => (true, h)
  end.

(** [mkdir] of the base directory. *)
Definition mkdir (h : host) : Z * host :=
  let '(flt, h) := next_fault h in
  match flt with
  | Some e => (-1, set_errno h (Z.pos e))
  | None =>
      match dir h with
      | Some _ => (-1, set_errno h EEXIST)
      | None => (0, set_dir h (Some ∅))
      end
  end.

(** A new stream on [name], under a handle that is not in use. *)
Definition open_stream (h : host) (name : string) : option nat * host :=
  let f := fresh (dom (streams h)) in
  (Some f,
   set_streams h (<[f := {| s_name := name; s_pos := 0; s_eof := false |}]>
                    (streams h))).

(** [fopen]: [None] is the null pointer.  A directory can be opened for
    reading only; ["w+b"] creates or truncates. *)
Definition fopen (h : host) (name : string) (m : fmode) : option nat * host :=
  let '(flt, h) := next_fault h in
  match flt with
  | Some e => (None, set_errno h (Z.pos e))
  | None =>
      match dir h with
      | None => (None, set_errno h ENOENT)
      | Some d =>
          match d !! name, m with
          | None, Mode_wplus
          | Some (RegFile _), Mode_wplus =>
              open_stream (set_dir h (Some (<[name := RegFile []]> d))) name
          | None, _ => (None, set_errno h ENOENT)
          | Some (RegFile _), _ => open_stream h name
          | Some Directory, Mode_r => open_stream h name
          | Some Directory, _ => (None, set_errno h EISDIR)
          end
      end
  end.

(** The stream behind a [FILE *]; using a null or closed one is undefined. *)
Definition get_stream (h : host) (f : option nat) : outcome (nat * stream) :=
  match f with
  | None => Undefined
  | Some fd =>
      match streams h !! fd with
      | None => Undefined
      | Some s => Returned (fd, s)
      end
  end.

Definition put_stream (h : host) (fd : nat) (s : stream) : host :=
  set_streams h (<[fd := s]> (streams h)).

(** [fseek(f, off, SEEK_SET)] *)
Definition fseek (h : host) (f : option nat) (off : Z) : outcome (Z * host) :=
  '(fd, s) ← get_stream h f;
  let '(flt, h) := next_fault h in
  match flt with
  | Some e => Returned (-1, set_errno h (Z.pos e))
  | None =>
      Returned (0, put_stream h fd
                     {| s_name := s_name s; s_pos := off; s_eof := false |})
  end.

(** [fread(ptr, 1, count, f)]: the bytes transferred.  Fewer than [count]
    bytes at the end of the file set the end-of-file indicator; a fault or
    a directory gives an error with the indicator clear. *)
Definition fread (h : host) (f : option nat) (count : Z)
  : outcome (list Byte.byte * host) :=
  '(fd, s) ← get_stream h f;
  let '(flt, h) := next_fault h in
  match flt with
  | Some e => Returned ([], set_errno h (Z.pos e))
  | None =>
      match entries h !! s_name s with
      | Some Directory => Returned ([], set_errno h EISDIR)
      | Some (RegFile c) =>
          let got := take (Z.to_nat count) (drop (Z.to_nat (s_pos s)) c) in
          Returned (got, put_stream h fd
                     {| s_name := s_name s;
                        s_pos := s_pos s + Z.of_nat (length got);
                        s_eof := Z.of_nat (length got) <? count |})
      | None =>
          Returned ([], put_stream h fd
                     {| s_name := s_name s; s_pos := s_pos s;
                        s_eof := 0 <? count |})
      end
  end.

Definition feof (h : host) (f : option nat) : outcome bool :=
  '(_, s) ← get_stream h f;
  Returned (s_eof s).

(** [fwrite(ptr, 1, count, f)] with the [count] bytes [src]: the number of
    bytes written. *)
Definition fwrite (h : host) (f : option nat) (src : list Byte.byte)
  : outcome (Z * host) :=
  '(fd, s) ← get_stream h f;
  let '(flt, h) := next_fault h in
  match flt with
  | Some e => Returned (0, set_errno h (Z.pos e))
  | None =>
      match dir h with
      | Some d =>
          let old := default [] (file_content h (s_name s)) in
          let new := pwrite (Z.to_nat (s_pos s)) src old in
          Returned (Z.of_nat (length src),
                    put_stream
                      (set_dir h (Some (<[s_name s := RegFile new]> d))) fd
                      {| s_name := s_name s;
                         s_pos := s_pos s + Z.of_nat (length src);
                         s_eof := s_eof s |})
      | None => Returned (0, set_errno h ENOENT)
      end
  end.

(** [fclose]: the stream is gone whether or not the call reports an error. *)
Definition fclose (h : host) (f : option nat) : outcome (Z * host) :=
  '(fd, _) ← get_stream h f;
  let '(flt, h) := next_fault h in
  let h' := set_streams h (delete fd (streams h)) in
  match flt with
  | Some e => Returned (-1, set_errno h' (Z.pos e))
  | None => Returned (0, h')
  end.

(** [stat]: the error code and whether the entry is a regular file. *)
Definition stat (h : host) (name : string) : Z * bool * host :=
  let '(flt, h) := next_fault h in
  match flt with
  | Some e => (-1, false, set_errno h (Z.pos e))
  | None =>
      match entries h !! name with
      | None => (-1, false, set_errno h ENOENT)
      | Some (RegFile _) => (0, true, h)
      | Some Directory => (0, false, h)
      end
  end.

(** [unlink] removes a regular file. *)
Definition unlink (h : host) (name : string) : Z * host :=
  let '(flt, h) := next_fault h in
  match flt with
  | Some e => (-1, set_errno h (Z.pos e))
  | None =>
      match dir h with
      | None => (-1, set_errno h ENOENT)
      | Some d =>
          match d !! name with
          | None => (-1, set_errno h ENOENT)
          | Some Directory => (-1, set_errno h EISDIR)
          | Some (RegFile _) => (0, set_dir h (Some (delete name d)))
          end
      end
  end.

(** ** The persisted statistics record *)

(** Modelled from the spec: the declaration of [struct lfs_bd_stats] is in
    emubd/lfs_emubd.h, which is not among the sources.  The spec gives the
    three counters and says the artifact is the fixed-size binary image of
    the record; the image is taken to be the three counters in declaration
    order, eight bytes each, least significant byte first. *)
Definition sizeof_stats : nat := 24.

Fixpoint le_decode (bs : list Byte.byte) : Z :=
  match bs with
  | [] => 0
  | b :: rest => Z.of_N (Byte.to_N b) + 256 * le_decode rest
  end.

Definition stats_of_bytes (bs : list Byte.byte) : lfs_bd_stats :=
  {| read_count := le_decode (take 8 bs);
     prog_count := le_decode (take 8 (drop 8 bs));
     erase_count := le_decode (take 8 (drop 16 bs)) |}.

Definition zero_info : lfs_bd_info :=
  {| read_size := 0; prog_size := 0; erase_size := 0; total_size := 0 |}.
Definition zero_stats : lfs_bd_stats :=
  {| read_count := 0; prog_count := 0; erase_count := 0 |}.

(** ** The operations of lfs_emubd.c *)

Definition is_null (f : option nat) : bool :=
  match f with None => true | Some _ => false end.

Section Emubd.

Variable cfg : lfs_config.

(** *** lfs_emubd_create *)

Definition lfs_emubd_create (emu : lfs_emubd_t) (h : host) (base : string)
  : outcome (Z * lfs_emubd_t * host) :=
  let emu := {| path := path emu; child := child emu;
                stats := zero_stats; info := zero_info |} in
  (* Allocate buffer for creating children files *)
  let '(ok, h) := malloc h in
  if negb ok then Returned (- ENOMEM, emu, h) else
  let emu := {| path := base; child := EmptyString; stats := stats emu;
                info := info emu |} in
  (* Create directory if it doesn't exist *)
  let '(err, h) := mkdir h in
  if negb (err =? 0) && negb (errno h =? EEXIST)
  then Returned (- errno h, emu, h) else
  (* Setup info based on configuration *)
  let emu := {| path := path emu; child := child emu; stats := stats emu;
                info := {| read_size := wrap32 (LFS_EMUBD_READ_SIZE cfg);
                           prog_size := wrap32 (LFS_EMUBD_PROG_SIZE cfg);
                           erase_size := wrap32 (LFS_EMUBD_ERASE_SIZE cfg);
                           total_size := wrap64 (LFS_EMUBD_TOTAL_SIZE cfg) |}
             |} in
  (* Load stats to continue incrementing *)
  let emu := set_child emu (snprintf (LFS_NAME_MAX cfg) "stats" (child emu)) in
  let '(f, h) := fopen h (child emu) Mode_r in
  if is_null f then Returned (- errno h, emu, h) else
  '(got, h) ← fread h f (Z.of_nat sizeof_stats);
  let res := Z.of_nat (length got) / Z.of_nat sizeof_stats in
  let emu := set_stats emu
               (stats_of_bytes
                  (got ++ replicate (sizeof_stats - length got) zero)) in
  if res <? 1 then Returned (- errno h, emu, h) else
  '(err, h) ← fclose h f;
  if negb (err =? 0) then Returned (- errno h, emu, h) else
  Returned (0, emu, h).

(** *** lfs_emubd_read *)

(** The body of the loop after [count] is known: [Some r] is [return r],
    [None] falls through to the update of the loop variables.  [data] is
    the position of the C pointer [data] in the caller's buffer. *)
Definition read_block (emu : lfs_emubd_t) (h : host) (off count : Z)
    (data : nat) (buffer : list Byte.byte)
  : outcome (option Z * host * list Byte.byte) :=
  let '(f, h) := fopen h (child emu) Mode_r in
  if is_null f && negb (errno h =? ENOENT)
  then Returned (Some (- errno h), h, buffer)
  else if is_null f then Returned (None, h, buffer)
  else
    '(err, h) ← fseek h f off;
    if negb (err =? 0) then Returned (Some (- errno h), h, buffer) else
    '(got, h) ← fread h f count;
    let buffer := copy_at data got buffer in
    eof ← feof h f;
    if (Z.of_nat (length got) <? count) && negb eof
    then Returned (Some (- errno h), h, buffer) else
    '(err, h) ← fclose h f;
    if negb (err =? 0) then Returned (Some (- errno h), h, buffer) else
    Returned (None, h, buffer).

(** [while (size > 0) { ... }] *)
Fixpoint read_loop (fuel : nat) (emu : lfs_emubd_t) (h : host)
    (block off size : Z) (data : nat) (buffer : list Byte.byte)
  : outcome (option Z * lfs_emubd_t * host * list Byte.byte) :=
  if 0 <? size then
    match fuel with
    | O => OutOfFuel
    | S fuel' =>
        let emu := set_child emu
                     (snprintf (LFS_NAME_MAX cfg) (sprintf_x block) (child emu)) in
        let count := lfs_min (wrap32 (erase_size (info emu) - off)) size in
        '(r, h, buffer) ← read_block emu h off count data buffer;
        match r with
        | Some e => Returned (Some e, emu, h, buffer)
        | None =>
            read_loop fuel' emu h (wrap32 (block + 1)) 0
              (wrap32 (size - count)) (data + Z.to_nat count)%nat buffer
        end
    end
  else Returned (None, emu, h, buffer).

(** The three-part validity test shared by the operations, for the
    granularity [gran]. *)
Definition valid_access (gran : Z) (i : lfs_bd_info) (block off size : Z)
  : bool :=
  (off mod gran =? 0) && (size mod gran =? 0)
  && (wrap64 (wrap64 (wrap64 (block * erase_size i) + off) + size)
      <? total_size i).

Definition lfs_emubd_read (emu : lfs_emubd_t) (h : host)
    (block off size : Z) (buffer : list Byte.byte)
  : outcome (Z * lfs_emubd_t * host * list Byte.byte) :=
  (* Check if read is valid *)
  if read_size (info emu) =? 0 then Undefined else
  if negb (valid_access (read_size (info emu)) (info emu) block off size)
  then Returned (- EINVAL, emu, h, buffer) else
  (* Zero out buffer for debugging *)
  if (length buffer <? Z.to_nat size)%nat then Undefined else
  let buffer := memset0 (Z.to_nat size) buffer in
  (* Iterate over blocks until enough data is read *)
  '(r, emu, h, buffer) ←
     read_loop (S (Z.to_nat size)) emu h block off size 0%nat buffer;
  match r with
  | Some e => Returned (e, emu, h, buffer)
  | None =>
      let s := stats emu in
      Returned (0,
                set_stats emu {| read_count := wrap64 (read_count s + 1);
                                 prog_count := prog_count s;
                                 erase_count := erase_count s |},
                h, buffer)
  end.

(** *** lfs_emubd_prog *)

Definition prog_block (emu : lfs_emubd_t) (h : host) (off count : Z)
    (data : nat) (buffer : list Byte.byte)
  : outcome (option Z * host) :=
  let '(f, h) := fopen h (child emu) Mode_rplus in
  let '(r, f, h) :=
    if is_null f && (errno h =? ENOENT) then
      let '(f, h) := fopen h (child emu) Mode_wplus in
      if is_null f then (Some (- errno h), f, h) else (None, f, h)
    else (None, f, h) in
  match r with
  | Some e => Returned (Some e, h)
  | None =>
      '(err, h) ← fseek h f off;
      if negb (err =? 0) then Returned (Some (- errno h), h) else
      if (length buffer <? data + Z.to_nat count)%nat then Undefined else
      '(res, h) ← fwrite h f (take (Z.to_nat count) (drop data buffer));
      if res <? count then Returned (Some (- errno h), h) else
      '(err, h) ← fclose h f;
      if negb (err =? 0) then Returned (Some (- errno h), h) else
      Returned (None, h)
  end.

Fixpoint prog_loop (fuel : nat) (emu : lfs_emubd_t) (h : host)
    (block off size : Z) (data : nat) (buffer : list Byte.byte)
  : outcome (option Z * lfs_emubd_t * host) :=
  if 0 <? size then
    match fuel with
    | O => OutOfFuel
    | S fuel' =>
        let emu := set_child emu
                     (snprintf (LFS_NAME_MAX cfg) (sprintf_x block) (child emu)) in
        let count := lfs_min (wrap32 (erase_size (info emu) - off)) size in
        '(r, h) ← prog_block emu h off count data buffer;
        match r with
        | Some e => Returned (Some e, emu, h)
        | None =>
            prog_loop fuel' emu h (wrap32 (block + 1)) 0
              (wrap32 (size - count)) (data + Z.to_nat count)%nat buffer
        end
    end
  else Returned (None, emu, h).

Definition lfs_emubd_prog (emu : lfs_emubd_t) (h : host)
    (block off size : Z) (buffer : list Byte.byte)
  : outcome (Z * lfs_emubd_t * host) :=
  (* Check if write is valid *)
  if prog_size (info emu) =? 0 then Undefined else
  if negb (valid_access (prog_size (info emu)) (info emu) block off size)
  then Returned (- EINVAL, emu, h) else
  '(r, emu, h) ←
     prog_loop (S (Z.to_nat size)) emu h block off size 0%nat buffer;
  match r with
  | Some e => Returned (e, emu, h)
  | None =>
      let s := stats emu in
      Returned (0,
                set_stats emu {| read_count := read_count s;
                                 prog_count := wrap64 (prog_count s + 1);
                                 erase_count := erase_count s |},
                h)
  end.

(** *** lfs_emubd_erase *)

Definition erase_block (emu : lfs_emubd_t) (h : host) : option Z * host :=
  let '(err, isreg, h) := stat h (child emu) in
  if negb (err =? 0) && negb (errno h =? ENOENT)
  then (Some (- errno h), h) else
  if (err =? 0) && isreg then
    let '(err, h) := unlink h (child emu) in
    if negb (err =? 0) then (Some (- errno h), h) else (None, h)
  else (None, h).

Fixpoint erase_loop (fuel : nat) (emu : lfs_emubd_t) (h : host)
    (block off size : Z) : outcome (option Z * lfs_emubd_t * host) :=
  if 0 <? size then
    match fuel with
    | O => OutOfFuel
    | S fuel' =>
        let emu := set_child emu
                     (snprintf (LFS_NAME_MAX cfg) (sprintf_x block) (child emu)) in
        let '(r, h) := erase_block emu h in
        match r with
        | Some e => Returned (Some e, emu, h)
        | None =>
            erase_loop fuel' emu h (wrap32 (block + 1)) 0
              (wrap32 (size - erase_size (info emu)))
        end
    end
  else Returned (None, emu, h).

Definition lfs_emubd_erase (emu : lfs_emubd_t) (h : host)
    (block off size : Z) : outcome (Z * lfs_emubd_t * host) :=
  (* Check if erase is valid *)
  if erase_size (info emu) =? 0 then Undefined else
  if negb (valid_access (erase_size (info emu)) (info emu) block off size)
  then Returned (- EINVAL, emu, h) else
  (* Iterate and erase blocks *)
  '(r, emu, h) ← erase_loop (S (Z.to_nat size)) emu h block off size;
  match r with
  | Some e => Returned (e, emu, h)
  | None =>
      let s := stats emu in
      Returned (0,
                set_stats emu {| read_count := read_count s;
                                 prog_count := prog_count s;
                                 erase_count := wrap64 (erase_count s + 1) |},
                h)
  end.

End Emubd.

(** ** Persistence of the geometry and the statistics *)

(** The byte of value [z mod 256]. *)
Definition byte_of_Z (z : Z) : Byte.byte :=
  match Byte.of_N (Z.to_N (z mod 256)) with
  | Some b => b
  | None => zero
  end.

(** The [n] bytes of [z], least significant first. *)
Fixpoint le_encode (n : nat) (z : Z) : list Byte.byte :=
  match n with
  | O => []
  | S n' => byte_of_Z z :: le_encode n' (z / 256)
  end.

(** Modelled from the spec: the image of [struct lfs_bd_stats] that
    [fwrite] puts into the artifact, in the layout [stats_of_bytes] reads:
    the three counters, eight bytes each, least significant byte first. *)
Definition bytes_of_stats (s : lfs_bd_stats) : list Byte.byte :=
  le_encode 8 (read_count s) ++ le_encode 8 (prog_count s)
  ++ le_encode 8 (erase_count s).

(** Modelled from the spec: the image of [struct lfs_bd_info], whose
    declaration is not among the sources either: the three 32-bit sizes,
    four bytes that align the 64-bit total size, taken as zero, and the
    total size. *)
Definition sizeof_info : nat := 24.

Definition bytes_of_info (i : lfs_bd_info) : list Byte.byte :=
  le_encode 4 (read_size i) ++ le_encode 4 (prog_size i)
  ++ le_encode 4 (erase_size i) ++ replicate 4 zero
  ++ le_encode 8 (total_size i).

(** The calls that [lfs_emubd_sync] makes for each of its two records:
    [fopen(path, "w")], [fwrite] of one item of [size] bytes, [fclose].
    [Some r] is [return r].  The streams of the model carry no access
    mode, and ["w"] creates or truncates the file as ["w+b"] does, so the
    open is the one of [Mode_wplus]. *)
Definition sync_record (h : host) (name : string) (image : list Byte.byte)
    (size : nat) : outcome (option Z * host) :=
  let '(f, h) := fopen h name Mode_wplus in
  if is_null f then Returned (Some (- errno h), h) else
  '(n, h) ← fwrite h f image;
  let res := n / Z.of_nat size in
  if res <? 1 then Returned (Some (- errno h), h) else
  '(err, h) ← fclose h f;
  if negb (err =? 0) then Returned (Some (- errno h), h) else
  Returned (None, h).

Section EmubdSync.

Variable cfg : lfs_config.

(** *** lfs_emubd_sync *)

Definition lfs_emubd_sync (emu : lfs_emubd_t) (h : host)
  : outcome (Z * lfs_emubd_t * host) :=
  (* Just write out info/stats for later lookup *)
  let emu := set_child emu (snprintf (LFS_NAME_MAX cfg) "info" (child emu)) in
  '(r, h) ← sync_record h (child emu) (bytes_of_info (info emu)) sizeof_info;
  match r with
  | Some e => Returned (e, emu, h)
  | None =>
      let emu := set_child emu
                   (snprintf (LFS_NAME_MAX cfg) "stats" (child emu)) in
      '(r, h) ← sync_record h (child emu) (bytes_of_stats (stats emu))
                  sizeof_stats;
      match r with
      | Some e => Returned (e, emu, h)
      | None => Returned (0, emu, h)
      end
  end.

(** *** lfs_emubd_destroy

    The result of the sync is dropped; [free] has no counterpart in the
    model. *)
Definition lfs_emubd_destroy (emu : lfs_emubd_t) (h : host) : outcome host :=
  '(_, _, h) ← lfs_emubd_sync emu h;
  Returned h.

End EmubdSync.

(** *** lfs_emubd_info, lfs_emubd_stats *)

Definition lfs_emubd_info (emu : lfs_emubd_t) : Z * lfs_bd_info :=
  (0, info emu).

Definition lfs_emubd_stats (emu : lfs_emubd_t) : Z * lfs_bd_stats :=
  (0, stats emu).

(** ** Notions used by the properties *)

(** Reading a rendered index back, digit by digit. *)
Definition hex_val (c : ascii) : Z :=
  let n := Z.of_nat (nat_of_ascii c) in
  if n <? 58 then n - 48 else n - 87.

Definition hex_parse (l : list ascii) : Z :=
  fold_left (fun v c => 16 * v + hex_val c) l 0.

(** The place a byte of an access comes from.  An access at
    [(block, off)] takes its byte number [p] from the artifact and the
    offset [locate es block off p]: the first [wrap32 (es - off)] bytes lie
    in the artifact of [block] from offset [off] on, the following ones in
    the next artifacts, [es] bytes each from offset 0. *)
Definition locate (es block off p : Z) : Z * Z :=
  let c0 := wrap32 (es - off) in
  if p <? c0 then (block, off + p)
  else (wrap32 (block + 1 + (p - c0) / es), (p - c0) mod es).

(** The byte a read sees at offset [o] of an entry: the byte of the
    artifact if it is there, zero otherwise. *)
Definition entry_byte (e : option entry) (o : nat) : Byte.byte :=
  match e with
  | Some (RegFile c) => default zero (c !! o)
  | _ => zero
  end.

Definition stored_byte (d : gmap string entry) (loc : Z * Z) : Byte.byte :=
  entry_byte (d !! sprintf_x (fst loc)) (Z.to_nat (snd loc)).

(** Every entry of the directory is a regular file. *)
Definition regular (d : gmap string entry) : Prop :=
  forall name, d !! name <> Some Directory.

(** The geometry is positive and fits its C types. *)
Definition geometry_ok (i : lfs_bd_info) : Prop :=
  0 < read_size i < 2 ^ 32 /\ 0 < prog_size i < 2 ^ 32
  /\ 0 < erase_size i < 2 ^ 32 /\ 0 <= total_size i < 2 ^ 64.

(** What a call may do to the table of streams: leave it as it was, or
    leave one more stream open under a handle that was free. *)
Definition leaks_at_most_one (h h' : host) : Prop :=
  streams h' = streams h
  \/ exists fd s, streams h !! fd = None /\ streams h' = <[fd := s]> (streams h).

(** The geometry a new handle takes from the configuration. *)
Definition config_info (cfg : lfs_config) : lfs_bd_info :=
  {| read_size := wrap32 (LFS_EMUBD_READ_SIZE cfg);
     prog_size := wrap32 (LFS_EMUBD_PROG_SIZE cfg);
     erase_size := wrap32 (LFS_EMUBD_ERASE_SIZE cfg);
     total_size := wrap64 (LFS_EMUBD_TOTAL_SIZE cfg) |}.

(** The statistics after a successful call. *)
Definition bump_read (s : lfs_bd_stats) : lfs_bd_stats :=
  {| read_count := wrap64 (read_count s + 1); prog_count := prog_count s;
     erase_count := erase_count s |}.
Definition bump_prog (s : lfs_bd_stats) : lfs_bd_stats :=
  {| read_count := read_count s; prog_count := wrap64 (prog_count s + 1);
     erase_count := erase_count s |}.
Definition bump_erase (s : lfs_bd_stats) : lfs_bd_stats :=
  {| read_count := read_count s; prog_count := prog_count s;
     erase_count := wrap64 (erase_count s + 1) |}.

(** A counter that can still be incremented without wrapping around. *)
Definition can_count (c : Z) : Prop := 0 <= c < 2 ^ 64 - 1.

(** ** The device of the scenarios

    The geometry of the scenarios of the specification: reads and programs
    in units of 16 bytes, four erase blocks of 512 bytes. *)

Definition scenario_cfg : lfs_config :=
  {| LFS_NAME_MAX := 255;
     LFS_EMUBD_READ_SIZE := 16; LFS_EMUBD_PROG_SIZE := 16;
     LFS_EMUBD_ERASE_SIZE := 512; LFS_EMUBD_TOTAL_SIZE := 2048 |}.

Definition scenario_emu : lfs_emubd_t :=
  {| path := "bd"; child := EmptyString; stats := zero_stats;
     info := config_info scenario_cfg |}.

(** A host whose base directory holds [d], with no open stream and the
    pending faults [flt]. *)
Definition host_of (d : gmap string entry) (flt : list (option positive))
  : host :=
  {| dir := Some d; streams := ∅; errno := 0; faults := flt |}.

Definition aa16 : list Byte.byte := replicate 16 Byte.xaa.
Definition bb16 : list Byte.byte := replicate 16 Byte.xbb.

Definition block0 : gmap string entry := <["0" := RegFile aa16]> ∅.
Definition block0_long : gmap string entry :=
  <["0" := RegFile (aa16 ++ aa16)]> ∅.
Definition blocks01 : gmap string entry :=
  <["0" := RegFile aa16]> (<["1" := RegFile bb16]> ∅).

(** The image of the counters 1, 2 and 3, and a directory that holds it. *)
Definition stats123 : list Byte.byte :=
  (Byte.x01 :: replicate 7 zero) ++ (Byte.x02 :: replicate 7 zero)
  ++ (Byte.x03 :: replicate 7 zero).
Definition stats_dir : gmap string entry := <["stats" := RegFile stats123]> ∅.

(** Closed comparisons of numerals, decided by evaluation. *)
Ltac by_evaluation :=
  repeat split;
  first [ reflexivity
        | let H := fresh in intro H; vm_compute in H; discriminate H ].

Ltac host_simpl :=
  unfold put_stream, set_streams, set_dir, set_errno;
  cbn [dir streams errno faults].

(** * Properties *)

(** ** Machine arithmetic *)

Lemma wrap32_small z : uint32 z -> wrap32 z = z.
Proof. unfold uint32, wrap32. intros H. apply Z.mod_small. lia. Qed.

Lemma wrap64_small z : uint64 z -> wrap64 z = z.
Proof. unfold uint64, wrap64. intros H. apply Z.mod_small. lia. Qed.

Lemma wrap32_range z : uint32 (wrap32 z).
Proof. unfold uint32, wrap32. apply Z.mod_pos_bound. lia. Qed.

(** The address computed by the validity test never overflows 64 bits. *)
Lemma address_no_overflow block es off size :
  uint32 block -> uint32 es -> uint32 off -> uint32 size ->
  wrap64 (wrap64 (wrap64 (block * es) + off) + size) = block * es + off + size.
Proof.
  unfold uint32. intros Hb He Ho Hs.
  assert (0 <= block * es <= (2 ^ 32 - 1) * (2 ^ 32 - 1)) by nia.
  rewrite (wrap64_small (block * es)) by (unfold uint64; lia).
  rewrite (wrap64_small (block * es + off)) by (unfold uint64; lia).
  apply wrap64_small. unfold uint64. lia.
Qed.

Lemma lfs_min_spec a b : lfs_min a b = Z.min a b.
Proof. unfold lfs_min. destruct (Z.ltb_spec a b); lia. Qed.

(** ** Names of the block artifacts *)

Lemma hex_val_char d : 0 <= d < 16 -> hex_val (hex_char d) = d.
Proof.
  intros H.
  assert (Hc : d = 0 \/ d = 1 \/ d = 2 \/ d = 3 \/ d = 4 \/ d = 5 \/ d = 6
               \/ d = 7 \/ d = 8 \/ d = 9 \/ d = 10 \/ d = 11 \/ d = 12
               \/ d = 13 \/ d = 14 \/ d = 15) by lia.
  repeat (destruct Hc as [-> | Hc]; [reflexivity |]). subst d. reflexivity.
Qed.

Lemma hex_digits_parse fuel : forall n acc,
  (0 < fuel)%nat -> 0 <= n < 16 ^ Z.of_nat fuel ->
  fold_left (fun v c => 16 * v + hex_val c) (hex_digits fuel n acc) 0
  = fold_left (fun v c => 16 * v + hex_val c) acc n.
Proof.
  induction fuel as [| fuel IH]; intros n acc Hf Hn; [lia |].
  assert (Hm : 0 <= n mod 16 < 16) by (apply Z.mod_pos_bound; lia).
  assert (Hd : n = 16 * (n / 16) + n mod 16) by (apply Z.div_mod; lia).
  cbn [hex_digits]. destruct (Z.eqb_spec (n / 16) 0) as [Hz | Hz].
  - cbn [fold_left]. rewrite hex_val_char by done. f_equal. lia.
  - assert (0 < n / 16) by (pose proof (Z.div_pos n 16); lia).
    destruct fuel as [| fuel'].
    + change (16 ^ Z.of_nat 1) with 16 in Hn.
      rewrite Z.div_small in Hz by lia. done.
    + rewrite IH.
      * cbn [fold_left]. rewrite hex_val_char by done. f_equal. lia.
      * lia.
      * split; [lia |]. apply Z.div_lt_upper_bound; [lia |].
        rewrite Nat2Z.inj_succ, Z.pow_succ_r in Hn by lia. lia.
Qed.

Lemma sprintf_x_parse n :
  uint32 n -> hex_parse (list_ascii_of_string (sprintf_x n)) = n.
Proof.
  intros Hn. unfold sprintf_x, hex_parse.
  rewrite list_ascii_of_string_of_list_ascii.
  rewrite hex_digits_parse; [reflexivity | lia |].
  unfold uint32 in Hn. change (16 ^ Z.of_nat 8) with (2 ^ 32). lia.
Qed.

(** Distinct block indices have distinct names. *)
Lemma sprintf_x_inj a b :
  uint32 a -> uint32 b -> sprintf_x a = sprintf_x b -> a = b.
Proof.
  intros Ha Hb Heq.
  rewrite <- (sprintf_x_parse a), <- (sprintf_x_parse b) by done.
  by rewrite Heq.
Qed.

Lemma hex_digits_length fuel : forall n acc,
  (List.length (hex_digits fuel n acc) <= fuel + List.length acc)%nat.
Proof.
  induction fuel as [| fuel IH]; intros n acc; cbn [hex_digits]; [lia |].
  destruct (n / 16 =? 0).
  - cbn. lia.
  - etrans; [apply IH |]. cbn. lia.
Qed.

Lemma string_of_list_ascii_length l :
  String.length (string_of_list_ascii l) = List.length l.
Proof. induction l as [| a l IH]; cbn; [done | by rewrite IH]. Qed.

Lemma sprintf_x_length n : (String.length (sprintf_x n) <= 8)%nat.
Proof.
  unfold sprintf_x. rewrite string_of_list_ascii_length.
  etrans; [apply hex_digits_length |]. cbn. lia.
Qed.

Lemma substring_all s : forall k,
  (String.length s <= k)%nat -> String.substring 0 k s = s.
Proof.
  induction s as [| a s IH]; intros k Hk.
  - by destruct k.
  - destruct k as [| k]; cbn in Hk; [lia |]. cbn. f_equal. apply IH. lia.
Qed.

(** With room for eight digits and the terminator, the child name of a
    block is its index in hexadecimal. *)
Lemma snprintf_block n block old :
  (8 < n)%nat -> snprintf n (sprintf_x block) old = sprintf_x block.
Proof.
  intros Hn. destruct n as [| k]; [lia |]. cbn [snprintf].
  apply substring_all. pose proof (sprintf_x_length block). lia.
Qed.

(** ** Host calls on a host without pending faults *)

Lemma next_fault_quiet h : faults h = [] -> next_fault h = (None, h).
Proof. unfold next_fault. by intros ->. Qed.

Lemma fresh_stream (m : gmap nat stream) : m !! fresh (dom m) = None.
Proof. apply not_elem_of_dom, is_fresh. Qed.

Lemma close_fresh (m : gmap nat stream) f s1 s2 s3 :
  m !! f = None ->
  delete f (<[f := s3]> (<[f := s2]> (<[f := s1]> m))) = m.
Proof.
  intros Hf. rewrite delete_insert_eq, delete_insert_eq, delete_insert_eq.
  by apply delete_id.
Qed.

Lemma host_eta h :
  {| dir := dir h; streams := streams h; errno := errno h; faults := faults h |}
  = h.
Proof. by destruct h. Qed.

Section HostCalls.
Context (h : host) (Hq : faults h = []).

Lemma fseek_quiet fd s off :
  streams h !! fd = Some s ->
  fseek h (Some fd) off
  = Returned (0, put_stream h fd
                   {| s_name := s_name s; s_pos := off; s_eof := false |}).
Proof using Hq.
  intros Hs. unfold fseek, get_stream. rewrite Hs. cbn.
  by rewrite (next_fault_quiet h Hq).
Qed.

Lemma fread_quiet fd s count :
  streams h !! fd = Some s ->
  fread h (Some fd) count
  = match entries h !! s_name s with
    | Some Directory => Returned ([], set_errno h EISDIR)
    | Some (RegFile c) =>
        let got := take (Z.to_nat count) (drop (Z.to_nat (s_pos s)) c) in
        Returned (got, put_stream h fd
                         {| s_name := s_name s;
                            s_pos := s_pos s + Z.of_nat (length got);
                            s_eof := Z.of_nat (length got) <? count |})
    | None =>
        Returned ([], put_stream h fd
                        {| s_name := s_name s; s_pos := s_pos s;
                           s_eof := 0 <? count |})
    end.
Proof using Hq.
  intros Hs. unfold fread, get_stream. rewrite Hs. cbn.
  by rewrite (next_fault_quiet h Hq).
Qed.

Lemma fwrite_quiet fd s d src :
  streams h !! fd = Some s -> dir h = Some d ->
  fwrite h (Some fd) src
  = Returned (Z.of_nat (length src),
              put_stream
                (set_dir h
                   (Some (<[s_name s :=
                            RegFile (pwrite (Z.to_nat (s_pos s)) src
                                       (default [] (file_content h (s_name s))))]>
                            d)))
                fd {| s_name := s_name s;
                      s_pos := s_pos s + Z.of_nat (length src);
                      s_eof := s_eof s |}).
Proof using Hq.
  intros Hs Hd. unfold fwrite, get_stream. rewrite Hs. cbn.
  by rewrite (next_fault_quiet h Hq), Hd.
Qed.

Lemma fclose_quiet fd s :
  streams h !! fd = Some s ->
  fclose h (Some fd) = Returned (0, set_streams h (delete fd (streams h))).
Proof using Hq.
  intros Hs. unfold fclose, get_stream. rewrite Hs. cbn.
  by rewrite (next_fault_quiet h Hq).
Qed.

Lemma fopen_quiet name m d :
  dir h = Some d ->
  fopen h name m
  = match d !! name, m with
    | None, Mode_wplus
    | Some (RegFile _), Mode_wplus =>
        open_stream (set_dir h (Some (<[name := RegFile []]> d))) name
    | None, _ => (None, set_errno h ENOENT)
    | Some (RegFile _), _ => open_stream h name
    | Some Directory, Mode_r => open_stream h name
    | Some Directory, _ => (None, set_errno h EISDIR)
    end.
Proof using Hq.
  intros Hd. unfold fopen. by rewrite (next_fault_quiet h Hq), Hd.
Qed.

Lemma stat_quiet name :
  stat h name
  = match entries h !! name with
    | None => (-1, false, set_errno h ENOENT)
    | Some (RegFile _) => (0, true, h)
    | Some Directory => (0, false, h)
    end.
Proof using Hq. unfold stat. by rewrite (next_fault_quiet h Hq). Qed.

Lemma unlink_quiet name d c :
  dir h = Some d -> d !! name = Some (RegFile c) ->
  unlink h name = (0, set_dir h (Some (delete name d))).
Proof using Hq.
  intros Hd Hl. unfold unlink. by rewrite (next_fault_quiet h Hq), Hd, Hl.
Qed.

End HostCalls.

Lemma feof_open h fd s :
  streams h !! fd = Some s -> feof h (Some fd) = Returned (s_eof s).
Proof. intros Hs. unfold feof, get_stream. by rewrite Hs. Qed.

Lemma entries_dir h d : dir h = Some d -> entries h = d.
Proof. unfold entries. by intros ->. Qed.

Lemma file_content_dir h d name :
  dir h = Some d ->
  file_content h name
  = match d !! name with Some (RegFile c) => Some c | _ => None end.
Proof. intros Hd. unfold file_content. by rewrite (entries_dir h d Hd). Qed.

(** ** One block of each walk, without faults *)

(** One block of a read: an absent artifact is skipped, a regular one is
    copied up to its end.  In both cases no stream stays open. *)
Lemma read_block_quiet emu h d off count data buffer :
  faults h = [] -> dir h = Some d -> d !! child emu <> Some Directory ->
  read_block emu h off count data buffer =
  match d !! child emu with
  | Some (RegFile c) =>
      Returned (None, h,
                copy_at data (take (Z.to_nat count) (drop (Z.to_nat off) c))
                  buffer)
  | _ => Returned (None, set_errno h ENOENT, buffer)
  end.
Proof.
  intros Hq Hd Hreg. unfold read_block.
  rewrite (fopen_quiet h Hq _ _ d Hd).
  destruct (d !! child emu) as [[c |] |] eqn:Hl; [| done | done].
  unfold open_stream. cbn [is_null andb].
  set (f := fresh (dom (streams h))).
  erewrite fseek_quiet; [| done | apply lookup_insert_eq].
  cbn [mbind outcome_bind Z.eqb negb s_name].
  erewrite fread_quiet; [| done | apply lookup_insert_eq].
  rewrite (entries_dir _ d) by done. cbn [s_name s_pos s_eof].
  rewrite Hl. cbn zeta. cbn [mbind outcome_bind].
  erewrite feof_open; [| apply lookup_insert_eq].
  cbn [mbind outcome_bind s_eof]. rewrite andb_negb_r.
  erewrite fclose_quiet; [| done | apply lookup_insert_eq].
  cbn [mbind outcome_bind Z.eqb negb]. host_simpl.
  rewrite close_fresh by apply fresh_stream. by rewrite host_eta.
Qed.

(** One block of a program: the artifact is created when absent and
    updated in place otherwise. *)
Lemma prog_block_quiet emu h d off count data buffer :
  faults h = [] -> dir h = Some d -> d !! child emu <> Some Directory ->
  (data + Z.to_nat count <= length buffer)%nat -> 0 <= count ->
  exists e,
    prog_block emu h off count data buffer =
    Returned (None,
              set_errno
                (set_dir h
                   (Some (<[child emu :=
                            RegFile
                              (pwrite (Z.to_nat off)
                                 (take (Z.to_nat count) (drop data buffer))
                                 (default [] (file_content h (child emu))))]>
                            d))) e).
Proof.
  intros Hq Hd Hreg Hlen Hc. unfold prog_block.
  rewrite (fopen_quiet h Hq _ _ d Hd).
  assert (Hsrc : Z.of_nat (length (take (Z.to_nat count) (drop data buffer)))
                 = count).
  { rewrite length_take, length_drop. lia. }
  destruct (d !! child emu) as [[c |] |] eqn:Hl; [| done |].
  - exists (errno h).
    unfold open_stream. cbn [is_null andb].
    set (f := fresh (dom (streams h))).
    erewrite fseek_quiet; [| done | apply lookup_insert_eq].
    cbn [mbind outcome_bind Z.eqb negb s_name].
    destruct (Nat.ltb_spec (length buffer) (data + Z.to_nat count)); [lia |].
    erewrite fwrite_quiet; [| done | apply lookup_insert_eq | done].
    cbn [mbind outcome_bind s_name s_pos s_eof]. rewrite Hsrc, Z.ltb_irrefl.
    erewrite fclose_quiet; [| done | apply lookup_insert_eq].
    cbn [mbind outcome_bind Z.eqb negb]. host_simpl.
    rewrite close_fresh by apply fresh_stream.
    rewrite !(file_content_dir _ d) by done. rewrite Hl.
    reflexivity.
  - exists ENOENT.
    cbn [is_null andb errno set_errno Z.eqb ENOENT Pos.eqb].
    rewrite (fopen_quiet (set_errno h ENOENT) Hq _ _ d Hd), Hl.
    unfold open_stream. cbn [is_null andb].
    host_simpl.
    set (f := fresh (dom (streams h))).
    erewrite fseek_quiet; [| done | apply lookup_insert_eq].
    cbn [mbind outcome_bind Z.eqb negb s_name].
    destruct (Nat.ltb_spec (length buffer) (data + Z.to_nat count)); [lia |].
    erewrite fwrite_quiet; [| done | apply lookup_insert_eq | done].
    cbn [mbind outcome_bind s_name s_pos s_eof]. rewrite Hsrc, Z.ltb_irrefl.
    erewrite fclose_quiet; [| done | apply lookup_insert_eq].
    cbn [mbind outcome_bind Z.eqb negb]. host_simpl.
    rewrite close_fresh by apply fresh_stream.
    rewrite insert_insert_eq.
    unfold file_content, entries. cbn [dir]. rewrite lookup_insert_eq.
    rewrite Hd, Hl. reflexivity.
Qed.

(** ** Buffers and file contents *)

Lemma copy_at_length pos src (buf : list Byte.byte) :
  (pos + length src <= length buf)%nat ->
  length (copy_at pos src buf) = length buf.
Proof.
  intros H. unfold copy_at.
  rewrite !length_app, length_take, length_drop. lia.
Qed.

Lemma copy_at_lookup pos src (buf : list Byte.byte) (i : nat) :
  (pos + length src <= length buf)%nat ->
  copy_at pos src buf !! i =
  if decide (pos <= i < pos + length src)%nat then src !! (i - pos)%nat
  else buf !! i.
Proof.
  intros H. unfold copy_at.
  assert (Ht : length (take pos buf) = pos) by (rewrite length_take; lia).
  destruct (decide (i < pos)%nat) as [Hlt | Hge].
  - rewrite lookup_app_l by lia. rewrite lookup_take_lt by lia.
    case_decide; [lia | done].
  - rewrite lookup_app_r by lia. rewrite Ht.
    destruct (decide (i - pos < length src)%nat) as [Hin | Hout].
    + rewrite lookup_app_l by lia. case_decide; [done | lia].
    + rewrite lookup_app_r by lia. rewrite lookup_drop.
      case_decide; [lia |]. f_equal. lia.
Qed.

Lemma memset0_length n (buf : list Byte.byte) :
  (n <= length buf)%nat -> length (memset0 n buf) = length buf.
Proof.
  intros H. unfold memset0. rewrite length_app, length_replicate, length_drop.
  lia.
Qed.

Lemma memset0_lookup n (buf : list Byte.byte) (i : nat) :
  memset0 n buf !! i = if decide (i < n)%nat then Some zero else buf !! i.
Proof.
  unfold memset0. case_decide.
  - rewrite lookup_app_l by (rewrite length_replicate; lia).
    by apply lookup_replicate_2.
  - rewrite lookup_app_r by (rewrite length_replicate; lia).
    rewrite length_replicate, lookup_drop. f_equal. lia.
Qed.

(** A write puts its bytes at the position, keeps every other byte that
    was there, and never shortens the file. *)
Lemma pwrite_lookup_in pos src old (p : nat) :
  (p < length src)%nat -> pwrite pos src old !! (pos + p)%nat = src !! p.
Proof.
  intros Hp. unfold pwrite. destruct src as [| b src']; [cbn in Hp; lia |].
  set (src := b :: src') in *.
  assert (Hl : length (take pos old ++ replicate (pos - length old) zero) = pos).
  { rewrite length_app, length_take, length_replicate. lia. }
  rewrite app_assoc, lookup_app_r by lia. rewrite Hl.
  rewrite lookup_app_l by lia. f_equal. lia.
Qed.

Lemma pwrite_lookup_out pos src old (i : nat) :
  (i < length old)%nat -> (i < pos \/ pos + length src <= i)%nat ->
  pwrite pos src old !! i = old !! i.
Proof.
  intros Hi Hout. unfold pwrite. destruct src as [| b src']; [done |].
  set (src := b :: src') in *.
  destruct (decide (i < pos)%nat) as [Hlt | Hge].
  - rewrite lookup_app_l by (rewrite length_take; lia).
    by rewrite lookup_take_lt.
  - assert (Hl : length (take pos old ++ replicate (pos - length old) zero)
                 = pos).
    { rewrite length_app, length_take, length_replicate. lia. }
    rewrite app_assoc, lookup_app_r by lia. rewrite Hl.
    rewrite lookup_app_r by lia. rewrite lookup_drop. f_equal. lia.
Qed.

Lemma pwrite_length pos src old :
  (length old <= length (pwrite pos src old))%nat.
Proof.
  unfold pwrite. destruct src as [| b src']; [done |].
  rewrite !length_app, length_take, length_replicate, length_drop. lia.
Qed.

(** ** The walk over the blocks *)

Lemma wrap32_succ_ne b k : uint32 b -> 0 < k < 2 ^ 32 -> wrap32 (b + k) <> b.
Proof.
  unfold uint32, wrap32. intros Hb Hk Heq.
  pose proof (Z.div_mod (b + k) (2 ^ 32) ltac:(lia)) as Hdm.
  rewrite Heq in Hdm.
  assert (0 < (b + k) / 2 ^ 32 \/ (b + k) / 2 ^ 32 <= 0) as [Hq | Hq]; lia.
Qed.

Lemma wrap32_add_l a b : wrap32 (wrap32 a + b) = wrap32 (a + b).
Proof. unfold wrap32. apply Zplus_mod_idemp_l. Qed.

Lemma locate_first es block off p :
  p < wrap32 (es - off) -> locate es block off p = (block, off + p).
Proof. unfold locate. intros H. cbn zeta. destruct (Z.ltb_spec p (wrap32 (es - off))); [done | lia]. Qed.

Lemma locate_next es block off p :
  0 < es < 2 ^ 32 -> wrap32 (es - off) <= p ->
  locate es block off p
  = locate es (wrap32 (block + 1)) 0 (p - wrap32 (es - off)).
Proof.
  intros He Hp. unfold locate. cbn zeta.
  set (c0 := wrap32 (es - off)) in *.
  destruct (Z.ltb_spec p c0); [lia |].
  rewrite Z.sub_0_r, (wrap32_small es) by (unfold uint32; lia).
  assert (0 <= p - c0) by lia. set (q := p - c0) in *.
  destruct (Z.ltb_spec q es).
  - rewrite Z.div_small, Z.mod_small by lia. by rewrite Z.add_0_r.
  - assert (Hdiv : q / es = (q - es) / es + 1).
    { rewrite <- Z.div_add by lia. f_equal. lia. }
    assert (Hmod : q mod es = (q - es) mod es).
    { rewrite <- (Z.mod_add (q - es) 1 es) by lia. f_equal. lia. }
    rewrite Hdiv, Hmod, <- (Z.add_assoc (wrap32 (block + 1))), wrap32_add_l.
    do 2 f_equal. lia.
Qed.

(** In the usual case of an offset inside the block this is the address
    arithmetic of the device. *)
Lemma locate_in_block es block off p :
  0 < es < 2 ^ 32 -> uint32 block -> 0 <= off < es -> 0 <= p ->
  locate es block off p = (wrap32 (block + (off + p) / es), (off + p) mod es).
Proof.
  intros He Hb Ho Hp. unfold locate. cbn zeta.
  rewrite (wrap32_small (es - off)) by (unfold uint32; lia).
  destruct (Z.ltb_spec p (es - off)).
  - rewrite Z.div_small, Z.mod_small, Z.add_0_r by lia.
    by rewrite wrap32_small.
  - assert (Hq : off + p = (p - (es - off)) + 1 * es) by lia.
    rewrite Hq, Z.div_add, Z.mod_add by lia. do 2 f_equal. lia.
Qed.

(** The number of bytes the walk takes from the current block. *)
Lemma count_bounds es off size :
  0 < es < 2 ^ 32 -> uint32 off -> 0 < size ->
  let count := lfs_min (wrap32 (es - off)) size in
  0 <= count <= size /\ (off <> es -> 0 < count) /\
  (count < size -> count = wrap32 (es - off)).
Proof.
  intros He Ho Hs. cbn zeta. rewrite lfs_min_spec.
  pose proof (wrap32_range (es - off)) as Hr. unfold uint32 in *.
  split; [lia |]. split; [| lia].
  intros Hne. assert (wrap32 (es - off) <> 0); [| lia].
  unfold wrap32. intros Hz.
  destruct (Z.le_gt_cases off es).
  - rewrite Z.mod_small in Hz by lia. lia.
  - replace (es - off) with ((es - off + 2 ^ 32) + (-1) * 2 ^ 32) in Hz by lia.
    rewrite Z.mod_add, Z.mod_small in Hz by lia. lia.
Qed.

(** What one block contributes to the buffer of a read. *)
Lemma read_block_spec emu h d off count data buffer :
  faults h = [] -> dir h = Some d -> regular d ->
  0 <= off -> 0 <= count ->
  (data + Z.to_nat count <= length buffer)%nat ->
  (forall i : nat, (data <= i < data + Z.to_nat count)%nat ->
                   buffer !! i = Some zero) ->
  exists h1 buffer1,
    read_block emu h off count data buffer = Returned (None, h1, buffer1)
    /\ faults h1 = [] /\ dir h1 = Some d /\ streams h1 = streams h
    /\ length buffer1 = length buffer
    /\ forall i : nat,
         buffer1 !! i =
         if decide (data <= i < data + Z.to_nat count)%nat
         then Some (entry_byte (d !! child emu) (Z.to_nat off + (i - data)))
         else buffer !! i.
Proof.
  intros Hq Hd Hreg Ho Hc Hlen Hzero.
  rewrite (read_block_quiet emu h d) by done.
  destruct (d !! child emu) as [[c |] |] eqn:Hl.
  - set (got := take (Z.to_nat count) (drop (Z.to_nat off) c)).
    assert (Hgot : (length got <= Z.to_nat count)%nat).
    { unfold got. rewrite length_take. lia. }
    exists h, (copy_at data got buffer).
    repeat split; try done.
    { apply copy_at_length. lia. }
    intros i. rewrite copy_at_lookup by lia. cbn [entry_byte].
    destruct (decide (data <= i < data + length got)%nat) as [Hin | Hout].
    + case_decide; [| lia]. unfold got in *.
      rewrite lookup_take_lt, lookup_drop by lia.
      rewrite length_take, length_drop in Hin.
      destruct (lookup_lt_is_Some_2 c (Z.to_nat off + (i - data))%nat
                  ltac:(lia)) as [x Hx].
      by rewrite Hx.
    + case_decide as Hr; [| done]. rewrite Hzero by lia.
      unfold got in Hout. rewrite length_take, length_drop in Hout.
      rewrite (proj2 (lookup_ge_None c _)) by lia. done.
  - by destruct (Hreg (child emu)).
  - exists (set_errno h ENOENT), buffer. repeat split; try done.
    intros i. case_decide; [| done]. cbn. by apply Hzero.
Qed.

Section ReadWalk.

Variable cfg : lfs_config.
Hypothesis Hname : (8 < LFS_NAME_MAX cfg)%nat.

Lemma read_loop_done fuel emu h block off size data buffer :
  size <= 0 ->
  read_loop cfg fuel emu h block off size data buffer
  = Returned (None, emu, h, buffer).
Proof.
  intros Hs. destruct fuel; cbn [read_loop];
    by destruct (Z.ltb_spec 0 size); [lia |].
Qed.

Lemma read_loop_step fuel emu h block off size data buffer :
  0 < size ->
  read_loop cfg (S fuel) emu h block off size data buffer
  = let emu1 := set_child emu (sprintf_x block) in
    let count := lfs_min (wrap32 (erase_size (info emu) - off)) size in
    '(r, h1, buffer1) ← read_block emu1 h off count data buffer;
    match r with
    | Some e => Returned (Some e, emu1, h1, buffer1)
    | None =>
        read_loop cfg fuel emu1 h1 (wrap32 (block + 1)) 0
          (wrap32 (size - count)) (data + Z.to_nat count)%nat buffer1
    end.
Proof using Hname.
  intros Hs. cbn [read_loop]. destruct (Z.ltb_spec 0 size); [| lia].
  by rewrite snprintf_block.
Qed.

Lemma read_loop_quiet fuel : forall emu h block off size data buffer d,
  0 < erase_size (info emu) < 2 ^ 32 ->
  uint32 block -> uint32 off -> uint32 size ->
  faults h = [] -> dir h = Some d -> regular d ->
  (Z.to_nat size + (if (off =? erase_size (info emu))%Z then 1 else 0)
   <= fuel)%nat ->
  (data + Z.to_nat size <= length buffer)%nat ->
  (forall i : nat, (data <= i < data + Z.to_nat size)%nat ->
                   buffer !! i = Some zero) ->
  exists emu' h' buffer',
    read_loop cfg fuel emu h block off size data buffer
    = Returned (None, emu', h', buffer')
    /\ stats emu' = stats emu /\ info emu' = info emu
    /\ dir h' = Some d /\ streams h' = streams h /\ faults h' = []
    /\ length buffer' = length buffer
    /\ forall i : nat,
         buffer' !! i =
         if decide (data <= i < data + Z.to_nat size)%nat
         then Some (stored_byte d
                      (locate (erase_size (info emu)) block off
                         (Z.of_nat (i - data))))
         else buffer !! i.
Proof using Hname.
  induction fuel as [| fuel IH];
    intros emu h block off size data buffer d He Hb Ho Hs Hq Hd Hreg Hfuel
      Hlen Hzero.
  - assert (size = 0) as -> by (unfold uint32 in Hs; lia).
    rewrite read_loop_done by lia. exists emu, h, buffer.
    repeat split; try done. intros i. case_decide; [lia | done].
  - destruct (Z.le_gt_cases size 0) as [Hz | Hpos].
    { assert (size = 0) as -> by (unfold uint32 in Hs; lia).
      rewrite read_loop_done by lia. exists emu, h, buffer.
      repeat split; try done. intros i. case_decide; [lia | done]. }
    rewrite read_loop_step by lia. cbn zeta.
    set (es := erase_size (info emu)) in *.
    destruct (count_bounds es off size He Ho ltac:(lia)) as (Hc & Hc1 & Hc2).
    set (count := lfs_min (wrap32 (es - off)) size) in *.
    set (emu1 := set_child emu (sprintf_x block)).
    assert (Hsz : wrap32 (size - count) = size - count).
    { apply wrap32_small. unfold uint32 in *. lia. }
    assert (Hfuel' : (Z.to_nat (size - count)
                      + (if (0 =? erase_size (info emu1))%Z then 1 else 0)
                      <= fuel)%nat).
    { change (erase_size (info emu1)) with es.
      destruct (Z.eqb_spec 0 es); [lia |].
      destruct (Z.eqb_spec off es); [lia |]. specialize (Hc1 ltac:(done)). lia. }
    destruct (read_block_spec emu1 h d off count data buffer)
      as (h1 & buffer1 & -> & Hq1 & Hd1 & Hs1 & Hl1 & Hb1); try done.
    { unfold uint32 in Ho. lia. }
    { lia. }
    { lia. }
    { intros i Hi. apply Hzero. lia. }
    cbn [mbind outcome_bind]. rewrite Hsz.
    destruct (IH emu1 h1 (wrap32 (block + 1)) 0 (size - count)
                (data + Z.to_nat count)%nat buffer1 d)
      as (emu' & h' & buffer' & -> & Hst & Hin & Hd' & Hs' & Hq' & Hl' & Hb');
      try done.
    { apply wrap32_range. }
    { unfold uint32 in *. lia. }
    { lia. }
    { intros i Hi. rewrite Hb1. case_decide; [lia |]. apply Hzero. lia. }
    exists emu', h', buffer'. repeat split; try done; try congruence.
    intros i. rewrite Hb'. change (erase_size (info emu1)) with es.
    destruct (decide (data <= i < data + Z.to_nat count)%nat) as [Hfst | Hrest].
    + (* a byte of the current block *)
      repeat case_decide; try lia. rewrite Hb1. case_decide; [| lia].
      f_equal. rewrite locate_first.
      * unfold stored_byte, uint32 in *. cbn [fst snd]. f_equal. lia.
      * unfold count in *. rewrite lfs_min_spec in *. lia.
    + repeat case_decide; try lia.
      * (* a byte of a later block *)
        f_equal. f_equal. rewrite (locate_next es block off) by lia.
        f_equal. rewrite <- Hc2 by lia. lia.
      * rewrite Hb1. by case_decide; [lia |].
Qed.

End ReadWalk.

Lemma regular_insert d name c :
  regular d -> regular (<[name := RegFile c]> d).
Proof.
  intros Hreg n. destruct (decide (name = n)) as [-> | Hne].
  - by rewrite lookup_insert_eq.
  - rewrite lookup_insert_ne by done. apply Hreg.
Qed.

Section ProgWalk.

Variable cfg : lfs_config.
Hypothesis Hname : (8 < LFS_NAME_MAX cfg)%nat.

Lemma prog_loop_done fuel emu h block off size data buffer :
  size <= 0 ->
  prog_loop cfg fuel emu h block off size data buffer
  = Returned (None, emu, h).
Proof.
  intros Hs. destruct fuel; cbn [prog_loop];
    by destruct (Z.ltb_spec 0 size); [lia |].
Qed.

Lemma prog_loop_step fuel emu h block off size data buffer :
  0 < size ->
  prog_loop cfg (S fuel) emu h block off size data buffer
  = let emu1 := set_child emu (sprintf_x block) in
    let count := lfs_min (wrap32 (erase_size (info emu) - off)) size in
    '(r, h1) ← prog_block emu1 h off count data buffer;
    match r with
    | Some e => Returned (Some e, emu1, h1)
    | None =>
        prog_loop cfg fuel emu1 h1 (wrap32 (block + 1)) 0
          (wrap32 (size - count)) (data + Z.to_nat count)%nat buffer
    end.
Proof using Hname.
  intros Hs. cbn [prog_loop]. destruct (Z.ltb_spec 0 size); [| lia].
  by rewrite snprintf_block.
Qed.

Lemma prog_loop_quiet fuel : forall emu h block off size data buffer d,
  0 < erase_size (info emu) < 2 ^ 32 ->
  uint32 block -> uint32 off -> uint32 size ->
  faults h = [] -> dir h = Some d -> regular d ->
  (Z.to_nat size + (if (off =? erase_size (info emu))%Z then 1 else 0)
   <= fuel)%nat ->
  (data + Z.to_nat size <= length buffer)%nat ->
  exists emu' h' d',
    prog_loop cfg fuel emu h block off size data buffer
    = Returned (None, emu', h')
    /\ stats emu' = stats emu /\ info emu' = info emu
    /\ dir h' = Some d' /\ regular d'
    /\ streams h' = streams h /\ faults h' = []
    /\ (forall name,
          (forall j, 0 <= j < size + (if off =? erase_size (info emu)
                                      then 1 else 0) ->
                     name <> sprintf_x (wrap32 (block + j))) ->
          d' !! name = d !! name)
    /\ (forall p : nat,
          (p < Z.to_nat size)%nat ->
          Some (stored_byte d'
                  (locate (erase_size (info emu)) block off (Z.of_nat p)))
          = buffer !! (data + p)%nat).
Proof using Hname.
  induction fuel as [| fuel IH];
    intros emu h block off size data buffer d He Hb Ho Hs Hq Hd Hreg Hfuel
      Hlen.
  - assert (size = 0) as -> by (unfold uint32 in Hs; lia).
    rewrite prog_loop_done by lia. exists emu, h, d.
    repeat split; try done. intros p Hp. lia.
  - destruct (Z.le_gt_cases size 0) as [Hz | Hpos].
    { assert (size = 0) as -> by (unfold uint32 in Hs; lia).
      rewrite prog_loop_done by lia. exists emu, h, d.
      repeat split; try done. intros p Hp. lia. }
    rewrite prog_loop_step by lia. cbn zeta.
    set (es := erase_size (info emu)) in *.
    destruct (count_bounds es off size He Ho ltac:(lia)) as (Hc & Hc1 & Hc2).
    set (count := lfs_min (wrap32 (es - off)) size) in *.
    set (emu1 := set_child emu (sprintf_x block)).
    assert (Hsz : wrap32 (size - count) = size - count).
    { apply wrap32_small. unfold uint32 in *. lia. }
    assert (Hfuel' : (Z.to_nat (size - count)
                      + (if (0 =? erase_size (info emu1))%Z then 1 else 0)
                      <= fuel)%nat).
    { change (erase_size (info emu1)) with es.
      destruct (Z.eqb_spec 0 es); [lia |].
      destruct (Z.eqb_spec off es); [lia |]. specialize (Hc1 ltac:(done)). lia. }
    destruct (prog_block_quiet emu1 h d off count data buffer)
      as (e & ->); try done; try lia.
    cbn [mbind outcome_bind]. rewrite Hsz.
    set (src := take (Z.to_nat count) (drop data buffer)).
    set (new := pwrite (Z.to_nat off) src
                  (default [] (file_content h (child emu1)))).
    set (d1 := <[child emu1 := RegFile new]> d).
    assert (Hsrc : length src = Z.to_nat count).
    { unfold src. rewrite length_take, length_drop. lia. }
    destruct (IH emu1 (set_errno (set_dir h (Some d1)) e) (wrap32 (block + 1))
                0 (size - count) (data + Z.to_nat count)%nat buffer d1)
      as (emu' & h' & d' & -> & Hst & Hin & Hd' & Hreg' & Hs' & Hq' & Hfr & Hby);
      try done.
    { apply wrap32_range. }
    { unfold uint32 in *. lia. }
    { by apply regular_insert. }
    { lia. }
    exists emu', h', d'. repeat split; try done; try congruence.
    + (* frame *)
      intros name Hout. rewrite Hfr.
      * unfold d1. rewrite lookup_insert_ne; [done |].
        change (child emu1) with (sprintf_x block).
        specialize (Hout 0). rewrite Z.add_0_r, wrap32_small in Hout by done.
        intros <-. apply Hout; [| done]. destruct (off =? es); lia.
      * intros j Hj. rewrite wrap32_add_l, <- Z.add_assoc. apply Hout.
        change (erase_size (info emu1)) with es in Hj.
        destruct (Z.eqb_spec 0 es); [lia |].
        destruct (Z.eqb_spec off es); [lia |]. specialize (Hc1 ltac:(done)). lia.
    + (* the bytes written *)
      intros p Hp. change (erase_size (info emu1)) with es in *.
      destruct (decide (p < Z.to_nat count)%nat) as [Hfst | Hrest].
      * rewrite locate_first
          by (unfold count in *; rewrite lfs_min_spec in *; lia).
        unfold stored_byte. cbn [fst snd]. rewrite Hfr.
        -- unfold d1. change (child emu1) with (sprintf_x block).
           rewrite lookup_insert_eq. cbn [entry_byte].
           replace (Z.to_nat (off + Z.of_nat p)) with (Z.to_nat off + p)%nat
             by (unfold uint32 in *; lia).
           unfold new. rewrite pwrite_lookup_in by lia.
           unfold src. rewrite lookup_take_lt, lookup_drop by lia.
           destruct (lookup_lt_is_Some_2 buffer (data + p)%nat ltac:(lia))
             as [x Hx]. by rewrite Hx.
        -- intros j Hj Heq. apply sprintf_x_inj in Heq;
             [| done | apply wrap32_range].
           rewrite wrap32_add_l, <- Z.add_assoc in Heq.
           symmetry in Heq. revert Heq. apply wrap32_succ_ne; [done |].
           destruct (Z.eqb_spec 0 es); [lia |]. unfold uint32 in *. lia.
      * rewrite (locate_next es block off) by lia.
        replace (Z.of_nat p - wrap32 (es - off))
          with (Z.of_nat (p - Z.to_nat count)) by lia.
        rewrite Hby by lia. f_equal. lia.
Qed.

End ProgWalk.

Lemma valid_access_true gran i block off size :
  gran <> 0 -> uint32 block -> uint32 (erase_size i) -> uint32 off ->
  uint32 size ->
  valid_access gran i block off size = true <->
  off mod gran = 0 /\ size mod gran = 0
  /\ block * erase_size i + off + size < total_size i.
Proof.
  intros Hg Hb He Ho Hs. unfold valid_access.
  rewrite address_no_overflow by done.
  rewrite !andb_true_iff, !Z.eqb_eq, Z.ltb_lt. tauto.
Qed.

Lemma regular_empty : regular ∅.
Proof. intros name. by rewrite lookup_empty. Qed.

Lemma file_content_entry h d name :
  dir h = Some d -> regular d ->
  forall o,
    entry_byte (d !! name) o
    = match file_content h name with
      | Some c => default zero (c !! o)
      | None => zero
      end.
Proof.
  intros Hd Hreg o. rewrite (file_content_dir h d) by done.
  by destruct (d !! name) as [[c |] |].
Qed.


(** A read on a host without faults: it succeeds, and every byte of the
    result is the stored byte at its place. *)
Lemma lfs_emubd_read_quiet cfg emu h d block off size out :
  (8 < LFS_NAME_MAX cfg)%nat -> geometry_ok (info emu) ->
  uint32 block -> uint32 off -> uint32 size ->
  valid_access (read_size (info emu)) (info emu) block off size = true ->
  faults h = [] -> dir h = Some d -> regular d ->
  (Z.to_nat size <= length out)%nat ->
  exists emu' h' out',
    lfs_emubd_read cfg emu h block off size out = Returned (0, emu', h', out')
    /\ dir h' = dir h /\ length out' = length out
    /\ forall p, 0 <= p < size ->
         let loc := locate (erase_size (info emu)) block off p in
         out' !! Z.to_nat p
         = Some (match file_content h (sprintf_x (fst loc)) with
                 | Some c => default zero (c !! Z.to_nat (snd loc))
                 | None => zero
                 end).
Proof.
  intros Hname (Hrs & Hps & Hes & Hts) Hb Ho Hs Hvalid Hq Hd Hreg Hlen.
  unfold lfs_emubd_read.
  destruct (Z.eqb_spec (read_size (info emu)) 0); [lia |].
  rewrite Hvalid. cbn [negb].
  destruct (Nat.ltb_spec (length out) (Z.to_nat size)); [lia |].
  destruct (read_loop_quiet cfg Hname (S (Z.to_nat size)) emu h block off size
              0%nat (memset0 (Z.to_nat size) out) d)
    as (emu' & h' & out' & -> & Hst & Hin & Hd' & Hs' & Hq' & Hl' & Hb');
    try done.
  { destruct (off =? erase_size (info emu)); lia. }
  { rewrite memset0_length by lia. lia. }
  { intros i Hi. rewrite memset0_lookup. case_decide; [done | lia]. }
  cbn [mbind outcome_bind]. eexists _, h', out'. split; [reflexivity |].
  split; [congruence |]. split; [by rewrite Hl', memset0_length |].
  intros p Hp. cbn zeta. rewrite Hb'. case_decide; [| lia].
  rewrite Nat.sub_0_r, Z2Nat.id by lia. f_equal.
  unfold stored_byte. by apply file_content_entry.
Qed.

(** ** Host calls on any host *)

Lemma next_fault_streams h flt h1 :
  next_fault h = (flt, h1) ->
  streams h1 = streams h /\ dir h1 = dir h /\ errno h1 = errno h.
Proof.
  unfold next_fault. destruct (faults h); intros [= <- <-]; done.
Qed.

(** A failed [fopen] sets [errno] to a positive value and opens nothing; a
    successful one adds one stream under a handle that was free. *)
Lemma fopen_any h name m f h1 :
  fopen h name m = (f, h1) ->
  match f with
  | None => 0 < errno h1 /\ streams h1 = streams h
  | Some fd =>
      streams h !! fd = None /\
      exists s, streams h1 = <[fd := s]> (streams h)
  end.
Proof.
  unfold fopen. destruct (next_fault h) as [flt h0] eqn:Hn.
  apply next_fault_streams in Hn as (Hs & Hd & He).
  unfold open_stream.
  destruct flt as [e |]; [intros [= <- <-]; cbn; split; [lia | done] |].
  destruct (dir h0) as [d0 |]; [| intros [= <- <-]; cbn; split; [done | done]].
  destruct (d0 !! name) as [[c |] |], m; intros [= <- <-];
    cbn [streams errno set_streams set_errno set_dir];
    rewrite ?Hs; first [ by split; [apply fresh_stream | eexists]
                       | by split ].
Qed.

Lemma fseek_any h fd s off :
  streams h !! fd = Some s ->
  exists err h1 s1,
    fseek h (Some fd) off = Returned (err, h1)
    /\ streams h1 = <[fd := s1]> (streams h)
    /\ (err = 0 \/ 0 < errno h1).
Proof.
  intros Hs. unfold fseek, get_stream. rewrite Hs. cbn [mbind outcome_bind].
  destruct (next_fault h) as [flt h0] eqn:Hn.
  apply next_fault_streams in Hn as (Hs0 & Hd & He).
  destruct flt as [e |].
  - exists (-1), (set_errno h0 (Z.pos e)), s. split; [done |]. cbn.
    rewrite Hs0, insert_id by done. split; [done | lia].
  - eexists 0, _, _. split; [done |]. cbn. rewrite Hs0. by split; [| left].
Qed.

Lemma fread_any h fd s count :
  streams h !! fd = Some s ->
  exists got h1 s1,
    fread h (Some fd) count = Returned (got, h1)
    /\ streams h1 = <[fd := s1]> (streams h)
    /\ ((Z.of_nat (length got) <? count) = false \/ s_eof s1 = true
        \/ 0 < errno h1).
Proof.
  intros Hs. unfold fread, get_stream. rewrite Hs. cbn [mbind outcome_bind].
  destruct (next_fault h) as [flt h0] eqn:Hn.
  apply next_fault_streams in Hn as (Hs0 & Hd & He).
  destruct flt as [e |].
  - exists [], (set_errno h0 (Z.pos e)), s. split; [done |]. cbn.
    rewrite Hs0, insert_id by done. split; [done | right; right; lia].
  - destruct (entries h0 !! s_name s) as [[c |] |].
    + eexists _, _, _. split; [done |]. cbn. rewrite Hs0. split; [done |].
      destruct (_ <? count); [by right; left | by left].
    + exists [], (set_errno h0 EISDIR), s. split; [done |]. cbn.
      rewrite Hs0, insert_id by done. split; [done | right; right; done].
    + eexists [], _, _. split; [done |]. cbn. rewrite Hs0. split; [done |].
      change (Z.of_nat 0) with 0. cbn [s_eof].
      destruct (0 <? count); [by right; left | by left].
Qed.

Lemma fwrite_any h fd s src :
  streams h !! fd = Some s ->
  exists res h1 s1,
    fwrite h (Some fd) src = Returned (res, h1)
    /\ streams h1 = <[fd := s1]> (streams h)
    /\ (res = Z.of_nat (length src) \/ 0 < errno h1).
Proof.
  intros Hs. unfold fwrite, get_stream. rewrite Hs. cbn [mbind outcome_bind].
  destruct (next_fault h) as [flt h0] eqn:Hn.
  apply next_fault_streams in Hn as (Hs0 & Hd & He).
  destruct flt as [e |].
  - exists 0, (set_errno h0 (Z.pos e)), s. split; [done |]. cbn.
    rewrite Hs0, insert_id by done. split; [done | right; lia].
  - destruct (dir h0) as [d0 |].
    + eexists _, _, _. split; [done |]. cbn. rewrite Hs0. by split; [| left].
    + exists 0, (set_errno h0 ENOENT), s. split; [done |]. cbn.
      rewrite Hs0, insert_id by done. split; [done | right; done].
Qed.

Lemma fclose_any h fd s :
  streams h !! fd = Some s ->
  exists err h1,
    fclose h (Some fd) = Returned (err, h1)
    /\ streams h1 = delete fd (streams h)
    /\ (err = 0 \/ 0 < errno h1).
Proof.
  intros Hs. unfold fclose, get_stream. rewrite Hs. cbn [mbind outcome_bind].
  destruct (next_fault h) as [flt h0] eqn:Hn.
  apply next_fault_streams in Hn as (Hs0 & Hd & He).
  destruct flt as [e |].
  - eexists (-1), _. split; [done |]. cbn. rewrite Hs0. split; [done | right; lia].
  - eexists 0, _. split; [done |]. cbn. rewrite Hs0. by split; [| left].
Qed.

(** One block of a read on any host: an error code is negative, and only
    an error leaves the stream of the block open. *)
Lemma read_block_any emu h off count data buffer r h' buffer' :
  read_block emu h off count data buffer = Returned (r, h', buffer') ->
  (forall e, r = Some e -> e < 0)
  /\ (r = None -> streams h' = streams h)
  /\ leaks_at_most_one h h'.
Proof.
  unfold read_block, leaks_at_most_one.
  destruct (fopen h (child emu) Mode_r) as [f h1] eqn:Hopen.
  apply fopen_any in Hopen. destruct f as [fd |].
  - destruct Hopen as (Hfree & s0 & Hs1). cbn [is_null andb].
    destruct (fseek_any h1 fd s0 off) as (err & h2 & s2 & -> & Hs2 & He2).
    { rewrite Hs1. apply lookup_insert_eq. }
    cbn [mbind outcome_bind]. rewrite Hs1, insert_insert_eq in Hs2.
    destruct (Z.eqb_spec err 0) as [-> | Herr]; cbn [negb].
    2:{ intros [= <- <- <-]. split; [intros e [= <-]; lia |].
        split; [done |]. right. by exists fd, s2. }
    destruct (fread_any h2 fd s2 count) as (got & h3 & s3 & -> & Hs3 & He3).
    { rewrite Hs2. apply lookup_insert_eq. }
    cbn [mbind outcome_bind]. rewrite Hs2, insert_insert_eq in Hs3.
    rewrite (feof_open h3 fd s3) by (rewrite Hs3; apply lookup_insert_eq).
    cbn [mbind outcome_bind].
    destruct ((Z.of_nat (length got) <? count) && negb (s_eof s3)) eqn:Hshort.
    { intros [= <- <- <-]. apply andb_true_iff in Hshort as [Hl Hf].
      apply negb_true_iff in Hf.
      split; [intros e [= <-]; destruct He3 as [? | [? | ?]]; [congruence.. | lia] |].
      split; [done |]. right. by exists fd, s3. }
    destruct (fclose_any h3 fd s3) as (err & h4 & -> & Hs4 & He4).
    { rewrite Hs3. apply lookup_insert_eq. }
    cbn [mbind outcome_bind].
    rewrite Hs3, delete_insert_eq, delete_id in Hs4 by done.
    destruct (Z.eqb_spec err 0) as [-> | Herr]; cbn [negb];
      intros [= <- <- <-]; (split; [intros e [= <-]; lia |]); by split; [| left].
  - destruct Hopen as (Herrno & Hs1). cbn [is_null andb].
    destruct (negb (errno h1 =? ENOENT)); intros [= <- <- <-];
      (split; [intros e [= <-]; lia |]); by split; [| left].
Qed.

Lemma prog_block_any emu h off count data buffer r h' :
  prog_block emu h off count data buffer = Returned (r, h') ->
  (forall e, r = Some e -> e < 0)
  /\ (r = None -> streams h' = streams h)
  /\ leaks_at_most_one h h'.
Proof.
  unfold prog_block, leaks_at_most_one.
  assert (Htail : forall fd h1 s1,
    streams h !! fd = None -> streams h1 = <[fd := s1]> (streams h) ->
    ('(err, h2) ← fseek h1 (Some fd) off;
     if negb (err =? 0) then Returned (Some (- errno h2), h2) else
     if (length buffer <? data + Z.to_nat count)%nat then Undefined else
     '(res, h3) ← fwrite h2 (Some fd) (take (Z.to_nat count) (drop data buffer));
     if res <? count then Returned (Some (- errno h3), h3) else
     '(err, h4) ← fclose h3 (Some fd);
     if negb (err =? 0) then Returned (Some (- errno h4), h4) else
     Returned (None, h4)) = Returned (r, h') ->
    (forall e, r = Some e -> e < 0)
    /\ (r = None -> streams h' = streams h)
    /\ (streams h' = streams h
        \/ exists fd s, streams h !! fd = None
                        /\ streams h' = <[fd := s]> (streams h))).
  { intros fd h1 s1 Hfree Hs1.
    destruct (fseek_any h1 fd s1 off) as (err & h2 & s2 & -> & Hs2 & He2).
    { rewrite Hs1. apply lookup_insert_eq. }
    cbn [mbind outcome_bind]. rewrite Hs1, insert_insert_eq in Hs2.
    destruct (Z.eqb_spec err 0) as [-> | Herr]; cbn [negb].
    2:{ intros [= <- <-]. split; [intros e [= <-]; lia |].
        split; [done |]. right. by exists fd, s2. }
    destruct (Nat.ltb_spec (length buffer) (data + Z.to_nat count));
      [done |].
    destruct (fwrite_any h2 fd s2 (take (Z.to_nat count) (drop data buffer)))
      as (res & h3 & s3 & -> & Hs3 & He3).
    { rewrite Hs2. apply lookup_insert_eq. }
    cbn [mbind outcome_bind]. rewrite Hs2, insert_insert_eq in Hs3.
    destruct (Z.ltb_spec res count) as [Hshort | Hfull].
    { intros [= <- <-]. split.
      - intros e [= <-]. destruct He3 as [-> | ?]; [| lia].
        rewrite length_take, length_drop in Hshort. lia.
      - split; [done |]. right. by exists fd, s3. }
    destruct (fclose_any h3 fd s3) as (err & h4 & -> & Hs4 & He4).
    { rewrite Hs3. apply lookup_insert_eq. }
    cbn [mbind outcome_bind].
    rewrite Hs3, delete_insert_eq, delete_id in Hs4 by done.
    destruct (Z.eqb_spec err 0) as [-> | Herr]; cbn [negb];
      intros [= <- <-]; (split; [intros e [= <-]; lia |]); by split; [| left]. }
  destruct (fopen h (child emu) Mode_rplus) as [f h1] eqn:Hopen.
  apply fopen_any in Hopen. destruct f as [fd |].
  - destruct Hopen as (Hfree & s1 & Hs1). cbn [is_null andb].
    by apply (Htail fd h1 s1).
  - destruct Hopen as (Herrno & Hs1). cbn [is_null andb].
    destruct (errno h1 =? ENOENT); [| done].
    destruct (fopen h1 (child emu) Mode_wplus) as [f2 h2] eqn:Hopen2.
    apply fopen_any in Hopen2. destruct f2 as [fd |].
    + destruct Hopen2 as (Hfree & s2 & Hs2). cbn [is_null].
      rewrite Hs1 in Hfree, Hs2. by apply (Htail fd h2 s2).
    + destruct Hopen2 as (Herrno2 & Hs2). cbn [is_null].
      intros [= <- <-]. split; [intros e [= <-]; lia |].
      split; [done |]. left. congruence.
Qed.

Lemma stat_any h name err isreg h1 :
  stat h name = (err, isreg, h1) ->
  streams h1 = streams h /\ (err = 0 \/ 0 < errno h1).
Proof.
  unfold stat. destruct (next_fault h) as [flt h0] eqn:Hn.
  apply next_fault_streams in Hn as (Hs & Hd & He).
  destruct flt as [e |]; [intros [= <- <- <-]; cbn; split; [done | right; lia] |].
  destruct (entries h0 !! name) as [[c |] |]; intros [= <- <- <-]; cbn;
    (split; [done |]); first [by left | by right].
Qed.

Lemma unlink_any h name err h1 :
  unlink h name = (err, h1) ->
  streams h1 = streams h /\ (err = 0 \/ 0 < errno h1).
Proof.
  unfold unlink. destruct (next_fault h) as [flt h0] eqn:Hn.
  apply next_fault_streams in Hn as (Hs & Hd & He).
  destruct flt as [e |]; [intros [= <- <-]; cbn; split; [done | right; lia] |].
  destruct (dir h0) as [d0 |]; [| intros [= <- <-]; cbn; by split; [| right]].
  destruct (d0 !! name) as [[c |] |]; intros [= <- <-]; cbn;
    (split; [done |]); first [by left | by right].
Qed.

Lemma erase_block_any emu h r h' :
  erase_block emu h = (r, h') ->
  (forall e, r = Some e -> e < 0) /\ streams h' = streams h.
Proof.
  unfold erase_block.
  destruct (stat h (child emu)) as [[err isreg] h1] eqn:Hstat.
  apply stat_any in Hstat as (Hs1 & He1).
  destruct (Z.eqb_spec err 0) as [-> | Herr]; cbn [negb andb].
  - destruct isreg.
    + destruct (unlink h1 (child emu)) as [err h2] eqn:Hun.
      apply unlink_any in Hun as (Hs2 & He2).
      destruct (Z.eqb_spec err 0) as [-> | Herr]; cbn [negb];
        intros [= <- <-]; (split; [intros e [= <-]; lia | congruence]).
    + by intros [= <- <-].
  - destruct (negb (errno h1 =? ENOENT)); intros [= <- <-];
      (split; [intros e [= <-]; lia | done]).
Qed.

(** ** The walks on any host *)

Section AnyHost.

Variable cfg : lfs_config.

Lemma read_loop_any fuel : forall emu h block off size data buffer r emu' h' buffer',
  read_loop cfg fuel emu h block off size data buffer
  = Returned (r, emu', h', buffer') ->
  stats emu' = stats emu /\ info emu' = info emu
  /\ (forall e, r = Some e -> e < 0)
  /\ (r = None -> streams h' = streams h)
  /\ leaks_at_most_one h h'.
Proof.
  induction fuel as [| fuel IH];
    intros emu h block off size data buffer r emu' h' buffer';
    cbn [read_loop]; destruct (0 <? size);
    try (intros [= <- <- <- <-]; repeat split; first [done | by left]).
  set (emu1 := set_child emu _).
  destruct (read_block emu1 h off _ data buffer)
    as [[[r1 h1] buffer1] | |] eqn:Hblk; [| done | done].
  apply read_block_any in Hblk as (Hneg & Hclosed & Hleak).
  cbn [mbind outcome_bind]. destruct r1 as [e |].
  - intros [= <- <- <- <-]. by repeat split.
  - intros Hrest. apply IH in Hrest as (Hst & Hin & Hneg' & Hclosed' & Hleak').
    specialize (Hclosed eq_refl). unfold leaks_at_most_one in *.
    rewrite Hclosed in *. by repeat split.
Qed.

Lemma prog_loop_any fuel : forall emu h block off size data buffer r emu' h',
  prog_loop cfg fuel emu h block off size data buffer
  = Returned (r, emu', h') ->
  stats emu' = stats emu /\ info emu' = info emu
  /\ (forall e, r = Some e -> e < 0)
  /\ (r = None -> streams h' = streams h)
  /\ leaks_at_most_one h h'.
Proof.
  induction fuel as [| fuel IH];
    intros emu h block off size data buffer r emu' h';
    cbn [prog_loop]; destruct (0 <? size);
    try (intros [= <- <- <-]; repeat split; first [done | by left]).
  set (emu1 := set_child emu _).
  destruct (prog_block emu1 h off _ data buffer)
    as [[r1 h1] | |] eqn:Hblk; [| done | done].
  apply prog_block_any in Hblk as (Hneg & Hclosed & Hleak).
  cbn [mbind outcome_bind]. destruct r1 as [e |].
  - intros [= <- <- <-]. by repeat split.
  - intros Hrest. apply IH in Hrest as (Hst & Hin & Hneg' & Hclosed' & Hleak').
    specialize (Hclosed eq_refl). unfold leaks_at_most_one in *.
    rewrite Hclosed in *. by repeat split.
Qed.

Lemma erase_loop_any fuel : forall emu h block off size r emu' h',
  erase_loop cfg fuel emu h block off size = Returned (r, emu', h') ->
  stats emu' = stats emu /\ info emu' = info emu
  /\ (forall e, r = Some e -> e < 0)
  /\ streams h' = streams h.
Proof.
  induction fuel as [| fuel IH]; intros emu h block off size r emu' h';
    cbn [erase_loop]; destruct (0 <? size);
    try (intros [= <- <- <-]; by repeat split).
  set (emu1 := set_child emu _).
  destruct (erase_block emu1 h) as [r1 h1] eqn:Hblk.
  apply erase_block_any in Hblk as (Hneg & Hs1).
  destruct r1 as [e |].
  - intros [= <- <- <-]. by repeat split.
  - intros Hrest. apply IH in Hrest as (Hst & Hin & Hneg' & Hs').
    repeat split; try done. congruence.
Qed.

End AnyHost.

(** ** The operations on any host *)

Lemma lfs_emubd_read_any cfg emu h block off size buffer r emu' h' out' :
  lfs_emubd_read cfg emu h block off size buffer
  = Returned (r, emu', h', out') ->
  info emu' = info emu /\ leaks_at_most_one h h'
  /\ ((r = 0 /\ stats emu' = bump_read (stats emu)
       /\ streams h' = streams h)
      \/ (r < 0 /\ stats emu' = stats emu)).
Proof.
  unfold lfs_emubd_read. destruct (read_size (info emu) =? 0); [done |].
  destruct (valid_access _ _ _ _ _); cbn [negb].
  2:{ intros [= <- <- <- <-]. split; [done |]. split; [by left |]. by right. }
  destruct (length buffer <? Z.to_nat size)%nat; [done |].
  destruct (read_loop _ _ _ _ _ _ _ _ _) as [[[[r1 emu1] h1] out1] | |] eqn:Hloop;
    [| done | done].
  apply read_loop_any in Hloop as (Hst & Hin & Hneg & Hclosed & Hleak).
  cbn [mbind outcome_bind]. destruct r1 as [e |]; intros [= <- <- <- <-].
  - split; [done |]. split; [done |]. right. split; [by apply Hneg | done].
  - split; [done |]. split; [done |]. left. cbn [stats set_stats].
    unfold bump_read. rewrite Hst.
    split; [done | split; [done | by apply Hclosed]].
Qed.

Lemma lfs_emubd_prog_any cfg emu h block off size buffer r emu' h' :
  lfs_emubd_prog cfg emu h block off size buffer = Returned (r, emu', h') ->
  info emu' = info emu /\ leaks_at_most_one h h'
  /\ ((r = 0 /\ stats emu' = bump_prog (stats emu)
       /\ streams h' = streams h)
      \/ (r < 0 /\ stats emu' = stats emu)).
Proof.
  unfold lfs_emubd_prog. destruct (prog_size (info emu) =? 0); [done |].
  destruct (valid_access _ _ _ _ _); cbn [negb].
  2:{ intros [= <- <- <-]. split; [done |]. split; [by left |]. by right. }
  destruct (prog_loop _ _ _ _ _ _ _ _ _) as [[[r1 emu1] h1] | |] eqn:Hloop;
    [| done | done].
  apply prog_loop_any in Hloop as (Hst & Hin & Hneg & Hclosed & Hleak).
  cbn [mbind outcome_bind]. destruct r1 as [e |]; intros [= <- <- <-].
  - split; [done |]. split; [done |]. right. split; [by apply Hneg | done].
  - split; [done |]. split; [done |]. left. cbn [stats set_stats].
    unfold bump_prog. rewrite Hst.
    split; [done | split; [done | by apply Hclosed]].
Qed.

Lemma lfs_emubd_erase_any cfg emu h block off size r emu' h' :
  lfs_emubd_erase cfg emu h block off size = Returned (r, emu', h') ->
  info emu' = info emu /\ streams h' = streams h
  /\ ((r = 0 /\ stats emu' = bump_erase (stats emu))
      \/ (r < 0 /\ stats emu' = stats emu)).
Proof.
  unfold lfs_emubd_erase. destruct (erase_size (info emu) =? 0); [done |].
  destruct (valid_access _ _ _ _ _); cbn [negb].
  2:{ intros [= <- <- <-]. split; [done |]. split; [done |]. by right. }
  destruct (erase_loop _ _ _ _ _ _ _) as [[[r1 emu1] h1] | |] eqn:Hloop;
    [| done | done].
  apply erase_loop_any in Hloop as (Hst & Hin & Hneg & Hs).
  cbn [mbind outcome_bind]. destruct r1 as [e |]; intros [= <- <- <-].
  - split; [done |]. split; [done |]. right. split; [by apply Hneg | done].
  - split; [done |]. split; [done |]. left. cbn [stats set_stats].
    unfold bump_erase. by rewrite Hst.
Qed.

Lemma wrap64_succ c : can_count c -> wrap64 (c + 1) = c + 1.
Proof. unfold can_count. intros H. apply wrap64_small. unfold uint64. lia. Qed.


(** ** Creation of a device *)

Lemma malloc_any h ok h1 :
  malloc h = (ok, h1) ->
  streams h1 = streams h /\ dir h1 = dir h /\ errno h1 = errno h.
Proof.
  unfold malloc. destruct (next_fault h) as [flt h0] eqn:Hn.
  apply next_fault_streams in Hn. by destruct flt; intros [= <- <-].
Qed.

(** [mkdir] either fails, with a positive [errno] and the directory as it
    was, or creates the directory, empty. *)
Lemma mkdir_any h err h1 :
  mkdir h = (err, h1) ->
  streams h1 = streams h
  /\ ((err <> 0 /\ 0 < errno h1 /\ dir h1 = dir h)
      \/ (err = 0 /\ dir h1 = Some ∅)).
Proof.
  unfold mkdir. destruct (next_fault h) as [flt h0] eqn:Hn.
  apply next_fault_streams in Hn as (Hs & Hd & He).
  destruct flt as [e |].
  - intros [= <- <-]. cbn. split; [done |]. left. repeat split; done.
  - destruct (dir h0) eqn:Hd0; intros [= <- <-]; cbn.
    + split; [done |]. left. repeat split; first [done | congruence].
    + split; [done |]. by right.
Qed.

Lemma fopen_r_any h name f h1 :
  fopen h name Mode_r = (f, h1) ->
  match f with
  | None => 0 < errno h1
  | Some fd =>
      dir h1 = dir h /\ errno h1 = errno h /\ is_Some (entries h !! name)
      /\ streams h1 !! fd
         = Some {| s_name := name; s_pos := 0; s_eof := false |}
  end.
Proof.
  unfold fopen, entries. destruct (next_fault h) as [flt h0] eqn:Hn.
  apply next_fault_streams in Hn as (Hs & Hd & He).
  destruct flt as [e |]; [intros [= <- <-]; cbn; lia |].
  rewrite <- Hd.
  destruct (dir h0) as [d0 |] eqn:Hd0; [| by intros [= <- <-]].
  unfold open_stream.
  destruct (d0 !! name) as [[c |] |] eqn:Hl; intros [= <- <-]; cbn;
    rewrite ?lookup_insert_eq, ?Hd0; by eauto.
Qed.

(** [fread] keeps a positive [errno] positive and transfers no more bytes
    than the regular file has. *)
Lemma fread_bound h fd s count :
  streams h !! fd = Some s ->
  exists got h1 s1,
    fread h (Some fd) count = Returned (got, h1)
    /\ streams h1 !! fd = Some s1
    /\ (0 < errno h -> 0 < errno h1)
    /\ match file_content h (s_name s) with
       | Some c => (length got <= length c)%nat
       | None => got = []
       end.
Proof.
  intros Hs. unfold fread, get_stream, file_content.
  rewrite Hs. cbn [mbind outcome_bind].
  destruct (next_fault h) as [flt h0] eqn:Hn.
  apply next_fault_streams in Hn as (Hs0 & Hd & He).
  assert (Hent : entries h0 = entries h) by (unfold entries; by rewrite Hd).
  rewrite <- Hent.
  destruct flt as [e |].
  - exists [], (set_errno h0 (Z.pos e)), s. cbn. rewrite Hs0.
    repeat split; try done; try lia.
    destruct (entries h0 !! s_name s) as [[c |] |]; cbn; first [lia | done].
  - destruct (entries h0 !! s_name s) as [[c |] |];
      eexists _, _, _; (split; [done |]); cbn;
      rewrite ?lookup_insert_eq, ?Hs0; repeat split; try done; try lia.
    rewrite length_take, length_drop. lia.
Qed.

Lemma snprintf_stats n old : (5 < n)%nat -> snprintf n "stats" old = "stats".
Proof.
  intros Hn. destruct n as [| k]; [lia |]. cbn [snprintf].
  apply substring_all. cbn. lia.
Qed.

Lemma create_fails_without_stats cfg emu h base :
  (5 < LFS_NAME_MAX cfg)%nat ->
  (forall c, file_content h "stats" = Some c ->
             (length c < sizeof_stats)%nat) ->
  exists r emu' h',
    lfs_emubd_create cfg emu h base = Returned (r, emu', h') /\ r < 0.
Proof.
  intros Hname Hshort. unfold lfs_emubd_create.
  destruct (malloc h) as [ok h0] eqn:Hm.
  apply malloc_any in Hm as (Hs0 & Hd0 & He0).
  destruct ok; cbn [negb]; [| by eexists _, _, _].
  destruct (mkdir h0) as [err h1] eqn:Hmk.
  apply mkdir_any in Hmk as (Hs1 & Hmk).
  destruct (negb (err =? 0) && negb (errno h1 =? EEXIST)) eqn:Hchk.
  { apply andb_true_iff in Hchk as [Herr _]. apply negb_true_iff in Herr.
    destruct Hmk as [(_ & Hpos & _) | (-> & _)]; [| done].
    eexists _, _, _. split; [done | lia]. }
  rewrite snprintf_stats by done. cbn [child set_child].
  destruct (fopen h1 "stats" Mode_r) as [f h2] eqn:Hopen.
  apply fopen_r_any in Hopen. destruct f as [fd |]; cbn [is_null].
  2:{ eexists _, _, _. split; [done | lia]. }
  destruct Hopen as (Hd2 & He2 & Hsome & Hst2).
  destruct Hmk as [(Herr & Hpos & Hd1) | (-> & Hd1)].
  2:{ unfold entries in Hsome. rewrite Hd1, lookup_empty in Hsome.
      by destruct Hsome. }
  destruct (fread_bound h2 fd _ (Z.of_nat sizeof_stats) Hst2)
    as (got & h3 & s3 & -> & Hst3 & Hpos3 & Hgot).
  cbn [mbind outcome_bind s_name] in *.
  assert (Hfc : file_content h2 "stats" = file_content h "stats").
  { unfold file_content, entries. by rewrite Hd2, Hd1, Hd0. }
  rewrite Hfc in Hgot.
  assert (Hlen : (length got < sizeof_stats)%nat).
  { destruct (file_content h "stats") as [c |] eqn:Hc.
    - specialize (Hshort c eq_refl). lia.
    - subst got. unfold sizeof_stats. cbn. lia. }
  rewrite Z.div_small by lia. cbn [Z.ltb Z.compare].
  eexists _, _, _. split; [done |].
  assert (0 < errno h3) by (apply Hpos3; lia). lia.
Qed.

Lemma create_loads_stats cfg emu h d c base :
  (5 < LFS_NAME_MAX cfg)%nat ->
  faults h = [] -> dir h = Some d -> d !! "stats" = Some (RegFile c) ->
  (sizeof_stats <= length c)%nat ->
  lfs_emubd_create cfg emu h base
  = Returned (0,
              {| path := base; child := "stats";
                 stats := stats_of_bytes (take sizeof_stats c);
                 info := config_info cfg |},
              set_errno h EEXIST).
Proof.
  intros Hname Hq Hd Hl Hlen. unfold lfs_emubd_create, malloc, mkdir.
  rewrite (next_fault_quiet h Hq). cbn [negb].
  rewrite (next_fault_quiet h Hq), Hd.
  cbn [negb Z.eqb andb errno set_errno EEXIST Pos.eqb].
  rewrite snprintf_stats by done. cbn [child set_child].
  rewrite (fopen_quiet (set_errno h EEXIST) Hq "stats" Mode_r d Hd), Hl.
  unfold open_stream.
  cbn [is_null]. set (f := fresh (dom _)).
  erewrite fread_quiet; [| done | apply lookup_insert_eq].
  rewrite (entries_dir _ d) by done. cbn [s_name s_pos]. rewrite Hl.
  cbn zeta. cbn [mbind outcome_bind].
  assert (Hgot : length (take (Z.to_nat (Z.of_nat sizeof_stats))
                           (drop (Z.to_nat 0) c)) = sizeof_stats).
  { rewrite length_take, length_drop. lia. }
  rewrite Hgot, Z.div_same by done. cbn [Z.ltb Z.compare Pos.compare Pos.compare_cont].
  erewrite fclose_quiet; [| done | apply lookup_insert_eq].
  cbn [mbind outcome_bind Z.eqb negb]. host_simpl.
  rewrite Nat.sub_diag, app_nil_r, Nat2Z.id.
  rewrite delete_insert_eq, delete_insert_eq, delete_id by apply fresh_stream.
  unfold set_stats, config_info. cbn. by rewrite drop_0.
Qed.

(** ** The erase walk, without faults *)

Lemma erase_block_quiet emu h d :
  faults h = [] -> dir h = Some d ->
  erase_block emu h =
  match d !! child emu with
  | Some (RegFile _) => (None, set_dir h (Some (delete (child emu) d)))
  | Some Directory => (None, h)
  | None => (None, set_errno h ENOENT)
  end.
Proof.
  intros Hq Hd. unfold erase_block.
  rewrite (stat_quiet h Hq), (entries_dir h d Hd).
  destruct (d !! child emu) as [[c |] |] eqn:Hl; cbn; [| done | done].
  by rewrite (unlink_quiet h Hq _ d c Hd Hl).
Qed.

Section EraseWalk.

Variable cfg : lfs_config.
Hypothesis Hname : (8 < LFS_NAME_MAX cfg)%nat.

Lemma erase_loop_done fuel emu h block off size :
  size <= 0 ->
  erase_loop cfg fuel emu h block off size = Returned (None, emu, h).
Proof.
  intros Hs. destruct fuel; cbn [erase_loop];
    by destruct (Z.ltb_spec 0 size); [lia |].
Qed.

Lemma erase_loop_step fuel emu h block off size :
  0 < size ->
  erase_loop cfg (S fuel) emu h block off size
  = let emu1 := set_child emu (sprintf_x block) in
    let '(r, h1) := erase_block emu1 h in
    match r with
    | Some e => Returned (Some e, emu1, h1)
    | None =>
        erase_loop cfg fuel emu1 h1 (wrap32 (block + 1)) 0
          (wrap32 (size - erase_size (info emu)))
    end.
Proof using Hname.
  intros Hs. cbn [erase_loop]. destruct (Z.ltb_spec 0 size); [| lia].
  by rewrite snprintf_block.
Qed.

(** The erase walk removes the artifacts of the [n] blocks that start at
    index [block], whatever the offset is, and touches nothing else. *)
Lemma erase_loop_quiet fuel : forall emu h block off n d,
  0 < erase_size (info emu) < 2 ^ 32 ->
  uint32 block -> 0 <= n -> uint32 (n * erase_size (info emu)) ->
  faults h = [] -> dir h = Some d -> (Z.to_nat n <= fuel)%nat ->
  exists emu' h' d',
    erase_loop cfg fuel emu h block off (n * erase_size (info emu))
    = Returned (None, emu', h')
    /\ stats emu' = stats emu /\ info emu' = info emu
    /\ dir h' = Some d' /\ streams h' = streams h /\ faults h' = []
    /\ (forall j, 0 <= j < n ->
          forall c, d' !! sprintf_x (wrap32 (block + j)) <> Some (RegFile c))
    /\ (forall name,
          (forall j, 0 <= j < n -> name <> sprintf_x (wrap32 (block + j))) ->
          d' !! name = d !! name).
Proof using Hname.
  induction fuel as [| fuel IH]; intros emu h block off n d He Hb Hn Hs Hq Hd
    Hfuel.
  - assert (n = 0) as -> by lia. rewrite erase_loop_done by lia.
    exists emu, h, d. repeat split; try done. intros j Hj. lia.
  - destruct (Z.eq_dec n 0) as [-> | Hn0].
    { rewrite erase_loop_done by lia.
      exists emu, h, d. repeat split; try done. intros j Hj. lia. }
    set (es := erase_size (info emu)) in *.
    rewrite erase_loop_step by nia. cbn zeta. fold es.
    set (emu1 := set_child emu (sprintf_x block)).
    rewrite (erase_block_quiet emu1 h d Hq Hd).
    change (child emu1) with (sprintf_x block).
    assert (Hsz : wrap32 (n * es - es) = (n - 1) * es).
    { rewrite wrap32_small; [lia |]. unfold uint32 in *. nia. }
    rewrite Hsz.
    assert (Hnn : n < 2 ^ 32) by (unfold uint32 in *; nia).
    (* the state after this block, in each of the three cases *)
    assert (Hstep : exists h1 d1,
      match d !! sprintf_x block with
      | Some (RegFile _) =>
          (None, set_dir h (Some (delete (sprintf_x block) d)))
      | Some Directory => (None, h)
      | None => (None, set_errno h ENOENT)
      end = (@None Z, h1)
      /\ faults h1 = [] /\ dir h1 = Some d1 /\ streams h1 = streams h
      /\ (forall c, d1 !! sprintf_x block <> Some (RegFile c))
      /\ (forall name, name <> sprintf_x block -> d1 !! name = d !! name)).
    { destruct (d !! sprintf_x block) as [[c |] |] eqn:Hl.
      - eexists _, _. split; [done |]. cbn. repeat split; try done.
        + intros c'. by rewrite lookup_delete_eq.
        + intros name Hne. by rewrite lookup_delete_ne.
      - exists h, d. repeat split; try done. intros c. by rewrite Hl.
      - exists (set_errno h ENOENT), d. repeat split; try done.
        intros c. by rewrite Hl. }
    destruct Hstep as (h1 & d1 & -> & Hq1 & Hd1 & Hs1 & Hgone & Hfr1).
    destruct (IH emu1 h1 (wrap32 (block + 1)) 0 (n - 1) d1)
      as (emu' & h' & d' & Hloop & Hst & Hin & Hd' & Hs' & Hq' & Hdel & Hfr);
      try done; try lia.
    { apply wrap32_range. }
    { change (erase_size (info emu1)) with es. unfold uint32 in *. nia. }
    change (erase_size (info emu1)) with es in Hloop. rewrite Hloop.
    exists emu', h', d'. repeat split; try done; try congruence.
    + intros j Hj c. destruct (Z.eq_dec j 0) as [-> | Hj0].
      * rewrite Z.add_0_r, wrap32_small by done. rewrite Hfr; [apply Hgone |].
        intros j' Hj' Heq. apply sprintf_x_inj in Heq;
          [| done | apply wrap32_range].
        rewrite wrap32_add_l, <- Z.add_assoc in Heq.
        symmetry in Heq. revert Heq. apply wrap32_succ_ne; [done | lia].
      * replace (block + j) with (block + 1 + (j - 1)) by lia.
        rewrite <- wrap32_add_l. apply Hdel. lia.
    + intros name Hout. rewrite Hfr.
      * apply Hfr1. specialize (Hout 0 ltac:(lia)).
        by rewrite Z.add_0_r, wrap32_small in Hout.
      * intros j Hj. rewrite wrap32_add_l, <- Z.add_assoc. apply Hout. lia.
Qed.

End EraseWalk.

(** An erase on a host without faults succeeds and removes the artifacts
    of the [size / erase_size] blocks from index [block] on; the offset
    plays no part in the choice of the blocks. *)
Lemma lfs_emubd_erase_quiet cfg emu h d block off size :
  (8 < LFS_NAME_MAX cfg)%nat -> geometry_ok (info emu) ->
  uint32 block -> uint32 off -> uint32 size ->
  valid_access (erase_size (info emu)) (info emu) block off size = true ->
  faults h = [] -> dir h = Some d ->
  exists emu' h' d',
    lfs_emubd_erase cfg emu h block off size = Returned (0, emu', h')
    /\ dir h' = Some d'
    /\ (forall j, 0 <= j < size / erase_size (info emu) ->
          file_content h' (sprintf_x (wrap32 (block + j))) = None)
    /\ (forall name,
          (forall j, 0 <= j < size / erase_size (info emu) ->
                     name <> sprintf_x (wrap32 (block + j))) ->
          d' !! name = d !! name).
Proof.
  intros Hname (Hrs & Hps & Hes & Hts) Hb Ho Hs Hv Hq Hd.
  unfold lfs_emubd_erase.
  destruct (Z.eqb_spec (erase_size (info emu)) 0); [lia |].
  rewrite Hv. cbn [negb].
  apply valid_access_true in Hv as (_ & Hsize & _);
    [| done | done | unfold uint32; lia | done | done].
  set (es := erase_size (info emu)) in *.
  assert (Hn : size = size / es * es).
  { rewrite (Z.div_mod size es) at 1 by lia. lia. }
  assert (0 <= size / es) by (apply Z.div_pos; unfold uint32 in *; lia).
  destruct (erase_loop_quiet cfg Hname (S (Z.to_nat size)) emu h block off
              (size / es) d)
    as (emu' & h' & d' & Hloop & Hst & Hin & Hd' & Hs' & Hq' & Hdel & Hfr);
    try done.
  { fold es. by rewrite <- Hn. }
  { assert (size / es <= size); [| lia].
    apply Z.div_le_upper_bound; unfold uint32 in *; nia. }
  fold es in Hloop. rewrite <- Hn in Hloop. rewrite Hloop.
  cbn [mbind outcome_bind]. eexists _, h', d'. split; [done |].
  split; [done |]. split; [| done].
  intros j Hj. rewrite (file_content_dir h' d') by done.
  specialize (Hdel j Hj).
  destruct (d' !! sprintf_x (wrap32 (block + j))) as [[c |] |]; [| done | done].
  by destruct (Hdel c).
Qed.

(** ** A failed open for update *)

(** When the open for update fails and [errno] is not [ENOENT], the
    program goes on with the null stream. *)
Lemma prog_block_null_stream emu h off count data buffer h1 :
  fopen h (child emu) Mode_rplus = (None, h1) -> errno h1 <> ENOENT ->
  prog_block emu h off count data buffer = Undefined.
Proof.
  intros Hopen Herrno. unfold prog_block. rewrite Hopen. cbn [is_null andb].
  by destruct (Z.eqb_spec (errno h1) ENOENT).
Qed.

Lemma lfs_emubd_prog_null_stream cfg emu h block off size buffer h1 :
  prog_size (info emu) <> 0 ->
  valid_access (prog_size (info emu)) (info emu) block off size = true ->
  0 < size ->
  fopen h (snprintf (LFS_NAME_MAX cfg) (sprintf_x block) (child emu))
    Mode_rplus = (None, h1) ->
  errno h1 <> ENOENT ->
  lfs_emubd_prog cfg emu h block off size buffer = Undefined.
Proof.
  intros Hps Hv Hs Hopen Herrno. unfold lfs_emubd_prog.
  destruct (Z.eqb_spec (prog_size (info emu)) 0); [done |].
  rewrite Hv. cbn [negb prog_loop].
  destruct (Z.ltb_spec 0 size); [| lia].
  by erewrite prog_block_null_stream.
Qed.

(** ** The operations return *)

(** One block of a read always returns. *)
Lemma read_block_returns emu h off count data buffer :
  exists r h' buffer',
    read_block emu h off count data buffer = Returned (r, h', buffer').
Proof.
  unfold read_block.
  destruct (fopen h (child emu) Mode_r) as [f h1] eqn:Hopen.
  apply fopen_any in Hopen. destruct f as [fd |]; cbn [is_null andb].
  2:{ destruct (negb (errno h1 =? ENOENT)); by eexists _, _, _. }
  destruct Hopen as (Hfree & s0 & Hs1).
  destruct (fseek_any h1 fd s0 off) as (err & h2 & s2 & -> & Hs2 & _).
  { rewrite Hs1. apply lookup_insert_eq. }
  cbn [mbind outcome_bind].
  destruct (negb (err =? 0)); [by eexists _, _, _ |].
  destruct (fread_any h2 fd s2 count) as (got & h3 & s3 & -> & Hs3 & _).
  { rewrite Hs2. apply lookup_insert_eq. }
  cbn [mbind outcome_bind].
  rewrite (feof_open h3 fd s3) by (rewrite Hs3; apply lookup_insert_eq).
  cbn [mbind outcome_bind].
  destruct (_ && _); [by eexists _, _, _ |].
  destruct (fclose_any h3 fd s3) as (err' & h4 & -> & _).
  { rewrite Hs3. apply lookup_insert_eq. }
  cbn [mbind outcome_bind].
  destruct (negb (err' =? 0)); by eexists _, _, _.
Qed.

(** One block of a program returns or is undefined; it never exhausts the
    bound of the model. *)
Lemma prog_block_in_fuel emu h off count data buffer :
  prog_block emu h off count data buffer <> OutOfFuel.
Proof.
  unfold prog_block.
  assert (Htail : forall f h1,
    ('(err, h2) ← fseek h1 f off;
     if negb (err =? 0) then Returned (Some (- errno h2), h2) else
     if (length buffer <? data + Z.to_nat count)%nat then Undefined else
     '(res, h3) ← fwrite h2 f (take (Z.to_nat count) (drop data buffer));
     if res <? count then Returned (Some (- errno h3), h3) else
     '(err, h4) ← fclose h3 f;
     if negb (err =? 0) then Returned (Some (- errno h4), h4) else
     Returned (None, h4)) <> OutOfFuel).
  { intros f h1. unfold fseek, fwrite, fclose, get_stream.
    destruct f as [fd |]; [| done].
    destruct (streams h1 !! fd); [| done]. cbn [mbind outcome_bind].
    destruct (next_fault h1) as [[e |] h1']; cbn [mbind outcome_bind negb Z.eqb];
      [done |].
    destruct (_ <? _)%nat; [done |].
    destruct (streams _ !! fd); [| done]. cbn [mbind outcome_bind].
    destruct (next_fault _) as [[e |] h2'].
    - cbn [mbind outcome_bind]. destruct (0 <? count); [done |].
      destruct (streams _ !! fd); [| done]. cbn [mbind outcome_bind].
      by destruct (next_fault _) as [[e' |] h3'].
    - destruct (dir h2'); cbn [mbind outcome_bind].
      + destruct (_ <? count); [done |].
        destruct (streams _ !! fd); [| done]. cbn [mbind outcome_bind].
        by destruct (next_fault _) as [[e' |] h3'].
      + destruct (0 <? count); [done |].
        destruct (streams _ !! fd); [| done]. cbn [mbind outcome_bind].
        by destruct (next_fault _) as [[e' |] h3']. }
  destruct (fopen h (child emu) Mode_rplus) as [f h1].
  destruct (is_null f && (errno h1 =? ENOENT)); [| apply Htail].
  destruct (fopen h1 (child emu) Mode_wplus) as [f2 h2].
  destruct (is_null f2); [done | apply Htail].
Qed.

Section Returns.

Variable cfg : lfs_config.

(** With a positive erase size the walk of a read ends within the bound
    the model gives it, on every host. *)
Lemma read_loop_returns fuel : forall emu h block off size data buffer,
  0 < erase_size (info emu) < 2 ^ 32 -> uint32 off -> uint32 size ->
  (Z.to_nat size + (if (off =? erase_size (info emu))%Z then 1 else 0)
   <= fuel)%nat ->
  exists r emu' h' buffer',
    read_loop cfg fuel emu h block off size data buffer
    = Returned (r, emu', h', buffer').
Proof.
  induction fuel as [| fuel IH]; intros emu h block off size data buffer
    He Ho Hs Hfuel; cbn [read_loop]; destruct (Z.ltb_spec 0 size);
    try (by eexists _, _, _, _); [exfalso; lia |].
  set (emu1 := set_child emu _).
  set (count := lfs_min _ size).
  destruct (read_block_returns emu1 h off count data buffer)
    as (r1 & h1 & buffer1 & ->).
  cbn [mbind outcome_bind]. destruct r1 as [e |]; [by eexists _, _, _, _ |].
  destruct (count_bounds (erase_size (info emu1)) off size He Ho ltac:(lia))
    as (Hc & Hc1 & _). fold count in Hc, Hc1.
  rewrite (wrap32_small (size - count)) by (unfold uint32 in *; lia).
  apply IH; try done.
  - unfold uint32 in *. lia.
  - change (erase_size (info emu1)) with (erase_size (info emu)).
    destruct (Z.eqb_spec 0 (erase_size (info emu))); [lia |].
    destruct (Z.eqb_spec off (erase_size (info emu))); [lia |].
    specialize (Hc1 ltac:(done)). lia.
Qed.

Lemma prog_loop_in_fuel fuel : forall emu h block off size data buffer,
  0 < erase_size (info emu) < 2 ^ 32 -> uint32 off -> uint32 size ->
  (Z.to_nat size + (if (off =? erase_size (info emu))%Z then 1 else 0)
   <= fuel)%nat ->
  prog_loop cfg fuel emu h block off size data buffer <> OutOfFuel.
Proof.
  induction fuel as [| fuel IH]; intros emu h block off size data buffer
    He Ho Hs Hfuel; cbn [prog_loop]; destruct (Z.ltb_spec 0 size);
    try done; [exfalso; lia |].
  set (emu1 := set_child emu _).
  set (count := lfs_min _ size).
  pose proof (prog_block_in_fuel emu1 h off count data buffer) as Hblk.
  destruct (prog_block emu1 h off count data buffer) as [[r1 h1] | |];
    [| done | done].
  cbn [mbind outcome_bind]. destruct r1 as [e |]; [done |].
  destruct (count_bounds (erase_size (info emu1)) off size He Ho ltac:(lia))
    as (Hc & Hc1 & _). fold count in Hc, Hc1.
  rewrite (wrap32_small (size - count)) by (unfold uint32 in *; lia).
  apply IH; try done.
  - unfold uint32 in *. lia.
  - change (erase_size (info emu1)) with (erase_size (info emu)).
    destruct (Z.eqb_spec 0 (erase_size (info emu))); [lia |].
    destruct (Z.eqb_spec off (erase_size (info emu))); [lia |].
    specialize (Hc1 ltac:(done)). lia.
Qed.

Lemma erase_loop_returns fuel : forall emu h block off n,
  0 < erase_size (info emu) < 2 ^ 32 ->
  0 <= n -> uint32 (n * erase_size (info emu)) -> (Z.to_nat n <= fuel)%nat ->
  exists r emu' h',
    erase_loop cfg fuel emu h block off (n * erase_size (info emu))
    = Returned (r, emu', h').
Proof.
  induction fuel as [| fuel IH]; intros emu h block off n He Hn Hs Hfuel;
    cbn [erase_loop]; destruct (Z.ltb_spec 0 (n * erase_size (info emu)));
    try (by eexists _, _, _); [exfalso; nia |].
  set (emu1 := set_child emu _).
  destruct (erase_block emu1 h) as [[e |] h1]; [by eexists _, _, _ |].
  set (es := erase_size (info emu)) in *.
  change (erase_size (info emu1)) with es.
  assert (Hsz : wrap32 (n * es - es) = (n - 1) * es).
  { rewrite wrap32_small; [lia |]. unfold uint32 in *. nia. }
  rewrite Hsz. apply (IH emu1); try done.
  - nia.
  - change (erase_size (info emu1)) with es. unfold uint32 in *. nia.
  - nia.
Qed.

(** A read and an erase return on every host; a program returns unless its
    behaviour is undefined. *)
Lemma lfs_emubd_read_returns emu h block off size buffer :
  geometry_ok (info emu) -> uint32 off -> uint32 size ->
  (Z.to_nat size <= length buffer)%nat ->
  exists r emu' h' out',
    lfs_emubd_read cfg emu h block off size buffer
    = Returned (r, emu', h', out').
Proof.
  intros (Hrs & Hps & Hes & Hts) Ho Hs Hlen. unfold lfs_emubd_read.
  destruct (Z.eqb_spec (read_size (info emu)) 0); [lia |].
  destruct (valid_access _ _ _ _ _); cbn [negb]; [| by eexists _, _, _, _].
  destruct (Nat.ltb_spec (length buffer) (Z.to_nat size)); [lia |].
  destruct (read_loop_returns (S (Z.to_nat size)) emu h block off size 0%nat
              (memset0 (Z.to_nat size) buffer))
    as (r & emu' & h' & out' & ->); try done.
  { destruct (off =? erase_size (info emu)); lia. }
  cbn [mbind outcome_bind]. destruct r; by eexists _, _, _, _.
Qed.

Lemma lfs_emubd_prog_in_fuel emu h block off size buffer :
  geometry_ok (info emu) -> uint32 off -> uint32 size ->
  lfs_emubd_prog cfg emu h block off size buffer <> OutOfFuel.
Proof.
  intros (Hrs & Hps & Hes & Hts) Ho Hs. unfold lfs_emubd_prog.
  destruct (Z.eqb_spec (prog_size (info emu)) 0); [lia |].
  destruct (valid_access _ _ _ _ _); cbn [negb]; [| done].
  pose proof (prog_loop_in_fuel (S (Z.to_nat size)) emu h block off size
                0%nat buffer Hes Ho Hs) as Hloop.
  destruct (prog_loop _ _ _ _ _ _ _ _ _) as [[[r emu'] h'] | |]; [| done |].
  - cbn [mbind outcome_bind]. by destruct r.
  - destruct Hloop; [| done]. destruct (off =? erase_size (info emu)); lia.
Qed.

Lemma lfs_emubd_erase_returns emu h block off size :
  geometry_ok (info emu) -> uint32 block -> uint32 off -> uint32 size ->
  exists r emu' h',
    lfs_emubd_erase cfg emu h block off size = Returned (r, emu', h').
Proof.
  intros (Hrs & Hps & Hes & Hts) Hb Ho Hs. unfold lfs_emubd_erase.
  destruct (Z.eqb_spec (erase_size (info emu)) 0); [lia |].
  destruct (valid_access _ _ _ _ _) eqn:Hv; cbn [negb]; [| by eexists _, _, _].
  apply valid_access_true in Hv as (_ & Hsize & _);
    [| done | done | unfold uint32; lia | done | done].
  set (es := erase_size (info emu)) in *.
  assert (Hn : size = size / es * es).
  { rewrite (Z.div_mod size es) at 1 by lia. lia. }
  assert (0 <= size / es) by (apply Z.div_pos; unfold uint32 in *; lia).
  destruct (erase_loop_returns (S (Z.to_nat size)) emu h block off (size / es))
    as (r & emu' & h' & Hloop); try done.
  { fold es. by rewrite <- Hn. }
  { assert (size / es <= size); [| lia].
    apply Z.div_le_upper_bound; unfold uint32 in *; nia. }
  fold es in Hloop. rewrite <- Hn in Hloop. rewrite Hloop.
  cbn [mbind outcome_bind]. destruct r; by eexists _, _, _.
Qed.

End Returns.

(** * The claims of the specification *)

(** C1.  On a host without faults whose directory holds regular files only,
    for every block, offset and size that pass the validity test of both
    program and read, programming [data] and then reading the same region
    succeeds twice and the read returns exactly [data]; the region may span
    any number of erase blocks. *)
Theorem read_after_prog cfg emu h d block off size data out :
  (8 < LFS_NAME_MAX cfg)%nat -> geometry_ok (info emu) ->
  uint32 block -> uint32 off -> uint32 size ->
  valid_access (prog_size (info emu)) (info emu) block off size = true ->
  valid_access (read_size (info emu)) (info emu) block off size = true ->
  faults h = [] -> dir h = Some d -> regular d ->
  length data = Z.to_nat size -> length out = Z.to_nat size ->
  exists emu1 h1,
    lfs_emubd_prog cfg emu h block off size data = Returned (0, emu1, h1)
    /\ exists emu2 h2,
         lfs_emubd_read cfg emu1 h1 block off size out
         = Returned (0, emu2, h2, data).
Proof.
  intros Hname Hgeo Hb Ho Hs Hvp Hvr Hq Hd Hreg Hdata Hout.
  pose proof Hgeo as (Hrs & Hps & Hes & Hts).
  unfold lfs_emubd_prog.
  destruct (Z.eqb_spec (prog_size (info emu)) 0); [lia |].
  rewrite Hvp. cbn [negb].
  destruct (prog_loop_quiet cfg Hname (S (Z.to_nat size)) emu h block off size
              0%nat data d)
    as (emu1 & h1 & d1 & -> & Hst & Hin & Hd1 & Hreg1 & Hs1 & Hq1 & _ & Hby);
    try done.
  { destruct (off =? erase_size (info emu)); lia. }
  { lia. }
  cbn [mbind outcome_bind]. eexists _, h1. split; [reflexivity |].
  set (emu1' := set_stats emu1 _).
  destruct (lfs_emubd_read_quiet cfg emu1' h1 d1 block off size out)
    as (emu2 & h2 & out' & Hread & _ & Hlen & Hbytes); try done.
  { unfold emu1'. cbn [info set_stats]. by rewrite Hin. }
  { unfold emu1'. cbn [info set_stats]. by rewrite Hin. }
  { lia. }
  exists emu2, h2. rewrite Hread. do 3 f_equal.
  apply list_eq. intros i.
  destruct (decide (i < Z.to_nat size)%nat) as [Hi | Hi].
  - specialize (Hbytes (Z.of_nat i) ltac:(lia)). cbn zeta in Hbytes.
    rewrite Nat2Z.id in Hbytes. rewrite Hbytes.
    unfold emu1'. cbn [info set_stats]. rewrite Hin.
    rewrite <- (file_content_entry h1 d1) by done.
    apply (Hby i Hi).
  - rewrite !(proj2 (lookup_ge_None _ _)); [done | lia | lia].
Qed.

(** A program of 32 bytes at offset 496 of block 0, which ends in block 1,
    read back on the device of the scenario. *)
Lemma read_after_prog_witness :
  exists emu1 h1,
    lfs_emubd_prog scenario_cfg scenario_emu (host_of ∅ []) 0 496 32
      (aa16 ++ bb16)
    = Returned (0, emu1, h1)
    /\ exists emu2 h2,
         lfs_emubd_read scenario_cfg emu1 h1 0 496 32 (replicate 32 zero)
         = Returned (0, emu2, h2, aa16 ++ bb16).
Proof.
  apply (read_after_prog scenario_cfg scenario_emu (host_of ∅ []) ∅ 0 496 32
           (aa16 ++ bb16) (replicate 32 zero)).
  - cbn. lia.
  - unfold geometry_ok. by_evaluation.
  - unfold uint32. lia.
  - unfold uint32. lia.
  - unfold uint32. lia.
  - reflexivity.
  - reflexivity.
  - reflexivity.
  - reflexivity.
  - apply regular_empty.
  - reflexivity.
  - reflexivity.
Defined.

(** C2.  With a positive geometry, a read, program or erase whose offset or
    size is not a multiple of the granularity of the operation, or whose
    end address [block * erase_size + off + size] reaches or exceeds
    [total_size] (an end equal to [total_size] included), returns [-EINVAL]
    and leaves the handle, with its three counters, and the whole host,
    with its artifacts, streams and pending faults, exactly as they were. *)
Theorem invalid_access_rejected cfg emu h block off size buffer :
  geometry_ok (info emu) -> uint32 block -> uint32 off -> uint32 size ->
  let i := info emu in
  let reaches_end := total_size i <= block * erase_size i + off + size in
  (off mod read_size i <> 0 \/ size mod read_size i <> 0 \/ reaches_end ->
   lfs_emubd_read cfg emu h block off size buffer
   = Returned (- EINVAL, emu, h, buffer))
  /\ (off mod prog_size i <> 0 \/ size mod prog_size i <> 0 \/ reaches_end ->
      lfs_emubd_prog cfg emu h block off size buffer
      = Returned (- EINVAL, emu, h))
  /\ (off mod erase_size i <> 0 \/ size mod erase_size i <> 0 \/ reaches_end ->
      lfs_emubd_erase cfg emu h block off size
      = Returned (- EINVAL, emu, h)).
Proof.
  intros (Hrs & Hps & Hes & Hts) Hb Ho Hs i reaches_end.
  assert (Hinvalid : forall gran,
    gran <> 0 ->
    off mod gran <> 0 \/ size mod gran <> 0 \/ reaches_end ->
    valid_access gran i block off size = false).
  { intros gran Hg Hbad. apply not_true_is_false. intros Hv.
    apply valid_access_true in Hv; [| done | done | | done | done].
    - unfold reaches_end in Hbad. lia.
    - unfold uint32. subst i. lia. }
  subst i. split; [| split]; intros Hbad.
  - unfold lfs_emubd_read.
    destruct (Z.eqb_spec (read_size (info emu)) 0); [lia |].
    by rewrite Hinvalid.
  - unfold lfs_emubd_prog.
    destruct (Z.eqb_spec (prog_size (info emu)) 0); [lia |].
    by rewrite Hinvalid.
  - unfold lfs_emubd_erase.
    destruct (Z.eqb_spec (erase_size (info emu)) 0); [lia |].
    by rewrite Hinvalid.
Qed.

(** The read at offset 1 of the scenario, and a program of the last 16
    bytes of the device, whose end is [total_size] itself. *)
Lemma invalid_access_rejected_witness :
  lfs_emubd_read scenario_cfg scenario_emu (host_of block0 []) 0 1 16 bb16
  = Returned (- EINVAL, scenario_emu, host_of block0 [], bb16)
  /\ lfs_emubd_prog scenario_cfg scenario_emu (host_of block0 []) 3 496 16 bb16
     = Returned (- EINVAL, scenario_emu, host_of block0 []).
Proof.
  assert (Hgeo : geometry_ok (info scenario_emu))
    by (unfold geometry_ok; by_evaluation).
  split.
  - apply (invalid_access_rejected scenario_cfg scenario_emu
             (host_of block0 []) 0 1 16 bb16 Hgeo);
      [unfold uint32; lia | unfold uint32; lia | unfold uint32; lia |].
    left. vm_compute. discriminate.
  - apply (invalid_access_rejected scenario_cfg scenario_emu
             (host_of block0 []) 3 496 16 bb16 Hgeo);
      [unfold uint32; lia | unfold uint32; lia | unfold uint32; lia |].
    right. right. vm_compute. discriminate.
Defined.

(** C3.  On a host without faults whose directory holds regular files
    only, every read that passes the validity test succeeds, whether the
    artifacts of its blocks are there, absent or short; byte [p] of the
    result is the byte of the artifact at the place [locate] gives for [p]
    when the artifact has a byte there, and zero when the artifact is
    absent or ends before that place. *)
Theorem read_missing_bytes_zero cfg emu h d block off size out :
  (8 < LFS_NAME_MAX cfg)%nat -> geometry_ok (info emu) ->
  uint32 block -> uint32 off -> uint32 size ->
  valid_access (read_size (info emu)) (info emu) block off size = true ->
  faults h = [] -> dir h = Some d -> regular d ->
  (Z.to_nat size <= length out)%nat ->
  exists emu' h' out',
    lfs_emubd_read cfg emu h block off size out = Returned (0, emu', h', out')
    /\ forall p, 0 <= p < size ->
         let loc := locate (erase_size (info emu)) block off p in
         out' !! Z.to_nat p
         = Some (match file_content h (sprintf_x (fst loc)) with
                 | Some c => default zero (c !! Z.to_nat (snd loc))
                 | None => zero
                 end).
Proof.
  intros Hname Hgeo Hb Ho Hs Hv Hq Hd Hreg Hlen.
  destruct (lfs_emubd_read_quiet cfg emu h d block off size out)
    as (emu' & h' & out' & Hread & _ & _ & Hbytes); try done.
  by exists emu', h', out'.
Qed.

(** A read of 32 bytes from a block whose artifact has 16 bytes, and from
    a block without artifact. *)
Lemma read_missing_bytes_zero_witness :
  (exists emu' h' out',
     lfs_emubd_read scenario_cfg scenario_emu (host_of block0 []) 0 0 32
       (replicate 32 Byte.xff)
     = Returned (0, emu', h', out')
     /\ forall p, 0 <= p < 32 ->
          let loc := locate 512 0 0 p in
          out' !! Z.to_nat p
          = Some (match file_content (host_of block0 []) (sprintf_x (fst loc))
                  with
                  | Some c => default zero (c !! Z.to_nat (snd loc))
                  | None => zero
                  end))
  /\ lfs_emubd_read scenario_cfg scenario_emu (host_of block0 []) 0 0 32
       (replicate 32 Byte.xff)
     = Returned (0,
                 set_stats (set_child scenario_emu "0")
                   (bump_read zero_stats),
                 host_of block0 [], aa16 ++ replicate 16 zero).
Proof.
  split; [| reflexivity].
  apply (read_missing_bytes_zero scenario_cfg scenario_emu (host_of block0 [])
           block0 0 0 32 (replicate 32 Byte.xff)).
  - cbn. lia.
  - unfold geometry_ok. by_evaluation.
  - unfold uint32. lia.
  - unfold uint32. lia.
  - unfold uint32. lia.
  - reflexivity.
  - reflexivity.
  - reflexivity.
  - apply regular_insert, regular_empty.
  - cbn. lia.
Defined.

(** C4.  While a counter is below its largest value, a read, program or
    erase that returns 0 has added exactly 1 to its own counter and left
    the two others alone, whatever the number of blocks it walked over;
    one that returns an error code has changed no counter.  This holds on
    every host, faults included. *)
Theorem counters_once_per_call cfg emu h block off size buffer :
  can_count (read_count (stats emu)) ->
  can_count (prog_count (stats emu)) ->
  can_count (erase_count (stats emu)) ->
  (forall r emu' h' out',
     lfs_emubd_read cfg emu h block off size buffer
     = Returned (r, emu', h', out') ->
     (r = 0 ->
      read_count (stats emu') = read_count (stats emu) + 1
      /\ prog_count (stats emu') = prog_count (stats emu)
      /\ erase_count (stats emu') = erase_count (stats emu))
     /\ (r <> 0 -> stats emu' = stats emu))
  /\ (forall r emu' h',
        lfs_emubd_prog cfg emu h block off size buffer
        = Returned (r, emu', h') ->
        (r = 0 ->
         read_count (stats emu') = read_count (stats emu)
         /\ prog_count (stats emu') = prog_count (stats emu) + 1
         /\ erase_count (stats emu') = erase_count (stats emu))
        /\ (r <> 0 -> stats emu' = stats emu))
  /\ (forall r emu' h',
        lfs_emubd_erase cfg emu h block off size
        = Returned (r, emu', h') ->
        (r = 0 ->
         read_count (stats emu') = read_count (stats emu)
         /\ prog_count (stats emu') = prog_count (stats emu)
         /\ erase_count (stats emu') = erase_count (stats emu) + 1)
        /\ (r <> 0 -> stats emu' = stats emu)).
Proof.
  intros Hr Hp He. split; [| split].
  - intros r emu' h' out' Hcall.
    apply lfs_emubd_read_any in Hcall as (_ & _ & [(-> & -> & _) | (Hneg & ->)]).
    + split; [| done]. intros _. cbn. by rewrite wrap64_succ.
    + split; [lia | done].
  - intros r emu' h' Hcall.
    apply lfs_emubd_prog_any in Hcall as (_ & _ & [(-> & -> & _) | (Hneg & ->)]).
    + split; [| done]. intros _. cbn. by rewrite wrap64_succ.
    + split; [lia | done].
  - intros r emu' h' Hcall.
    apply lfs_emubd_erase_any in Hcall as (_ & _ & [(-> & ->) | (Hneg & ->)]).
    + split; [| done]. intros _. cbn. by rewrite wrap64_succ.
    + split; [lia | done].
Qed.

(** A program over two blocks counts once; a program whose write fails
    does not count. *)
Lemma counters_once_per_call_witness :
  (exists emu' h',
     lfs_emubd_prog scenario_cfg scenario_emu (host_of block0 []) 0 496 32
       (aa16 ++ bb16)
     = Returned (0, emu', h')
     /\ prog_count (stats emu') = 0 + 1)
  /\ (exists emu' h',
        lfs_emubd_prog scenario_cfg scenario_emu
          (host_of block0 [None; None; Some 28%positive]) 0 496 32
          (aa16 ++ bb16)
        = Returned (-28, emu', h')
        /\ stats emu' = zero_stats).
Proof.
  assert (Hc : can_count 0) by (unfold can_count; lia).
  split.
  - destruct (counters_once_per_call scenario_cfg scenario_emu
                (host_of block0 []) 0 496 32 (aa16 ++ bb16) Hc Hc Hc)
      as (_ & Hprog & _).
    eexists _, _. split; [reflexivity |].
    eapply Hprog; reflexivity.
  - destruct (counters_once_per_call scenario_cfg scenario_emu
                (host_of block0 [None; None; Some 28%positive]) 0 496 32
                (aa16 ++ bb16) Hc Hc Hc)
      as (_ & Hprog & _).
    eexists _, _. split; [reflexivity |].
    eapply Hprog; [reflexivity | discriminate].
Defined.

(** C5.  The erase does not honour the offset its validity test accepts.
    On the scenario device, with the artifacts of blocks 0 and 1 in place,
    the access at block 0, offset 512, size 512 passes the validity test
    of erase; its address range [512, 1024) is block 1.  A program and a
    read at the same block and offset act on block 1: the program writes
    its artifact and leaves the one of block 0 alone, the read returns its
    bytes.  The erase returns 0, having removed the artifact of block 0,
    outside the range, and kept the artifact of block 1, inside it. *)
Lemma erase_at_offset_removes_other_block :
  valid_access 512 (info scenario_emu) 0 512 512 = true
  /\ locate 512 0 512 0 = (1, 0)
  /\ (exists emu' h',
        lfs_emubd_erase scenario_cfg scenario_emu (host_of blocks01 [])
          0 512 512
        = Returned (0, emu', h')
        /\ file_content h' (sprintf_x 0) = None
        /\ file_content h' (sprintf_x 1) = Some bb16)
  /\ (exists emu' h',
        lfs_emubd_prog scenario_cfg scenario_emu (host_of blocks01 [])
          0 512 16 aa16
        = Returned (0, emu', h')
        /\ file_content h' (sprintf_x 0) = Some aa16
        /\ file_content h' (sprintf_x 1) = Some aa16)
  /\ (exists emu' h',
        lfs_emubd_read scenario_cfg scenario_emu (host_of blocks01 [])
          0 512 16 (replicate 16 zero)
        = Returned (0, emu', h', bb16)).
Proof.
  split; [reflexivity |]. split; [reflexivity |]. split; [| split].
  - eexists _, _. split; [vm_compute; reflexivity |]. split; reflexivity.
  - eexists _, _. split; [vm_compute; reflexivity |]. split; reflexivity.
  - eexists _, _. vm_compute. reflexivity.
Qed.

(** C6.  On a host without faults, a program that passes the validity test
    and stays inside one block ([off + size <= erase_size]) whose artifact
    exists succeeds; the artifact does not get shorter, each of its former
    bytes outside [off, off + size) keeps its value, and no other entry of
    the directory changes. *)
Theorem prog_keeps_rest_of_block cfg emu h d block off size data old :
  (8 < LFS_NAME_MAX cfg)%nat -> geometry_ok (info emu) ->
  uint32 block -> uint32 off -> uint32 size ->
  valid_access (prog_size (info emu)) (info emu) block off size = true ->
  off + size <= erase_size (info emu) ->
  faults h = [] -> dir h = Some d ->
  d !! sprintf_x block = Some (RegFile old) ->
  (Z.to_nat size <= length data)%nat ->
  exists emu' h' d' new,
    lfs_emubd_prog cfg emu h block off size data = Returned (0, emu', h')
    /\ dir h' = Some d'
    /\ d' !! sprintf_x block = Some (RegFile new)
    /\ (length old <= length new)%nat
    /\ (forall i : nat,
          (i < length old)%nat ->
          (i < Z.to_nat off \/ Z.to_nat (off + size) <= i)%nat ->
          new !! i = old !! i)
    /\ (forall name, name <> sprintf_x block -> d' !! name = d !! name).
Proof.
  intros Hname (Hrs & Hps & Hes & Hts) Hb Ho Hs Hvp Hsub Hq Hd Hold Hdata.
  unfold lfs_emubd_prog.
  destruct (Z.eqb_spec (prog_size (info emu)) 0); [lia |].
  rewrite Hvp. cbn [negb].
  destruct (Z.le_gt_cases size 0) as [Hz | Hpos].
  - (* nothing to write *)
    rewrite prog_loop_done by done. cbn [mbind outcome_bind].
    eexists _, h, d, old. by repeat split.
  - rewrite prog_loop_step by done. cbn zeta.
    set (emu1 := set_child emu (sprintf_x block)).
    assert (Hcount : lfs_min (wrap32 (erase_size (info emu) - off)) size = size).
    { rewrite lfs_min_spec, wrap32_small by (unfold uint32 in *; lia). lia. }
    rewrite Hcount.
    destruct (prog_block_quiet emu1 h d off size 0%nat data) as (e & ->);
      try done; try lia.
    { change (child emu1) with (sprintf_x block). by rewrite Hold. }
    cbn [mbind outcome_bind]. rewrite Z.sub_diag.
    rewrite prog_loop_done by done. cbn [mbind outcome_bind].
    change (child emu1) with (sprintf_x block).
    rewrite (file_content_dir h d) by done. rewrite Hold. cbn [default].
    eexists _, _, _, _. split; [reflexivity |]. cbn [dir set_errno set_dir].
    split; [reflexivity |]. split; [apply lookup_insert_eq |].
    split; [apply pwrite_length |]. split.
    + intros i Hi Hout. apply pwrite_lookup_out; [done |].
      rewrite length_take, length_drop. unfold uint32 in *. lia.
    + intros name Hne. by rewrite lookup_insert_ne.
Qed.

(** A program of 16 bytes at offset 16 of a block whose artifact holds 32
    bytes: the first 16 bytes stay. *)
Lemma prog_keeps_rest_of_block_witness :
  (exists emu' h' d' new,
     lfs_emubd_prog scenario_cfg scenario_emu
       (host_of block0_long []) 0 16 16 bb16
     = Returned (0, emu', h')
     /\ dir h' = Some d'
     /\ d' !! sprintf_x 0 = Some (RegFile new)
     /\ (length (aa16 ++ aa16) <= length new)%nat
     /\ (forall i : nat,
           (i < length (aa16 ++ aa16))%nat ->
           (i < Z.to_nat 16 \/ Z.to_nat (16 + 16) <= i)%nat ->
           new !! i = (aa16 ++ aa16) !! i)
     /\ (forall name,
           name <> sprintf_x 0 ->
           d' !! name = block0_long !! name))
  /\ exists emu' h',
       lfs_emubd_prog scenario_cfg scenario_emu
         (host_of block0_long []) 0 16 16 bb16
       = Returned (0, emu', h')
       /\ file_content h' "0" = Some (aa16 ++ bb16).
Proof.
  split; [| eexists _, _; split; reflexivity].
  apply (prog_keeps_rest_of_block scenario_cfg scenario_emu
           (host_of block0_long [])
           block0_long 0 16 16 bb16 (aa16 ++ aa16)).
  - cbn. lia.
  - unfold geometry_ok. by_evaluation.
  - unfold uint32. lia.
  - unfold uint32. lia.
  - unfold uint32. lia.
  - reflexivity.
  - by_evaluation.
  - reflexivity.
  - reflexivity.
  - reflexivity.
  - cbn. lia.
Defined.

(** C7, as amended.  On every host, faults included: a read or a program
    that returns 0 leaves the table of open streams as it found it, every
    stream it opened is closed; one that returns an error code has closed
    the streams of the blocks before the one at which the error occurred,
    and at most one stream of its own may still be open. *)
Theorem streams_closed_unless_error cfg emu h block off size buffer :
  (forall r emu' h' out',
     lfs_emubd_read cfg emu h block off size buffer
     = Returned (r, emu', h', out') ->
     leaks_at_most_one h h' /\ (r = 0 -> streams h' = streams h))
  /\ (forall r emu' h',
        lfs_emubd_prog cfg emu h block off size buffer
        = Returned (r, emu', h') ->
        leaks_at_most_one h h' /\ (r = 0 -> streams h' = streams h)).
Proof.
  split.
  - intros r emu' h' out' Hcall.
    apply lfs_emubd_read_any in Hcall
      as (_ & Hleak & [(_ & _ & Hs) | (Hneg & _)]).
    + by split.
    + split; [done | lia].
  - intros r emu' h' Hcall.
    apply lfs_emubd_prog_any in Hcall
      as (_ & Hleak & [(_ & _ & Hs) | (Hneg & _)]).
    + by split.
    + split; [done | lia].
Qed.

(** A read over two blocks that succeeds closes both streams; a read
    whose [fread] fails in the second block leaves that stream open and
    no other. *)
Lemma streams_closed_unless_error_witness :
  (exists emu' h' out',
     lfs_emubd_read scenario_cfg scenario_emu (host_of blocks01 []) 0 496 32
       (aa16 ++ bb16)
     = Returned (0, emu', h', out')
     /\ streams h' = streams (host_of blocks01 []))
  /\ (exists emu' h' out',
        lfs_emubd_read scenario_cfg scenario_emu
          (host_of blocks01
             [None; None; None; None; None; None; Some 5%positive])
          0 496 32 (aa16 ++ bb16)
        = Returned (-5, emu', h', out')
        /\ leaks_at_most_one
             (host_of blocks01
                [None; None; None; None; None; None; Some 5%positive]) h').
Proof.
  split.
  - eexists _, _, _. split; [reflexivity |].
    refine (proj2 (proj1 (streams_closed_unless_error scenario_cfg
                            scenario_emu (host_of blocks01 []) 0 496 32
                            (aa16 ++ bb16)) _ _ _ _ _) _);
      reflexivity.
  - eexists _, _, _. split; [reflexivity |].
    refine (proj1 (proj1 (streams_closed_unless_error scenario_cfg
                            scenario_emu
                            (host_of blocks01
                               [None; None; None; None; None; None;
                                Some 5%positive])
                            0 496 32 (aa16 ++ bb16)) _ _ _ _ _));
      reflexivity.
Defined.

(** C7, as stated, fails.  A read whose [fseek] fails and a program whose
    [fwrite] fails return the error code while the stream they opened for
    the block is still in the table of open streams, which was empty
    before the call. *)
Lemma stream_left_open_on_error :
  (exists emu' h' out',
     lfs_emubd_read scenario_cfg scenario_emu
       (host_of block0 [None; Some 5%positive]) 0 0 16 bb16
     = Returned (-5, emu', h', out')
     /\ streams h'
        = {[ 0%nat := {| s_name := "0"; s_pos := 0; s_eof := false |} ]})
  /\ (exists emu' h',
        lfs_emubd_prog scenario_cfg scenario_emu
          (host_of block0 [None; None; Some 28%positive]) 0 0 16 bb16
        = Returned (-28, emu', h')
        /\ streams h'
           = {[ 0%nat := {| s_name := "0"; s_pos := 0; s_eof := false |} ]}).
Proof.
  split.
  - eexists _, _, _. split; [vm_compute; reflexivity |]. reflexivity.
  - eexists _, _. split; [vm_compute; reflexivity |]. reflexivity.
Qed.

(** C8.  With room for the name "stats" in the child buffer: on every
    host, faults included, creating a device whose "stats" artifact is
    absent or shorter than the statistics record returns a negative error
    code; on a host without faults whose "stats" artifact has at least the
    size of the record, creation returns 0 with the counters decoded from
    the first bytes of the artifact and the geometry of the configuration
    in the handle. *)
Theorem create_needs_stats cfg emu h base :
  (5 < LFS_NAME_MAX cfg)%nat ->
  ((forall c, file_content h "stats" = Some c ->
              (length c < sizeof_stats)%nat) ->
   exists r emu' h',
     lfs_emubd_create cfg emu h base = Returned (r, emu', h') /\ r < 0)
  /\ (forall d c,
        faults h = [] -> dir h = Some d ->
        d !! "stats" = Some (RegFile c) ->
        (sizeof_stats <= length c)%nat ->
        exists emu' h',
          lfs_emubd_create cfg emu h base = Returned (0, emu', h')
          /\ stats emu' = stats_of_bytes (take sizeof_stats c)
          /\ info emu' = config_info cfg).
Proof.
  intros Hname. split.
  - by apply create_fails_without_stats.
  - intros d c Hq Hd Hl Hlen.
    rewrite (create_loads_stats cfg emu h d c base) by done.
    by eexists _, _.
Qed.

(** Creation in an empty directory fails with [-ENOENT]; with a "stats"
    artifact that holds the counters 1, 2 and 3 it loads them. *)
Lemma create_needs_stats_witness :
  (exists r emu' h',
     lfs_emubd_create scenario_cfg scenario_emu (host_of ∅ []) "bd"
     = Returned (r, emu', h') /\ r < 0)
  /\ (exists emu' h',
        lfs_emubd_create scenario_cfg scenario_emu (host_of stats_dir []) "bd"
        = Returned (0, emu', h')
        /\ stats emu'
           = {| read_count := 1; prog_count := 2; erase_count := 3 |}
        /\ info emu' = config_info scenario_cfg).
Proof.
  assert (Hn : (5 < LFS_NAME_MAX scenario_cfg)%nat) by (cbn; lia).
  split.
  - apply (proj1 (create_needs_stats scenario_cfg scenario_emu
                    (host_of ∅ []) "bd" Hn)).
    intros c. vm_compute. discriminate.
  - apply (proj2 (create_needs_stats scenario_cfg scenario_emu
                    (host_of stats_dir []) "bd" Hn) stats_dir stats123).
    + reflexivity.
    + reflexivity.
    + reflexivity.
    + unfold sizeof_stats, stats123. cbn. lia.
Defined.

(** C9.  A program whose open for update fails for another reason than a
    missing file (here: permission denied, or the entry of the block is a
    directory) hands the null stream to [fseek]: the behaviour of the call
    is undefined, no error code is returned. *)
Theorem prog_open_failure_undefined :
  lfs_emubd_prog scenario_cfg scenario_emu
    (host_of block0 [Some 13%positive]) 0 0 16 bb16
  = Undefined
  /\ lfs_emubd_prog scenario_cfg scenario_emu
       (host_of (<["0" := Directory]> ∅) []) 0 0 16 bb16
     = Undefined.
Proof. split; reflexivity. Qed.

(** C10.  With a positive geometry and counters below their largest value,
    a read, program or erase of size 0 that passes the validity test
    returns 0 with its own counter increased by 1; the host is returned
    as it was (no entry, stream, [errno] or pending fault has changed),
    and so are the child name of the handle and the buffer. *)
Theorem empty_access_counts cfg emu h block off buffer :
  geometry_ok (info emu) ->
  can_count (read_count (stats emu)) ->
  can_count (prog_count (stats emu)) ->
  can_count (erase_count (stats emu)) ->
  let i := info emu in
  let s := stats emu in
  (valid_access (read_size i) i block off 0 = true ->
   lfs_emubd_read cfg emu h block off 0 buffer
   = Returned (0,
               set_stats emu {| read_count := read_count s + 1;
                                prog_count := prog_count s;
                                erase_count := erase_count s |},
               h, buffer))
  /\ (valid_access (prog_size i) i block off 0 = true ->
      lfs_emubd_prog cfg emu h block off 0 buffer
      = Returned (0,
                  set_stats emu {| read_count := read_count s;
                                   prog_count := prog_count s + 1;
                                   erase_count := erase_count s |},
                  h))
  /\ (valid_access (erase_size i) i block off 0 = true ->
      lfs_emubd_erase cfg emu h block off 0
      = Returned (0,
                  set_stats emu {| read_count := read_count s;
                                   prog_count := prog_count s;
                                   erase_count := erase_count s + 1 |},
                  h)).
Proof.
  intros (Hrs & Hps & Hes & Hts) Hr Hp He i s. subst i s.
  split; [| split]; intros Hv.
  - unfold lfs_emubd_read.
    destruct (Z.eqb_spec (read_size (info emu)) 0); [lia |].
    rewrite Hv. cbn. by rewrite wrap64_succ.
  - unfold lfs_emubd_prog.
    destruct (Z.eqb_spec (prog_size (info emu)) 0); [lia |].
    rewrite Hv. cbn. by rewrite wrap64_succ.
  - unfold lfs_emubd_erase.
    destruct (Z.eqb_spec (erase_size (info emu)) 0); [lia |].
    rewrite Hv. cbn. by rewrite wrap64_succ.
Qed.

(** Accesses of size 0 at block 1 of the scenario device, on a host whose
    next call would fail: the fault stays pending. *)
Lemma empty_access_counts_witness :
  let h := host_of block0 [Some 5%positive] in
  lfs_emubd_read scenario_cfg scenario_emu h 1 16 0 bb16
  = Returned (0, set_stats scenario_emu
                   {| read_count := 1; prog_count := 0; erase_count := 0 |},
              h, bb16)
  /\ lfs_emubd_prog scenario_cfg scenario_emu h 1 16 0 bb16
     = Returned (0, set_stats scenario_emu
                      {| read_count := 0; prog_count := 1; erase_count := 0 |},
                 h)
  /\ lfs_emubd_erase scenario_cfg scenario_emu h 1 512 0
     = Returned (0, set_stats scenario_emu
                      {| read_count := 0; prog_count := 0; erase_count := 1 |},
                 h).
Proof.
  intros h.
  assert (Hgeo : geometry_ok (info scenario_emu))
    by (unfold geometry_ok; by_evaluation).
  assert (Hc : can_count 0) by (unfold can_count; lia).
  split; [| split].
  - by apply (empty_access_counts scenario_cfg scenario_emu h 1 16 bb16
                Hgeo Hc Hc Hc).
  - by apply (empty_access_counts scenario_cfg scenario_emu h 1 16 bb16
                Hgeo Hc Hc Hc).
  - by apply (empty_access_counts scenario_cfg scenario_emu h 1 512 bb16
                Hgeo Hc Hc Hc).
Defined.

(** * Further properties *)

(** ** What the host calls change, on any host *)

Lemma next_fault_entries h flt h1 :
  next_fault h = (flt, h1) -> entries h1 = entries h.
Proof.
  intros Hn. apply next_fault_streams in Hn as (_ & Hd & _).
  unfold entries. by rewrite Hd.
Qed.

(** [fopen] changes no other entry than the one it names, changes none
    unless it is asked to create or truncate, and a stream it opens is a
    stream on that name. *)
Lemma fopen_frame h name m f h1 :
  fopen h name m = (f, h1) ->
  (forall n, n <> name -> entries h1 !! n = entries h !! n)
  /\ (m <> Mode_wplus -> dir h1 = dir h)
  /\ (forall fd, f = Some fd ->
        exists s, streams h1 !! fd = Some s /\ s_name s = name).
Proof.
  unfold fopen. destruct (next_fault h) as [flt h0] eqn:Hn.
  pose proof (next_fault_entries _ _ _ Hn) as He.
  apply next_fault_streams in Hn as (Hs & Hd & _).
  rewrite <- He, <- Hd. clear He Hd Hs. unfold open_stream, entries.
  destruct flt as [e |]; [by intros [= <- <-] |].
  destruct (dir h0) as [d0 |] eqn:Hd0; [| intros [= <- <-]; cbn; by rewrite Hd0].
  destruct (d0 !! name) as [[c |] |] eqn:Hl, m; intros [= <- <-];
    cbn [dir streams set_dir set_streams set_errno]; rewrite ?Hd0;
    (split; [intros n Hne; by rewrite ?lookup_insert_ne |]);
    (split; [done |]); intros fd [= <-];
    eexists; by rewrite lookup_insert_eq.
Qed.

Lemma fseek_frame h fd s off err h1 :
  streams h !! fd = Some s ->
  fseek h (Some fd) off = Returned (err, h1) ->
  dir h1 = dir h
  /\ exists s1, streams h1 !! fd = Some s1 /\ s_name s1 = s_name s.
Proof.
  intros Hs. unfold fseek, get_stream. rewrite Hs. cbn [mbind outcome_bind].
  destruct (next_fault h) as [flt h0] eqn:Hn.
  apply next_fault_streams in Hn as (Hs0 & Hd & _).
  destruct flt as [e |]; intros [= <- <-]; cbn; (split; [done |]).
  - exists s. by rewrite Hs0.
  - eexists. by rewrite lookup_insert_eq.
Qed.

(** [fread] changes no entry and transfers at most [count] bytes. *)
Lemma fread_frame h fd s count got h1 :
  streams h !! fd = Some s ->
  fread h (Some fd) count = Returned (got, h1) ->
  dir h1 = dir h /\ (length got <= Z.to_nat count)%nat
  /\ exists s1, streams h1 !! fd = Some s1 /\ s_name s1 = s_name s.
Proof.
  intros Hs. unfold fread, get_stream. rewrite Hs. cbn [mbind outcome_bind].
  destruct (next_fault h) as [flt h0] eqn:Hn.
  apply next_fault_streams in Hn as (Hs0 & Hd & _).
  destruct flt as [e |].
  - intros [= <- <-]. cbn. repeat split; [done | lia |].
    exists s. by rewrite Hs0.
  - destruct (entries h0 !! s_name s) as [[c |] |]; intros [= <- <-]; cbn;
      (split; [done |]); (split; [rewrite ?length_take; cbn; lia |]).
    + eexists. by rewrite lookup_insert_eq.
    + exists s. by rewrite Hs0.
    + eexists. by rewrite lookup_insert_eq.
Qed.

(** [fwrite] changes no other entry than the file of its stream. *)
Lemma fwrite_frame h fd s src res h1 :
  streams h !! fd = Some s ->
  fwrite h (Some fd) src = Returned (res, h1) ->
  (forall n, n <> s_name s -> entries h1 !! n = entries h !! n)
  /\ exists s1, streams h1 !! fd = Some s1 /\ s_name s1 = s_name s.
Proof.
  intros Hs. unfold fwrite, get_stream. rewrite Hs. cbn [mbind outcome_bind].
  destruct (next_fault h) as [flt h0] eqn:Hn.
  pose proof (next_fault_entries _ _ _ Hn) as He.
  apply next_fault_streams in Hn as (Hs0 & Hd & _).
  rewrite <- He. clear He. unfold entries.
  destruct flt as [e |].
  - intros [= <- <-]. cbn. split; [done |]. exists s. by rewrite Hs0.
  - destruct (dir h0) as [d0 |] eqn:Hd0; intros [= <- <-]; cbn; rewrite ?Hd0.
    + split; [intros n Hne; by rewrite lookup_insert_ne |].
      eexists. by rewrite lookup_insert_eq.
    + split; [done |]. exists s. by rewrite Hs0.
Qed.

Lemma fclose_frame h fd s err h1 :
  streams h !! fd = Some s ->
  fclose h (Some fd) = Returned (err, h1) -> dir h1 = dir h.
Proof.
  intros Hs. unfold fclose, get_stream. rewrite Hs. cbn [mbind outcome_bind].
  destruct (next_fault h) as [flt h0] eqn:Hn.
  apply next_fault_streams in Hn as (Hs0 & Hd & _).
  by destruct flt as [e |]; intros [= <- <-].
Qed.

Lemma entries_same h h1 : dir h1 = dir h -> entries h1 = entries h.
Proof. unfold entries. by intros ->. Qed.

(** ** What one block of a walk changes, on any host *)

(** One block of a read changes no entry of the directory and writes
    inside its [count] bytes of the buffer only. *)
Lemma read_block_frame emu h off count data buffer r h' buffer' :
  read_block emu h off count data buffer = Returned (r, h', buffer') ->
  (data + Z.to_nat count <= length buffer)%nat ->
  dir h' = dir h /\ length buffer' = length buffer
  /\ forall i : nat, ~ (data <= i < data + Z.to_nat count)%nat ->
                     buffer' !! i = buffer !! i.
Proof.
  unfold read_block. intros Hblk Hlen.
  destruct (fopen h (child emu) Mode_r) as [f h1] eqn:Hopen.
  apply fopen_frame in Hopen as (_ & Hd1 & Hst1). specialize (Hd1 ltac:(done)).
  destruct f as [fd |]; cbn [is_null andb] in Hblk.
  2:{ by destruct (negb (errno h1 =? ENOENT)); injection Hblk as <- <- <-. }
  destruct (Hst1 fd eq_refl) as (s1 & Hs1 & _).
  destruct (fseek h1 (Some fd) off) as [[err h2] | |] eqn:Hseek;
    [| done | done].
  apply (fseek_frame _ _ _ _ _ _ Hs1) in Hseek as (Hd2 & s2 & Hs2 & _).
  cbn [mbind outcome_bind] in Hblk.
  destruct (negb (err =? 0)).
  { injection Hblk as <- <- <-. split; [congruence | done]. }
  destruct (fread h2 (Some fd) count) as [[got h3] | |] eqn:Hread;
    [| done | done].
  apply (fread_frame _ _ _ _ _ _ Hs2) in Hread as (Hd3 & Hgot & s3 & Hs3 & _).
  cbn [mbind outcome_bind] in Hblk.
  rewrite (feof_open h3 fd s3 Hs3) in Hblk. cbn [mbind outcome_bind] in Hblk.
  assert (Hbuf : length (copy_at data got buffer) = length buffer
                 /\ forall i : nat,
                      ~ (data <= i < data + Z.to_nat count)%nat ->
                      copy_at data got buffer !! i = buffer !! i).
  { split; [apply copy_at_length; lia |].
    intros i Hi. rewrite copy_at_lookup by lia. case_decide; [lia | done]. }
  destruct (_ && _).
  { injection Hblk as <- <- <-. split; [congruence | done]. }
  destruct (fclose h3 (Some fd)) as [[err' h4] | |] eqn:Hclose;
    [| done | done].
  apply (fclose_frame _ _ _ _ _ Hs3) in Hclose.
  cbn [mbind outcome_bind] in Hblk.
  destruct (negb (err' =? 0)); injection Hblk as <- <- <-;
    (split; [congruence | done]).
Qed.

(** One block of a program changes no other entry than the artifact of
    the block. *)
Lemma prog_block_frame emu h off count data buffer r h' :
  prog_block emu h off count data buffer = Returned (r, h') ->
  forall n, n <> child emu -> entries h' !! n = entries h !! n.
Proof.
  unfold prog_block.
  assert (Htail : forall fd h1 s1,
    streams h1 !! fd = Some s1 -> s_name s1 = child emu ->
    ('(err, h2) ← fseek h1 (Some fd) off;
     if negb (err =? 0) then Returned (Some (- errno h2), h2) else
     if (length buffer <? data + Z.to_nat count)%nat then Undefined else
     '(res, h3) ← fwrite h2 (Some fd) (take (Z.to_nat count) (drop data buffer));
     if res <? count then Returned (Some (- errno h3), h3) else
     '(err, h4) ← fclose h3 (Some fd);
     if negb (err =? 0) then Returned (Some (- errno h4), h4) else
     Returned (None, h4)) = Returned (r, h') ->
    forall n, n <> child emu -> entries h' !! n = entries h1 !! n).
  { intros fd h1 s1 Hs1 Hn1 Htl n Hne.
    destruct (fseek h1 (Some fd) off) as [[err h2] | |] eqn:Hseek;
      [| done | done].
    apply (fseek_frame _ _ _ _ _ _ Hs1) in Hseek as (Hd2 & s2 & Hs2 & Hn2).
    cbn [mbind outcome_bind] in Htl.
    destruct (negb (err =? 0)).
    { injection Htl as <- <-. by rewrite (entries_same _ _ Hd2). }
    destruct (_ <? _)%nat; [done |].
    destruct (fwrite h2 (Some fd) _) as [[res h3] | |] eqn:Hwrite;
      [| done | done].
    apply (fwrite_frame _ _ _ _ _ _ Hs2) in Hwrite as (He3 & s3 & Hs3 & Hn3).
    cbn [mbind outcome_bind] in Htl.
    assert (He : entries h3 !! n = entries h1 !! n).
    { rewrite He3 by congruence. by rewrite (entries_same _ _ Hd2). }
    destruct (res <? count).
    { by injection Htl as <- <-. }
    destruct (fclose h3 (Some fd)) as [[err' h4] | |] eqn:Hclose;
      [| done | done].
    apply (fclose_frame _ _ _ _ _ Hs3) in Hclose.
    cbn [mbind outcome_bind] in Htl.
    destruct (negb (err' =? 0)); injection Htl as <- <-;
      by rewrite (entries_same _ _ Hclose). }
  destruct (fopen h (child emu) Mode_rplus) as [f h1] eqn:Hopen.
  apply fopen_frame in Hopen as (He1 & Hd1 & Hst1).
  specialize (Hd1 ltac:(done)).
  destruct f as [fd |]; cbn [is_null andb].
  - destruct (Hst1 fd eq_refl) as (s1 & Hs1 & Hn1).
    intros Htl n Hne. rewrite (Htail fd h1 s1) by done. by apply He1.
  - destruct (errno h1 =? ENOENT); [| done].
    destruct (fopen h1 (child emu) Mode_wplus) as [f2 h2] eqn:Hopen2.
    apply fopen_frame in Hopen2 as (He2 & _ & Hst2).
    destruct f2 as [fd |]; cbn [is_null].
    + destruct (Hst2 fd eq_refl) as (s2 & Hs2 & Hn2).
      intros Htl n Hne. rewrite (Htail fd h2 s2) by done.
      rewrite He2 by done. by apply He1.
    + intros [= <- <-] n Hne. rewrite He2 by done. by apply He1.
Qed.

(** One block of an erase leaves the directory as it was or removes the
    regular file of the block. *)
Lemma erase_block_frame emu h r h' :
  erase_block emu h = (r, h') ->
  entries h' = entries h
  \/ exists c, entries h !! child emu = Some (RegFile c)
               /\ entries h' = delete (child emu) (entries h).
Proof.
  unfold erase_block, stat, unlink.
  destruct (next_fault h) as [flt h0] eqn:Hn.
  pose proof (next_fault_entries _ _ _ Hn) as He. rewrite <- He. clear He Hn.
  destruct flt as [e |].
  { cbn. destruct (negb _); intros [= <- <-]; by left. }
  destruct (entries h0 !! child emu) as [[c |] |] eqn:Hl; cbn;
    try (intros [= <- <-]; by left).
  destruct (next_fault h0) as [flt1 h1] eqn:Hn1.
  pose proof (next_fault_entries _ _ _ Hn1) as He1.
  apply next_fault_streams in Hn1 as (_ & Hd1 & _).
  destruct flt1 as [e |]; [cbn; intros [= <- <-]; by left |].
  unfold entries in Hl, He1 |- *. rewrite <- Hd1 in Hl |- *.
  destruct (dir h1) as [d1 |]; [| done].
  rewrite Hl. cbn. intros [= <- <-]. right. by exists c.
Qed.

(** ** What the walks change, on any host *)

Section Frames.

Variable cfg : lfs_config.

Lemma read_loop_frame fuel : forall emu h block off size data buffer r emu' h' buffer',
  read_loop cfg fuel emu h block off size data buffer
  = Returned (r, emu', h', buffer') ->
  uint32 size -> (data + Z.to_nat size <= length buffer)%nat ->
  dir h' = dir h /\ path emu' = path emu
  /\ length buffer' = length buffer
  /\ forall i : nat, ~ (data <= i < data + Z.to_nat size)%nat ->
                     buffer' !! i = buffer !! i.
Proof.
  induction fuel as [| fuel IH];
    intros emu h block off size data buffer r emu' h' buffer';
    cbn [read_loop]; destruct (Z.ltb_spec 0 size);
    try (by intros [= <- <- <- <-]).
  set (emu1 := set_child emu _). set (count := lfs_min _ size).
  intros Hloop Hs Hlen.
  assert (Hc : 0 <= count <= size).
  { unfold count. rewrite lfs_min_spec.
    pose proof (wrap32_range (erase_size (info emu1) - off)) as Hr.
    unfold uint32 in Hr. lia. }
  destruct (read_block emu1 h off count data buffer)
    as [[[r1 h1] buffer1] | |] eqn:Hblk; [| done | done].
  apply read_block_frame in Hblk as (Hd1 & Hl1 & Hb1); [| lia].
  cbn [mbind outcome_bind] in Hloop. destruct r1 as [e |].
  - injection Hloop as <- <- <- <-. repeat split; try done.
    intros i Hi. apply Hb1. lia.
  - rewrite (wrap32_small (size - count)) in Hloop
      by (unfold uint32 in *; lia).
    apply IH in Hloop as (Hd' & Hp' & Hl' & Hb');
      [| unfold uint32 in *; lia | lia].
    split; [congruence |]. split; [done |]. split; [congruence |].
    intros i Hi. rewrite Hb' by lia. apply Hb1. lia.
Qed.

Hypothesis Hname : (8 < LFS_NAME_MAX cfg)%nat.

Lemma prog_loop_frame fuel : forall emu h block off size data buffer r emu' h',
  prog_loop cfg fuel emu h block off size data buffer
  = Returned (r, emu', h') ->
  path emu' = path emu
  /\ forall n, (forall b, n <> sprintf_x b) ->
               entries h' !! n = entries h !! n.
Proof using Hname.
  induction fuel as [| fuel IH];
    intros emu h block off size data buffer r emu' h';
    cbn [prog_loop]; destruct (0 <? size);
    try (by intros [= <- <- <-]).
  rewrite snprintf_block by done.
  set (emu1 := set_child emu _). set (count := lfs_min _ size).
  destruct (prog_block emu1 h off count data buffer)
    as [[r1 h1] | |] eqn:Hblk; [| done | done].
  pose proof (prog_block_frame _ _ _ _ _ _ _ _ Hblk) as He1.
  cbn [mbind outcome_bind]. destruct r1 as [e |].
  - intros [= <- <- <-]. split; [done |]. intros n Hn. apply He1, Hn.
  - intros Hloop. apply IH in Hloop as (Hp' & He').
    split; [done |]. intros n Hn. rewrite He' by done. apply He1, Hn.
Qed.

Lemma erase_loop_frame fuel : forall emu h block off size r emu' h',
  erase_loop cfg fuel emu h block off size = Returned (r, emu', h') ->
  path emu' = path emu
  /\ forall n,
       entries h' !! n = entries h !! n
       \/ (entries h' !! n = None
           /\ (exists c, entries h !! n = Some (RegFile c))
           /\ exists b, n = sprintf_x b).
Proof using Hname.
  induction fuel as [| fuel IH]; intros emu h block off size r emu' h';
    cbn [erase_loop]; destruct (0 <? size);
    try done; try (intros [= <- <- <-]; split; [done | intros n; by left]).
  rewrite snprintf_block by done.
  set (emu1 := set_child emu _).
  destruct (erase_block emu1 h) as [r1 h1] eqn:Hblk.
  apply erase_block_frame in Hblk.
  assert (He1 : forall n,
    entries h1 !! n = entries h !! n
    \/ (entries h1 !! n = None
        /\ (exists c, entries h !! n = Some (RegFile c))
        /\ exists b, n = sprintf_x b)).
  { intros n. destruct Hblk as [-> | (c & Hl & ->)]; [by left |].
    change (child emu1) with (sprintf_x block) in *.
    destruct (decide (n = sprintf_x block)) as [-> | Hne].
    - right. rewrite lookup_delete_eq. by eauto.
    - left. by rewrite lookup_delete_ne. }
  destruct r1 as [e |].
  - by intros [= <- <- <-].
  - intros Hloop. apply IH in Hloop as (Hp' & He').
    split; [done |]. intros n.
    destruct (He' n) as [-> | (Hnone & (c & Hc) & Hb)]; [apply He1 |].
    destruct (He1 n) as [Heq | (Hnone1 & _)]; [| congruence].
    right. rewrite <- Heq. by eauto.
Qed.

End Frames.

(** ** Names of the metadata artifacts *)

Lemma hex_char_in d :
  0 <= d < 16 -> In (hex_char d) (list_ascii_of_string "0123456789abcdef").
Proof.
  intros H.
  assert (Hc : d = 0 \/ d = 1 \/ d = 2 \/ d = 3 \/ d = 4 \/ d = 5 \/ d = 6
               \/ d = 7 \/ d = 8 \/ d = 9 \/ d = 10 \/ d = 11 \/ d = 12
               \/ d = 13 \/ d = 14 \/ d = 15) by lia.
  repeat (destruct Hc as [-> | Hc]; [cbn; tauto |]). subst d. cbn. tauto.
Qed.

Lemma hex_digits_in fuel : forall n acc c,
  In c (hex_digits fuel n acc) ->
  In c acc \/ In c (list_ascii_of_string "0123456789abcdef").
Proof.
  induction fuel as [| fuel IH]; intros n acc c; cbn [hex_digits];
    [by left |].
  assert (Hm : 0 <= n mod 16 < 16) by (apply Z.mod_pos_bound; lia).
  destruct (n / 16 =? 0).
  - intros [<- | Hin]; [right; by apply hex_char_in | by left].
  - intros Hin. apply IH in Hin as [[<- | Hin] | Hin];
      [right; by apply hex_char_in | by left | by right].
Qed.

(** The name of a block artifact is made of hexadecimal digits, so it is
    neither "info" nor "stats". *)
Lemma sprintf_x_not_metadata b :
  sprintf_x b <> "info"%string /\ sprintf_x b <> "stats"%string.
Proof.
  assert (Hin : forall c, In c (list_ascii_of_string (sprintf_x b)) ->
                          In c (list_ascii_of_string "0123456789abcdef")).
  { intros c Hc. unfold sprintf_x in Hc.
    rewrite list_ascii_of_string_of_list_ascii in Hc.
    by apply hex_digits_in in Hc as [[] | Hc]. }
  split; intros Heq; rewrite Heq in Hin.
  - specialize (Hin "i"%char ltac:(cbn; tauto)). cbn in Hin.
    repeat (destruct Hin as [Hin | Hin]; [discriminate Hin |]). done.
  - specialize (Hin "s"%char ltac:(cbn; tauto)). cbn in Hin.
    repeat (destruct Hin as [Hin | Hin]; [discriminate Hin |]). done.
Qed.

Lemma snprintf_info n old : (4 < n)%nat -> snprintf n "info" old = "info"%string.
Proof.
  intros Hn. destruct n as [| k]; [lia |]. cbn [snprintf].
  apply substring_all. cbn. lia.
Qed.

(** ** The images of the records *)

Lemma byte_of_Z_to_N z : Z.of_N (Byte.to_N (byte_of_Z z)) = z mod 256.
Proof.
  unfold byte_of_Z.
  assert (Hm : 0 <= z mod 256 < 256) by (apply Z.mod_pos_bound; lia).
  destruct (Byte.of_N (Z.to_N (z mod 256))) as [b |] eqn:Hb.
  - apply Byte.to_of_N in Hb. rewrite Hb. lia.
  - apply Byte.of_N_None_iff in Hb. lia.
Qed.

Lemma le_encode_length n : forall z, length (le_encode n z) = n.
Proof. induction n as [| n IH]; intros z; cbn; [done | by rewrite IH]. Qed.

Lemma le_decode_encode n : forall z,
  le_decode (le_encode n z) = z mod 256 ^ Z.of_nat n.
Proof.
  induction n as [| n IH]; intros z.
  - cbn. by rewrite Z.mod_1_r.
  - cbn [le_encode le_decode]. rewrite byte_of_Z_to_N, IH.
    rewrite Nat2Z.inj_succ, Z.pow_succ_r by lia.
    rewrite Z.rem_mul_r; [done | lia |]. apply Z.pow_pos_nonneg; lia.
Qed.

(** Decoding the image of the statistics gives the counters back. *)
Lemma stats_of_bytes_of_stats s :
  uint64 (read_count s) -> uint64 (prog_count s) -> uint64 (erase_count s) ->
  stats_of_bytes (bytes_of_stats s) = s.
Proof.
  intros Hr Hp He. unfold stats_of_bytes, bytes_of_stats.
  rewrite take_app_length' by (by rewrite le_encode_length).
  rewrite (drop_app_length' _ _ 8) by (by rewrite le_encode_length).
  rewrite take_app_length' by (by rewrite le_encode_length).
  replace (drop 16 _) with (le_encode 8 (erase_count s)).
  2:{ rewrite app_assoc. rewrite drop_app_length'; [done |].
      by rewrite length_app, !le_encode_length. }
  rewrite (take_ge (le_encode 8 (erase_count s)))
    by (rewrite le_encode_length; lia).
  rewrite !le_decode_encode. change (256 ^ Z.of_nat 8) with (2 ^ 64).
  unfold uint64 in *. rewrite !Z.mod_small by lia. by destruct s.
Qed.

Lemma bytes_of_stats_length s : length (bytes_of_stats s) = sizeof_stats.
Proof. unfold bytes_of_stats. by rewrite !length_app, !le_encode_length. Qed.

Lemma bytes_of_info_length i : length (bytes_of_info i) = sizeof_info.
Proof.
  unfold bytes_of_info.
  by rewrite !length_app, !le_encode_length, length_replicate.
Qed.

(** ** Writing the records *)

(** One record on any host: only the entry of the record changes; a
    failure gives a negative code, and success leaves exactly the image in
    the artifact and the table of streams as it was. *)
Lemma sync_record_any h name image size :
  length image = size -> (0 < size)%nat ->
  exists r h',
    sync_record h name image size = Returned (r, h')
    /\ (forall n, n <> name -> entries h' !! n = entries h !! n)
    /\ match r with
       | Some e => e < 0
       | None => entries h' !! name = Some (RegFile image)
                 /\ streams h' = streams h
       end.
Proof.
  intros Hlen Hsize. unfold sync_record, fopen.
  destruct (next_fault h) as [flt h0] eqn:Hn.
  pose proof (next_fault_entries _ _ _ Hn) as He0.
  apply next_fault_streams in Hn as (Hs0 & Hd0 & _).
  assert (Hfail : forall (hx : host) e, 0 < e ->
    entries hx = entries h ->
    exists r h',
      Returned (Some (- errno (set_errno hx e)), set_errno hx e)
      = Returned (r, h')
      /\ (forall n, n <> name -> entries h' !! n = entries h !! n)
      /\ match r with
         | Some e => e < 0
         | None => entries h' !! name = Some (RegFile image)
                   /\ streams h' = streams h
         end).
  { intros hx e He Hx. eexists _, _. split; [done |]. split.
    - intros n _. unfold entries in *. cbn. by rewrite Hx.
    - cbn. lia. }
  destruct flt as [e |]; cbn [is_null]; [by apply Hfail |].
  destruct (dir h0) as [d0 |] eqn:Hdir0; cbn [is_null]; [| by apply Hfail].
  assert (Hent : entries h = d0) by (by rewrite <- He0; unfold entries; rewrite Hdir0).
  destruct (d0 !! name) as [[c |] |] eqn:Hl; cbn [is_null open_stream];
    [| by apply Hfail |].
  all: set (f := fresh (dom _));
    set (h1 := set_streams _ _);
    unfold fwrite, get_stream; cbn [mbind outcome_bind];
    subst h1; cbn [streams set_streams set_dir];
    rewrite lookup_insert_eq; cbn [mbind outcome_bind];
    match goal with |- context [next_fault ?hh] =>
      destruct (next_fault hh) as [flt1 h1] eqn:Hn1 end;
    pose proof (next_fault_entries _ _ _ Hn1) as He1;
    apply next_fault_streams in Hn1 as (Hs1 & Hd1 & _);
    cbn [dir streams set_streams set_dir] in Hs1, Hd1.
  all: destruct flt1 as [e1 |].
  all: try (cbn [mbind outcome_bind]; rewrite Z.div_small by lia;
            cbn [Z.ltb Z.compare];
            eexists _, _; split; [done |]; split;
            [ intros n Hne; unfold entries at 1; cbn [dir set_errno];
              rewrite Hd1, lookup_insert_ne by done; by rewrite Hent
            | cbn; lia ]).
  all: rewrite Hd1; cbn [mbind outcome_bind s_name s_pos];
    rewrite Hlen, Z.div_same by lia; cbn [Z.ltb Z.compare Pos.compare Pos.compare_cont];
    unfold fclose, get_stream; host_simpl;
    rewrite lookup_insert_eq; cbn [mbind outcome_bind];
    match goal with |- context [next_fault ?hh] =>
      destruct (next_fault hh) as [flt2 h2] eqn:Hn2 end;
    pose proof (next_fault_entries _ _ _ Hn2) as He2;
    apply next_fault_streams in Hn2 as (Hs2 & Hd2 & _);
    cbn [dir streams] in Hs2, Hd2;
    idtac.
  all: assert (Hfc : file_content h1 name = Some [])
    by (unfold file_content; rewrite He1; unfold entries;
        cbn [dir set_streams set_dir]; by rewrite lookup_insert_eq).
  all: rewrite Hfc in Hd2; cbn [default] in Hd2.
  all: assert (Himg : pwrite (Z.to_nat 0) image (id []) = image)
    by (unfold pwrite; destruct image; [cbn in Hlen; lia |];
        cbn; by rewrite app_nil_r).
  all: rewrite Himg in Hd2.
  all: destruct flt2 as [e2 |]; cbn [mbind outcome_bind Z.eqb negb];
    eexists _, _; (split; [done |]); rewrite Hent; unfold entries;
    cbn [dir streams errno]; rewrite Hd2;
    (split; [intros n Hne; by rewrite !lookup_insert_ne by done |]).
  all: try lia.
  all: rewrite lookup_insert_eq; split; [done |].
  all: rewrite Hs2, Hs1, !delete_insert_eq, <- Hs0; apply delete_id;
    exact (fresh_stream (streams h0)).
Qed.

(** One record on a host without faults: the artifact is created or
    replaced by the image, and nothing else of the host changes. *)
Lemma sync_record_quiet h name image size d :
  faults h = [] -> dir h = Some d -> d !! name <> Some Directory ->
  length image = size -> (0 < size)%nat ->
  sync_record h name image size
  = Returned (None, set_dir h (Some (<[name := RegFile image]> d))).
Proof.
  intros Hq Hd Hnd Hlen Hsize.
  destruct (sync_record_any h name image size Hlen Hsize)
    as (r & h' & Heq & _ & _).
  rewrite Heq. revert Heq. unfold sync_record.
  rewrite (fopen_quiet h Hq name Mode_wplus d Hd).
  assert (Hopen : match d !! name with
                  | Some (RegFile _) | None =>
                      open_stream (set_dir h (Some (<[name:=RegFile []]> d))) name
                  | Some Directory => (None, set_errno h EISDIR)
                  end
                  = open_stream (set_dir h (Some (<[name:=RegFile []]> d))) name).
  { by destruct (d !! name) as [[c |] |]. }
  rewrite Hopen. clear Hopen. unfold open_stream. cbn [is_null].
  set (f := fresh (dom _)).
  erewrite fwrite_quiet; [| done | apply lookup_insert_eq | done].
  cbn [mbind outcome_bind s_name s_pos].
  rewrite Hlen, Z.div_same by lia.
  cbn [Z.ltb Z.compare Pos.compare Pos.compare_cont].
  erewrite fclose_quiet; [| done | apply lookup_insert_eq].
  cbn [mbind outcome_bind Z.eqb negb]. intros [= <- <-].
  do 2 f_equal. host_simpl.
  rewrite insert_insert_eq, !delete_insert_eq.
  rewrite delete_id by exact (fresh_stream (streams h)).
  unfold file_content, entries. cbn [dir]. rewrite lookup_insert_eq.
  assert (Himg : pwrite (Z.to_nat 0) image (default [] (Some [])) = image)
    by (unfold pwrite; destruct image; [cbn in Hlen; lia |];
        cbn; by rewrite app_nil_r).
  by rewrite Himg.
Qed.

Section Sync.

Variable cfg : lfs_config.
Hypothesis Hname : (5 < LFS_NAME_MAX cfg)%nat.

(** [lfs_emubd_sync] on any host: it returns, touches no entry other than
    "info" and "stats", and a return of 0 means that both records are in
    place and no stream is left open. *)
Lemma lfs_emubd_sync_any emu h :
  exists r emu' h',
    lfs_emubd_sync cfg emu h = Returned (r, emu', h')
    /\ path emu' = path emu /\ info emu' = info emu /\ stats emu' = stats emu
    /\ (forall n, n <> "info"%string -> n <> "stats"%string ->
                  entries h' !! n = entries h !! n)
    /\ (r < 0
        \/ r = 0
           /\ entries h' !! "info"%string
              = Some (RegFile (bytes_of_info (info emu)))
           /\ entries h' !! "stats"%string
              = Some (RegFile (bytes_of_stats (stats emu)))
           /\ streams h' = streams h).
Proof using Hname.
  unfold lfs_emubd_sync.
  rewrite snprintf_info by lia. cbn [child set_child info stats].
  destruct (sync_record_any h "info" (bytes_of_info (info emu)) sizeof_info
              (bytes_of_info_length _) ltac:(unfold sizeof_info; lia))
    as (r1 & h1 & -> & Hfr1 & Hr1).
  cbn [mbind outcome_bind]. destruct r1 as [e1 |].
  { eexists _, _, _. split; [done |]. repeat split; try done.
    - intros n Hn _. by apply Hfr1.
    - by left. }
  destruct Hr1 as [Hinfo Hst1].
  rewrite snprintf_stats by lia. cbn [child set_child info stats].
  destruct (sync_record_any h1 "stats" (bytes_of_stats (stats emu)) sizeof_stats
              (bytes_of_stats_length _) ltac:(unfold sizeof_stats; lia))
    as (r2 & h2 & -> & Hfr2 & Hr2).
  cbn [mbind outcome_bind].
  assert (Hfr : forall n, n <> "info"%string -> n <> "stats"%string ->
                          entries h2 !! n = entries h !! n).
  { intros n Hn1 Hn2. rewrite Hfr2 by done. by apply Hfr1. }
  destruct r2 as [e2 |].
  { eexists _, _, _. split; [done |]. repeat split; try done. by left. }
  destruct Hr2 as [Hstats Hst2].
  eexists _, _, _. split; [done |]. repeat split; try done. right.
  repeat split; try done.
  - by rewrite Hfr2.
  - by rewrite Hst2.
Qed.

(** [lfs_emubd_sync] without faults, when neither name is a directory. *)
Lemma lfs_emubd_sync_quiet emu h d :
  faults h = [] -> dir h = Some d ->
  d !! "info"%string <> Some Directory ->
  d !! "stats"%string <> Some Directory ->
  lfs_emubd_sync cfg emu h
  = Returned (0, set_child emu "stats",
              set_dir h
                (Some (<["stats"%string := RegFile (bytes_of_stats (stats emu))]>
                         (<["info"%string := RegFile (bytes_of_info (info emu))]>
                            d)))).
Proof using Hname.
  intros Hq Hd Hi Hs. unfold lfs_emubd_sync.
  rewrite snprintf_info by lia. cbn [child set_child info stats].
  rewrite (sync_record_quiet h "info" _ sizeof_info d Hq Hd Hi
             (bytes_of_info_length _)) by (unfold sizeof_info; lia).
  cbn [mbind outcome_bind].
  rewrite snprintf_stats by lia. cbn [child set_child info stats].
  erewrite (sync_record_quiet _ "stats" _ sizeof_stats);
    [| done | done | | apply bytes_of_stats_length | unfold sizeof_stats; lia ].
  - cbn [mbind outcome_bind]. by host_simpl.
  - by rewrite lookup_insert_ne.
Qed.

(** After a synchronisation that returned 0, a creation that meets no
    fault returns 0 and has the counters of the synchronised handle. *)
Lemma sync_then_create emu h emu1 h1 emu2 base :
  uint64 (read_count (stats emu)) -> uint64 (prog_count (stats emu)) ->
  uint64 (erase_count (stats emu)) ->
  lfs_emubd_sync cfg emu h = Returned (0, emu1, h1) ->
  faults h1 = [] ->
  exists emu3 h3,
    lfs_emubd_create cfg emu2 h1 base = Returned (0, emu3, h3)
    /\ stats emu3 = stats emu /\ info emu3 = config_info cfg
    /\ path emu3 = base /\ entries h3 = entries h1.
Proof using Hname.
  intros Hr Hp He Hsync Hq.
  destruct (lfs_emubd_sync_any emu h)
    as (r & emu' & h' & Heq & _ & _ & _ & _ & Hres).
  rewrite Hsync in Heq. injection Heq as <- <- <-.
  destruct Hres as [Hneg | (_ & _ & Hstats & _)]; [lia |].
  destruct (dir h1) as [d1 |] eqn:Hd1.
  2:{ unfold entries in Hstats. by rewrite Hd1, lookup_empty in Hstats. }
  rewrite (entries_dir h1 d1 Hd1) in Hstats.
  rewrite (create_loads_stats cfg emu2 h1 d1 _ base Hname Hq Hd1 Hstats)
    by (by rewrite bytes_of_stats_length).
  eexists _, _. split; [done |]. cbn [stats info path].
  rewrite take_ge by (by rewrite bytes_of_stats_length).
  rewrite stats_of_bytes_of_stats by done. repeat split.
Qed.

End Sync.

(** ** What the operations leave alone, on any host *)

(** A read changes nothing on the host side of the directory; of the
    buffer it writes the first [size] bytes only. *)
Lemma lfs_emubd_read_frame cfg emu h block off size buffer r emu' h' out' :
  uint32 size ->
  lfs_emubd_read cfg emu h block off size buffer
  = Returned (r, emu', h', out') ->
  dir h' = dir h /\ path emu' = path emu
  /\ length out' = length buffer
  /\ forall i : nat, (Z.to_nat size <= i)%nat -> out' !! i = buffer !! i.
Proof.
  intros Hs. unfold lfs_emubd_read.
  destruct (read_size (info emu) =? 0); [done |].
  destruct (valid_access _ _ _ _ _); cbn [negb];
    [| by intros [= <- <- <- <-]].
  destruct (Nat.ltb_spec (length buffer) (Z.to_nat size)); [done |].
  destruct (read_loop _ _ _ _ _ _ _ _ _)
    as [[[[r1 emu1] h1] out1] | |] eqn:Hloop; [| done | done].
  apply read_loop_frame in Hloop as (Hd & Hp & Hl & Hb);
    [| done | rewrite memset0_length; lia].
  rewrite memset0_length in Hl by done.
  assert (Hout : forall i : nat, (Z.to_nat size <= i)%nat ->
                                 out1 !! i = buffer !! i).
  { intros i Hi. rewrite Hb by lia. rewrite memset0_lookup.
    case_decide; [lia | done]. }
  cbn [mbind outcome_bind]. by destruct r1; intros [= <- <- <- <-].
Qed.

(** A program changes no entry other than artifacts of blocks. *)
Lemma lfs_emubd_prog_frame cfg emu h block off size buffer r emu' h' :
  (8 < LFS_NAME_MAX cfg)%nat ->
  lfs_emubd_prog cfg emu h block off size buffer = Returned (r, emu', h') ->
  path emu' = path emu
  /\ forall n, (forall b, n <> sprintf_x b) ->
               entries h' !! n = entries h !! n.
Proof.
  intros Hname. unfold lfs_emubd_prog.
  destruct (prog_size (info emu) =? 0); [done |].
  destruct (valid_access _ _ _ _ _); cbn [negb];
    [| by intros [= <- <- <-]].
  destruct (prog_loop _ _ _ _ _ _ _ _ _)
    as [[[r1 emu1] h1] | |] eqn:Hloop; [| done | done].
  apply prog_loop_frame in Hloop; [| done].
  cbn [mbind outcome_bind]. by destruct r1; intros [= <- <- <-].
Qed.

(** An erase creates and rewrites nothing: an entry either stays as it
    was or is a regular artifact of a block that is gone afterwards. *)
Lemma lfs_emubd_erase_frame cfg emu h block off size r emu' h' :
  (8 < LFS_NAME_MAX cfg)%nat ->
  lfs_emubd_erase cfg emu h block off size = Returned (r, emu', h') ->
  path emu' = path emu
  /\ forall n,
       entries h' !! n = entries h !! n
       \/ (entries h' !! n = None
           /\ (exists c, entries h !! n = Some (RegFile c))
           /\ exists b, n = sprintf_x b).
Proof.
  intros Hname. unfold lfs_emubd_erase.
  destruct (erase_size (info emu) =? 0); [done |].
  destruct (valid_access _ _ _ _ _); cbn [negb].
  2:{ intros [= <- <- <-]. split; [done |]. intros n. by left. }
  destruct (erase_loop _ _ _ _ _ _ _)
    as [[[r1 emu1] h1] | |] eqn:Hloop; [| done | done].
  apply erase_loop_frame in Hloop; [| done].
  cbn [mbind outcome_bind]. by destruct r1; intros [= <- <- <-].
Qed.

(** ** The bytes a program leaves alone *)

(** Seen through a read, which takes zero where a file has no byte, a
    write changes nothing outside the bytes it writes. *)
Lemma pwrite_default pos src old (i : nat) :
  (i < pos \/ pos + length src <= i)%nat ->
  default zero (pwrite pos src old !! i) = default zero (old !! i).
Proof.
  intros Hout. destruct (decide (i < length old)%nat) as [Hin | Hpast].
  { by rewrite pwrite_lookup_out. }
  rewrite (lookup_ge_None_2 old i) by lia.
  unfold pwrite. destruct src as [| b src']; [by rewrite lookup_ge_None_2 by lia |].
  set (src := b :: src') in *.
  destruct (decide (i < pos)%nat) as [Hlt | Hge].
  - rewrite lookup_app_r by (rewrite length_take; lia).
    rewrite length_take, lookup_app_l by (rewrite length_replicate; lia).
    rewrite lookup_replicate_2; [done | lia].
  - assert (Hl : length (take pos old ++ replicate (pos - length old) zero)
                 = pos).
    { rewrite length_app, length_take, length_replicate. lia. }
    rewrite app_assoc, lookup_app_r by lia. rewrite Hl.
    rewrite lookup_app_r by lia. rewrite lookup_drop.
    by rewrite lookup_ge_None_2 by lia.
Qed.

Section ProgUntouched.

Variable cfg : lfs_config.
Hypothesis Hname : (8 < LFS_NAME_MAX cfg)%nat.

Lemma prog_loop_untouched fuel :
  forall emu h block off size data buffer d r emu' h',
  0 < erase_size (info emu) < 2 ^ 32 ->
  uint32 block -> uint32 off -> uint32 size ->
  faults h = [] -> dir h = Some d -> regular d ->
  (data + Z.to_nat size <= length buffer)%nat ->
  prog_loop cfg fuel emu h block off size data buffer
  = Returned (r, emu', h') ->
  forall b o, uint32 b -> 0 <= o ->
    (forall p, 0 <= p < size ->
               locate (erase_size (info emu)) block off p <> (b, o)) ->
    stored_byte (entries h') (b, o) = stored_byte d (b, o).
Proof using Hname.
  induction fuel as [| fuel IH];
    intros emu h block off size data buffer d r emu' h' He Hb Ho Hs Hq Hd
      Hreg Hlen.
  - cbn [prog_loop]. destruct (0 <? size); [done |].
    intros [= <- <- <-] b o _ _ _. by rewrite (entries_dir h d).
  - destruct (Z.le_gt_cases size 0) as [Hz | Hpos].
    { rewrite prog_loop_done by lia.
      intros [= <- <- <-] b o _ _ _. by rewrite (entries_dir h d). }
    rewrite prog_loop_step by lia. cbn zeta.
    set (es := erase_size (info emu)) in *.
    destruct (count_bounds es off size He Ho ltac:(lia)) as (Hc & Hc1 & Hc2).
    set (count := lfs_min (wrap32 (es - off)) size) in *.
    set (emu1 := set_child emu (sprintf_x block)).
    assert (Hsz : wrap32 (size - count) = size - count).
    { apply wrap32_small. unfold uint32 in *. lia. }
    destruct (prog_block_quiet emu1 h d off count data buffer)
      as (e & ->); try done; try lia.
    cbn [mbind outcome_bind]. rewrite Hsz.
    set (src := take (Z.to_nat count) (drop data buffer)).
    set (old := default [] (file_content h (child emu1))).
    set (d1 := <[child emu1 := RegFile (pwrite (Z.to_nat off) src old)]> d).
    assert (Hsrc : length src = Z.to_nat count).
    { unfold src. rewrite length_take, length_drop. lia. }
    intros Hloop b o Hbb Hoo Hout.
    assert (Hc0 : count <= wrap32 (es - off)).
    { unfold count. rewrite lfs_min_spec. lia. }
    assert (H0 : uint32 0) by (unfold uint32; lia).
    assert (Hrest : uint32 (size - count)) by (unfold uint32 in *; lia).
    assert (Hlen' : (data + Z.to_nat count + Z.to_nat (size - count)
                     <= length buffer)%nat) by lia.
    rewrite (IH emu1 (set_errno (set_dir h (Some d1)) e) (wrap32 (block + 1))
               0 (size - count) (data + Z.to_nat count)%nat buffer d1 r emu'
               h' He (wrap32_range _) H0 Hrest Hq eq_refl
               (regular_insert _ _ _ Hreg) Hlen' Hloop b o Hbb Hoo).
    + unfold stored_byte, d1. cbn [fst snd].
      change (child emu1) with (sprintf_x block).
      destruct (decide (sprintf_x b = sprintf_x block)) as [Heq | Hne];
        [| by rewrite lookup_insert_ne].
      apply sprintf_x_inj in Heq as ->; [| done | done].
      rewrite lookup_insert_eq. cbn [entry_byte].
      rewrite pwrite_default.
      * unfold old. rewrite (file_content_dir h d) by done.
        change (child emu1) with (sprintf_x block).
        destruct (d !! sprintf_x block) as [[c |] |] eqn:Hl; [done | |].
        -- by destruct (Hreg (sprintf_x block)).
        -- cbn. by rewrite lookup_nil.
      * rewrite Hsrc.
        destruct (Z.lt_ge_cases o off) as [Hlo | Hhi];
          [left; unfold uint32 in *; lia |].
        destruct (Z.lt_ge_cases o (off + count)) as [Hin | Hpast];
          [| right; unfold uint32 in *; lia].
        destruct (Hout (o - off) ltac:(lia)).
        rewrite locate_first by lia. f_equal. lia.
    + intros p Hp. change (erase_size (info emu1)) with es.
      specialize (Hout (p + count) ltac:(lia)).
      rewrite (locate_next es block off) in Hout by lia.
      replace (p + count - wrap32 (es - off)) with p in Hout by lia. done.
Qed.

End ProgUntouched.

(** A program on a host without faults succeeds, and every place that is
    not among the places of its bytes reads as it did before. *)
Lemma lfs_emubd_prog_untouched cfg emu h d block off size data :
  (8 < LFS_NAME_MAX cfg)%nat -> geometry_ok (info emu) ->
  uint32 block -> uint32 off -> uint32 size ->
  valid_access (prog_size (info emu)) (info emu) block off size = true ->
  faults h = [] -> dir h = Some d -> regular d ->
  (Z.to_nat size <= length data)%nat ->
  exists emu' h' d',
    lfs_emubd_prog cfg emu h block off size data = Returned (0, emu', h')
    /\ dir h' = Some d' /\ regular d'
    /\ forall b o, uint32 b -> 0 <= o ->
         (forall p, 0 <= p < size ->
                    locate (erase_size (info emu)) block off p <> (b, o)) ->
         stored_byte d' (b, o) = stored_byte d (b, o).
Proof.
  intros Hname (Hrs & Hps & Hes & Hts) Hb Ho Hs Hv Hq Hd Hreg Hlen.
  unfold lfs_emubd_prog.
  destruct (Z.eqb_spec (prog_size (info emu)) 0); [lia |].
  rewrite Hv. cbn [negb].
  destruct (prog_loop_quiet cfg Hname (S (Z.to_nat size)) emu h block off size
              0%nat data d)
    as (emu1 & h1 & d1 & Hloop & _ & _ & Hd1 & Hreg1 & _); try done.
  { destruct (off =? erase_size (info emu)); lia. }
  rewrite Hloop. cbn [mbind outcome_bind].
  eexists _, h1, d1. split; [done |]. split; [done |]. split; [done |].
  intros b o Hbb Hoo Hout.
  rewrite <- (entries_dir h1 d1 Hd1).
  assert (Hlen0 : (0 + Z.to_nat size <= length data)%nat) by lia.
  by apply (prog_loop_untouched cfg Hname (S (Z.to_nat size)) emu h block off
              size 0%nat data d None emu1 h1 Hes Hb Ho Hs Hq Hd Hreg Hlen0
              Hloop).
Qed.

(** ** Erase followed by other operations *)

(** An erase on a host without faults, with what it leaves of the host. *)
Lemma lfs_emubd_erase_quiet_host cfg emu h d block off size :
  (8 < LFS_NAME_MAX cfg)%nat -> geometry_ok (info emu) ->
  uint32 block -> uint32 off -> uint32 size ->
  valid_access (erase_size (info emu)) (info emu) block off size = true ->
  faults h = [] -> dir h = Some d ->
  exists emu' h' d',
    lfs_emubd_erase cfg emu h block off size = Returned (0, emu', h')
    /\ info emu' = info emu
    /\ dir h' = Some d' /\ streams h' = streams h /\ faults h' = []
    /\ (forall j, 0 <= j < size / erase_size (info emu) ->
          forall c, d' !! sprintf_x (wrap32 (block + j)) <> Some (RegFile c))
    /\ (forall name,
          (forall j, 0 <= j < size / erase_size (info emu) ->
                     name <> sprintf_x (wrap32 (block + j))) ->
          d' !! name = d !! name)
    /\ (forall name, d' !! name = d !! name \/ d' !! name = None).
Proof.
  intros Hname (Hrs & Hps & Hes & Hts) Hb Ho Hs Hv Hq Hd.
  unfold lfs_emubd_erase.
  destruct (Z.eqb_spec (erase_size (info emu)) 0); [lia |].
  rewrite Hv. cbn [negb].
  apply valid_access_true in Hv as (_ & Hsize & _);
    [| done | done | unfold uint32; lia | done | done].
  set (es := erase_size (info emu)) in *.
  assert (Hn : size = size / es * es).
  { rewrite (Z.div_mod size es) at 1 by lia. lia. }
  assert (0 <= size / es) by (apply Z.div_pos; unfold uint32 in *; lia).
  destruct (erase_loop_quiet cfg Hname (S (Z.to_nat size)) emu h block off
              (size / es) d)
    as (emu' & h' & d' & Hloop & Hst & Hin & Hd' & Hs' & Hq' & Hdel & Hfr);
    try done.
  { fold es. by rewrite <- Hn. }
  { assert (size / es <= size); [| lia].
    apply Z.div_le_upper_bound; unfold uint32 in *; nia. }
  fold es in Hloop. rewrite <- Hn in Hloop.
  pose proof (erase_loop_frame cfg Hname _ _ _ _ _ _ _ _ _ Hloop) as [_ Hany].
  rewrite Hloop.
  cbn [mbind outcome_bind]. eexists _, h', d'. split; [done |].
  repeat split; try done.
  intros name. specialize (Hany name).
  rewrite (entries_dir h' d'), (entries_dir h d) in Hany by done.
  destruct Hany as [-> | (-> & _)]; [by left | by right].
Qed.

(** Over the first [n] indices, a decidable property holds somewhere or
    nowhere. *)
Lemma bounded_search (P : Z -> Prop) (n : Z) :
  (forall j, P j \/ ~ P j) -> 0 <= n ->
  (exists j, 0 <= j < n /\ P j) \/ (forall j, 0 <= j < n -> ~ P j).
Proof.
  intros Hdec Hn. revert n Hn. apply natlike_ind.
  - right. intros j Hj. lia.
  - intros n Hn [(j & Hj & HP) | Hnone].
    + left. exists j. split; [lia | done].
    + destruct (Hdec n) as [HP | HnP].
      * left. exists n. split; [lia | done].
      * right. intros j Hj. destruct (Z.eq_dec j n) as [-> | Hne]; [done |].
        apply Hnone. lia.
Qed.

(** Erasing twice is erasing once: the second erase succeeds and finds
    nothing to remove. *)
Lemma erase_twice cfg emu h d block off size :
  (8 < LFS_NAME_MAX cfg)%nat -> geometry_ok (info emu) ->
  uint32 block -> uint32 off -> uint32 size ->
  valid_access (erase_size (info emu)) (info emu) block off size = true ->
  faults h = [] -> dir h = Some d ->
  exists emu1 h1 emu2 h2,
    lfs_emubd_erase cfg emu h block off size = Returned (0, emu1, h1)
    /\ lfs_emubd_erase cfg emu1 h1 block off size = Returned (0, emu2, h2)
    /\ dir h2 = dir h1.
Proof.
  intros Hname Hgeo Hb Ho Hs Hv Hq Hd.
  destruct (lfs_emubd_erase_quiet_host cfg emu h d block off size)
    as (emu1 & h1 & d1 & Hcall1 & Hin1 & Hd1 & _ & Hq1 & Hdel1 & _ & _);
    try done.
  destruct (lfs_emubd_erase_quiet_host cfg emu1 h1 d1 block off size)
    as (emu2 & h2 & d2 & Hcall2 & _ & Hd2 & _ & _ & _ & Hfr2 & _);
    try (by rewrite Hin1); try done.
  exists emu1, h1, emu2, h2. split; [done |]. split; [done |].
  rewrite Hd1, Hd2. f_equal. apply map_eq. intros name.
  rewrite Hin1 in Hfr2.
  apply lfs_emubd_erase_frame in Hcall2 as [_ Hany]; [| done].
  specialize (Hany name).
  rewrite (entries_dir h2 d2), (entries_dir h1 d1) in Hany by done.
  destruct Hany as [Hsame | (_ & (c & Hc) & _)]; [done |].
  assert (Hsize : 0 <= size / erase_size (info emu)).
  { destruct Hgeo as (_ & _ & Hes & _).
    apply Z.div_pos; unfold uint32 in *; lia. }
  destruct (bounded_search
              (fun j => name = sprintf_x (wrap32 (block + j)))
              (size / erase_size (info emu))) as [(j & Hj & ->) | Hnone];
    [| done | |].
  - intros j. destruct (decide (name = sprintf_x (wrap32 (block + j))));
      [by left | by right].
  - by destruct (Hdel1 j Hj c).
  - by apply Hfr2.
Qed.

(** After an erase, a read of the same region returns zeros. *)
Lemma erase_then_read cfg emu h d block size out :
  (8 < LFS_NAME_MAX cfg)%nat -> geometry_ok (info emu) ->
  uint32 block -> uint32 size ->
  valid_access (erase_size (info emu)) (info emu) block 0 size = true ->
  valid_access (read_size (info emu)) (info emu) block 0 size = true ->
  faults h = [] -> dir h = Some d -> regular d ->
  length out = Z.to_nat size ->
  exists emu1 h1 emu2 h2,
    lfs_emubd_erase cfg emu h block 0 size = Returned (0, emu1, h1)
    /\ lfs_emubd_read cfg emu1 h1 block 0 size out
       = Returned (0, emu2, h2, replicate (Z.to_nat size) zero).
Proof.
  intros Hname Hgeo Hb Hs Hve Hvr Hq Hd Hreg Hout.
  pose proof Hgeo as (Hrs & Hps & Hes & Hts).
  assert (H0 : uint32 0) by (unfold uint32; lia).
  destruct (lfs_emubd_erase_quiet_host cfg emu h d block 0 size)
    as (emu1 & h1 & d1 & Hcall1 & Hin1 & Hd1 & _ & Hq1 & Hdel1 & _ & Hsub);
    try done.
  assert (Hreg1 : regular d1).
  { intros name. destruct (Hsub name) as [-> | ->]; [apply Hreg | done]. }
  destruct (lfs_emubd_read_quiet cfg emu1 h1 d1 block 0 size out)
    as (emu2 & h2 & out2 & Hcall2 & _ & Hlen2 & Hbytes);
    try (by rewrite Hin1); try done; [lia |].
  exists emu1, h1, emu2, h2. split; [done |]. rewrite Hcall2.
  do 2 f_equal. apply list_eq. intros i.
  destruct (decide (i < Z.to_nat size)%nat) as [Hi | Hi].
  2:{ rewrite !lookup_ge_None_2; [done | rewrite length_replicate; lia | lia]. }
  rewrite lookup_replicate_2 by done.
  specialize (Hbytes (Z.of_nat i) ltac:(lia)). rewrite Nat2Z.id in Hbytes.
  rewrite Hbytes. cbn zeta. rewrite Hin1.
  set (es := erase_size (info emu)) in *.
  apply valid_access_true in Hve as (_ & Hsize & _);
    [| lia | done | unfold uint32; lia | done | done].
  rewrite locate_in_block by (unfold uint32 in *; lia). cbn [fst].
  rewrite (file_content_dir h1 d1) by done. rewrite Z.add_0_l.
  assert (Hj : 0 <= Z.of_nat i / es < size / es).
  { split; [apply Z.div_pos; lia |].
    apply Z.div_lt_upper_bound; [lia |].
    rewrite <- (proj2 (Z.div_exact size es ltac:(lia)) Hsize). lia. }
  specialize (Hdel1 _ Hj).
  destruct (d1 !! sprintf_x (wrap32 (block + Z.of_nat i / es))) as [[c |] |];
    [by destruct (Hdel1 c) | done | done].
Qed.

(** ** Creating, synchronising and destroying a device *)

Section Lifecycle.

Variable cfg : lfs_config.
Hypothesis Hname : (5 < LFS_NAME_MAX cfg)%nat.

(** Creation where the base directory is missing: the directory is made,
    and the call fails for want of the statistics. *)
Lemma create_missing_directory emu h base :
  faults h = [] -> dir h = None ->
  lfs_emubd_create cfg emu h base
  = Returned (- ENOENT,
              {| path := base; child := "stats"; stats := zero_stats;
                 info := config_info cfg |},
              set_errno (set_dir h (Some ∅)) ENOENT).
Proof using Hname.
  intros Hq Hd. unfold lfs_emubd_create, malloc, mkdir.
  rewrite (next_fault_quiet h Hq). cbn [negb].
  rewrite (next_fault_quiet h Hq), Hd.
  cbn [negb Z.eqb andb].
  rewrite snprintf_stats by done. cbn [child set_child].
  rewrite (fopen_quiet (set_dir h (Some ∅)) Hq "stats" Mode_r ∅ eq_refl).
  rewrite lookup_empty. by cbn [is_null].
Qed.

(** [lfs_emubd_destroy] on any host: it returns, whatever becomes of the
    synchronisation, and touches no entry other than "info" and "stats". *)
Lemma lfs_emubd_destroy_any emu h :
  exists h',
    lfs_emubd_destroy cfg emu h = Returned h'
    /\ forall n, n <> "info"%string -> n <> "stats"%string ->
                 entries h' !! n = entries h !! n.
Proof using Hname.
  unfold lfs_emubd_destroy.
  destruct (lfs_emubd_sync_any cfg Hname emu h)
    as (r & emu' & h' & -> & _ & _ & _ & Hfr & _).
  cbn [mbind outcome_bind]. by exists h'.
Qed.

(** A device that is destroyed and created again has its counters. *)
Lemma destroy_then_create emu h d emu2 base :
  uint64 (read_count (stats emu)) -> uint64 (prog_count (stats emu)) ->
  uint64 (erase_count (stats emu)) ->
  faults h = [] -> dir h = Some d ->
  d !! "info"%string <> Some Directory ->
  d !! "stats"%string <> Some Directory ->
  exists h1 emu3 h3,
    lfs_emubd_destroy cfg emu h = Returned h1
    /\ lfs_emubd_create cfg emu2 h1 base = Returned (0, emu3, h3)
    /\ stats emu3 = stats emu /\ info emu3 = config_info cfg.
Proof using Hname.
  intros Hr Hp He Hq Hd Hi Hs.
  pose proof (lfs_emubd_sync_quiet cfg Hname emu h d Hq Hd Hi Hs) as Hsync.
  destruct (sync_then_create cfg Hname emu h _ _ emu2 base Hr Hp He Hsync Hq)
    as (emu3 & h3 & Hcreate & Hst & Hin & _).
  unfold lfs_emubd_destroy. rewrite Hsync. cbn [mbind outcome_bind].
  by eexists _, emu3, h3.
Qed.

(** The first life of a device: creation on a missing directory fails,
    a synchronisation of the handle it filled in writes the records, and
    the next creation succeeds with counters at zero. *)
Lemma create_sync_create emu h emu3 base :
  faults h = [] -> dir h = None ->
  exists emu1 h1 emu2 h2 emu4 h4,
    lfs_emubd_create cfg emu h base = Returned (- ENOENT, emu1, h1)
    /\ dir h1 = Some ∅
    /\ lfs_emubd_sync cfg emu1 h1 = Returned (0, emu2, h2)
    /\ lfs_emubd_create cfg emu3 h2 base = Returned (0, emu4, h4)
    /\ stats emu4 = zero_stats /\ info emu4 = config_info cfg.
Proof using Hname.
  intros Hq Hd. rewrite (create_missing_directory emu h base Hq Hd).
  set (emu1 := {| path := base; child := "stats"; stats := zero_stats;
                  info := config_info cfg |}).
  set (h1 := set_errno (set_dir h (Some ∅)) ENOENT).
  assert (Hsync := lfs_emubd_sync_quiet cfg Hname emu1 h1 ∅ Hq eq_refl
                     ltac:(by rewrite lookup_empty)
                     ltac:(by rewrite lookup_empty)).
  assert (Hz : uint64 0) by (unfold uint64; lia).
  destruct (sync_then_create cfg Hname emu1 h1 _ _ emu3 base Hz Hz Hz Hsync Hq)
    as (emu4 & h4 & Hcreate & Hst & Hin & _).
  eexists emu1, h1, _, _, emu4, h4. by repeat split.
Qed.

End Lifecycle.

(** ** A device whose base directory is missing *)

Lemma read_block_no_dir emu h off count data buffer :
  faults h = [] -> dir h = None ->
  read_block emu h off count data buffer
  = Returned (None, set_errno h ENOENT, buffer).
Proof.
  intros Hq Hd. unfold read_block, fopen.
  by rewrite (next_fault_quiet h Hq), Hd.
Qed.

Lemma prog_block_no_dir emu h off count data buffer :
  faults h = [] -> dir h = None ->
  prog_block emu h off count data buffer
  = Returned (Some (- ENOENT), set_errno (set_errno h ENOENT) ENOENT).
Proof.
  intros Hq Hd. unfold prog_block, fopen.
  rewrite (next_fault_quiet h Hq), Hd. cbn [is_null errno set_errno andb].
  rewrite Z.eqb_refl.
  rewrite (next_fault_quiet (set_errno h ENOENT) Hq). cbn [dir set_errno].
  by rewrite Hd.
Qed.

Lemma erase_block_no_dir emu h :
  faults h = [] -> dir h = None ->
  erase_block emu h = (None, set_errno h ENOENT).
Proof.
  intros Hq Hd. unfold erase_block. rewrite (stat_quiet h Hq).
  unfold entries. by rewrite Hd, lookup_empty.
Qed.

Section NoDirectory.

Variable cfg : lfs_config.

Lemma read_loop_no_dir fuel : forall emu h block off size data buffer,
  0 < erase_size (info emu) < 2 ^ 32 -> uint32 off -> uint32 size ->
  faults h = [] -> dir h = None ->
  (Z.to_nat size + (if (off =? erase_size (info emu))%Z then 1 else 0)
   <= fuel)%nat ->
  exists emu' h',
    read_loop cfg fuel emu h block off size data buffer
    = Returned (None, emu', h', buffer)
    /\ stats emu' = stats emu /\ faults h' = [] /\ dir h' = None
    /\ streams h' = streams h.
Proof.
  induction fuel as [| fuel IH]; intros emu h block off size data buffer
    He Ho Hs Hq Hd Hfuel; cbn [read_loop]; destruct (Z.ltb_spec 0 size);
    try (by eexists _, _); [exfalso; lia |].
  set (emu1 := set_child emu _).
  set (count := lfs_min _ size).
  rewrite read_block_no_dir by done. cbn [mbind outcome_bind].
  destruct (count_bounds (erase_size (info emu1)) off size He Ho ltac:(lia))
    as (Hc & Hc1 & _). fold count in Hc, Hc1.
  rewrite (wrap32_small (size - count)) by (unfold uint32 in *; lia).
  destruct (IH emu1 (set_errno h ENOENT) (wrap32 (block + 1)) 0 (size - count)
              (data + Z.to_nat count)%nat buffer)
    as (emu' & h' & -> & Hst & Hq' & Hd' & Hs'); try done;
    try (unfold uint32 in *; lia).
  - change (erase_size (info emu1)) with (erase_size (info emu)).
    destruct (Z.eqb_spec 0 (erase_size (info emu))); [lia |].
    destruct (Z.eqb_spec off (erase_size (info emu))); [lia |].
    specialize (Hc1 ltac:(done)). lia.
  - by exists emu', h'.
Qed.

Lemma erase_loop_no_dir fuel : forall emu h block off n,
  0 < erase_size (info emu) < 2 ^ 32 ->
  0 <= n -> uint32 (n * erase_size (info emu)) ->
  faults h = [] -> dir h = None -> (Z.to_nat n <= fuel)%nat ->
  exists emu' h',
    erase_loop cfg fuel emu h block off (n * erase_size (info emu))
    = Returned (None, emu', h')
    /\ stats emu' = stats emu /\ dir h' = None.
Proof.
  induction fuel as [| fuel IH]; intros emu h block off n He Hn Hs Hq Hd Hfuel;
    cbn [erase_loop];
    destruct (Z.ltb_spec 0 (n * erase_size (info emu)));
    try (by eexists _, _); [exfalso; nia |].
  set (emu1 := set_child emu _).
  rewrite erase_block_no_dir by done.
  change (erase_size (info emu1)) with (erase_size (info emu)).
  set (es := erase_size (info emu)) in *.
  assert (Hsz : wrap32 (n * es - es) = (n - 1) * es).
  { rewrite wrap32_small; [lia |]. unfold uint32 in *. nia. }
  rewrite Hsz.
  destruct (IH emu1 (set_errno h ENOENT) (wrap32 (block + 1)) 0 (n - 1))
    as (emu' & h' & Hloop & Hst & Hd'); try done; try nia.
  { change (erase_size (info emu1)) with es. unfold uint32 in *. nia. }
  change (erase_size (info emu1)) with es in Hloop. rewrite Hloop.
  by exists emu', h'.
Qed.

(** Without the base directory and without faults, a read that passes the
    validity test returns 0 with zeros, an erase returns 0, and a program
    of at least one byte fails with [-ENOENT]; the directory is not made. *)
Lemma operations_without_directory emu h block off size buffer :
  geometry_ok (info emu) -> uint32 block -> uint32 off -> uint32 size ->
  faults h = [] -> dir h = None ->
  (valid_access (read_size (info emu)) (info emu) block off size = true ->
   (Z.to_nat size <= length buffer)%nat ->
   exists emu' h',
     lfs_emubd_read cfg emu h block off size buffer
     = Returned (0, emu', h', memset0 (Z.to_nat size) buffer)
     /\ dir h' = None)
  /\ (valid_access (prog_size (info emu)) (info emu) block off size = true ->
      0 < size ->
      exists emu' h',
        lfs_emubd_prog cfg emu h block off size buffer
        = Returned (- ENOENT, emu', h')
        /\ dir h' = None /\ stats emu' = stats emu)
  /\ (valid_access (erase_size (info emu)) (info emu) block off size = true ->
      exists emu' h',
        lfs_emubd_erase cfg emu h block off size = Returned (0, emu', h')
        /\ dir h' = None).
Proof.
  intros (Hrs & Hps & Hes & Hts) Hb Ho Hs Hq Hd. repeat split.
  - intros Hv Hlen. unfold lfs_emubd_read.
    destruct (Z.eqb_spec (read_size (info emu)) 0); [lia |].
    rewrite Hv. cbn [negb].
    destruct (Nat.ltb_spec (length buffer) (Z.to_nat size)); [lia |].
    destruct (read_loop_no_dir (S (Z.to_nat size)) emu h block off size 0%nat
                (memset0 (Z.to_nat size) buffer))
      as (emu' & h' & -> & _ & _ & Hd' & _); try done.
    { destruct (off =? erase_size (info emu)); lia. }
    cbn [mbind outcome_bind]. by eexists _, _.
  - intros Hv Hpos. unfold lfs_emubd_prog.
    destruct (Z.eqb_spec (prog_size (info emu)) 0); [lia |].
    rewrite Hv. cbn [negb prog_loop].
    destruct (Z.ltb_spec 0 size); [| lia].
    rewrite prog_block_no_dir by done. cbn [mbind outcome_bind].
    by eexists _, _.
  - intros Hv. unfold lfs_emubd_erase.
    destruct (Z.eqb_spec (erase_size (info emu)) 0); [lia |].
    rewrite Hv. cbn [negb].
    apply valid_access_true in Hv as (_ & Hsize & _);
      [| done | done | unfold uint32; lia | done | done].
    set (es := erase_size (info emu)) in *.
    assert (Hn : size = size / es * es).
    { rewrite (Z.div_mod size es) at 1 by lia. lia. }
    assert (0 <= size / es) by (apply Z.div_pos; unfold uint32 in *; lia).
    destruct (erase_loop_no_dir (S (Z.to_nat size)) emu h block off (size / es))
      as (emu' & h' & Hloop & _ & Hd'); try done.
    { fold es. by rewrite <- Hn. }
    { assert (size / es <= size); [| lia].
      apply Z.div_le_upper_bound; unfold uint32 in *; nia. }
    fold es in Hloop. rewrite <- Hn in Hloop. rewrite Hloop.
    cbn [mbind outcome_bind]. by eexists _, _.
Qed.

End NoDirectory.

(** ** The error codes *)

(** An error of the walk is the negated [errno] of the host at the moment
    of the return. *)
Lemma read_block_code emu h off count data buffer e h' buffer' :
  read_block emu h off count data buffer = Returned (Some e, h', buffer') ->
  e = - errno h'.
Proof.
  unfold read_block. destruct (fopen h (child emu) Mode_r) as [f h1].
  destruct (is_null f && negb (errno h1 =? ENOENT));
    [by intros [= <- <- <-] |].
  destruct (is_null f); [done |].
  destruct (fseek h1 f off) as [[err h2] | |]; cbn [mbind outcome_bind];
    [| done | done].
  destruct (negb (err =? 0)); [by intros [= <- <- <-] |].
  destruct (fread h2 f count) as [[got h3] | |]; cbn [mbind outcome_bind];
    [| done | done].
  destruct (feof h3 f) as [eof | |]; cbn [mbind outcome_bind];
    [| done | done].
  destruct ((Z.of_nat (length got) <? count) && negb eof);
    [by intros [= <- <- <-] |].
  destruct (fclose h3 f) as [[err' h4] | |]; cbn [mbind outcome_bind];
    [| done | done].
  by destruct (negb (err' =? 0)); intros [= <- <- <-].
Qed.

Lemma prog_block_code emu h off count data buffer e h' :
  prog_block emu h off count data buffer = Returned (Some e, h') ->
  e = - errno h'.
Proof.
  unfold prog_block. destruct (fopen h (child emu) Mode_rplus) as [f h1].
  assert (Hrest : forall f h1,
    ('(err, h) ← fseek h1 f off;
     if negb (err =? 0) then Returned (Some (- errno h), h) else
     if (length buffer <? data + Z.to_nat count)%nat then Undefined else
     '(res, h) ← fwrite h f (take (Z.to_nat count) (drop data buffer));
     if res <? count then Returned (Some (- errno h), h) else
     '(err, h) ← fclose h f;
     if negb (err =? 0) then Returned (Some (- errno h), h) else
     Returned (None, h)) = Returned (Some e, h') -> e = - errno h').
  { clear. intros f h1.
    destruct (fseek h1 f off) as [[err h2] | |]; cbn [mbind outcome_bind];
      [| done | done].
    destruct (negb (err =? 0)); [by intros [= <- <-] |].
    destruct (length buffer <? data + Z.to_nat count)%nat; [done |].
    destruct (fwrite h2 f _) as [[res h3] | |]; cbn [mbind outcome_bind];
      [| done | done].
    destruct (res <? count); [by intros [= <- <-] |].
    destruct (fclose h3 f) as [[err' h4] | |]; cbn [mbind outcome_bind];
      [| done | done].
    by destruct (negb (err' =? 0)); intros [= <- <-]. }
  destruct (is_null f && (errno h1 =? ENOENT)); [| apply Hrest].
  destruct (fopen h1 (child emu) Mode_wplus) as [f2 h2].
  destruct (is_null f2); [by intros [= <- <-] | apply Hrest].
Qed.

Lemma erase_block_code emu h e h' :
  erase_block emu h = (Some e, h') -> e = - errno h'.
Proof.
  unfold erase_block. destruct (stat h (child emu)) as [[err isreg] h1].
  destruct (negb (err =? 0) && negb (errno h1 =? ENOENT));
    [by intros [= <- <-] |].
  destruct ((err =? 0) && isreg); [| done].
  destruct (unlink h1 (child emu)) as [err' h2].
  by destruct (negb (err' =? 0)); intros [= <- <-].
Qed.

Lemma sync_record_code h name image size e h' :
  sync_record h name image size = Returned (Some e, h') -> e = - errno h'.
Proof.
  unfold sync_record. destruct (fopen h name Mode_wplus) as [f h1].
  destruct (is_null f); [by intros [= <- <-] |].
  destruct (fwrite h1 f image) as [[n h2] | |]; cbn [mbind outcome_bind];
    [| done | done].
  destruct (n / Z.of_nat size <? 1); [by intros [= <- <-] |].
  destruct (fclose h2 f) as [[err h3] | |]; cbn [mbind outcome_bind];
    [| done | done].
  by destruct (negb (err =? 0)); intros [= <- <-].
Qed.

Section Codes.

Variable cfg : lfs_config.

Lemma read_loop_code fuel : forall emu h block off size data buffer e emu' h' out',
  read_loop cfg fuel emu h block off size data buffer
  = Returned (Some e, emu', h', out') ->
  e = - errno h'.
Proof.
  induction fuel as [| fuel IH];
    intros emu h block off size data buffer e emu' h' out';
    cbn [read_loop]; destruct (0 <? size); try done.
  destruct (read_block _ _ _ _ _ _) as [[[r1 h1] buffer1] | |] eqn:Hblk;
    [| done | done].
  cbn [mbind outcome_bind]. destruct r1 as [e1 |]; [| apply IH].
  intros [= <- <- <- <-]. by apply read_block_code in Hblk.
Qed.

Lemma prog_loop_code fuel : forall emu h block off size data buffer e emu' h',
  prog_loop cfg fuel emu h block off size data buffer
  = Returned (Some e, emu', h') ->
  e = - errno h'.
Proof.
  induction fuel as [| fuel IH];
    intros emu h block off size data buffer e emu' h';
    cbn [prog_loop]; destruct (0 <? size); try done.
  destruct (prog_block _ _ _ _ _ _) as [[r1 h1] | |] eqn:Hblk;
    [| done | done].
  cbn [mbind outcome_bind]. destruct r1 as [e1 |]; [| apply IH].
  intros [= <- <- <-]. by apply prog_block_code in Hblk.
Qed.

Lemma erase_loop_code fuel : forall emu h block off size e emu' h',
  erase_loop cfg fuel emu h block off size = Returned (Some e, emu', h') ->
  e = - errno h'.
Proof.
  induction fuel as [| fuel IH]; intros emu h block off size e emu' h';
    cbn [erase_loop]; destruct (0 <? size); try done.
  destruct (erase_block _ _) as [r1 h1] eqn:Hblk.
  destruct r1 as [e1 |]; [| apply IH].
  intros [= <- <- <-]. by apply erase_block_code in Hblk.
Qed.

(** Whatever a read, a program, an erase or a synchronisation returns is
    0, [-EINVAL] from the validity test, or the negated [errno] of the
    host. *)
Lemma return_codes emu h block off size buffer :
  (forall r emu' h' out',
     lfs_emubd_read cfg emu h block off size buffer
     = Returned (r, emu', h', out') ->
     r = 0 \/ r = - EINVAL /\ h' = h \/ r = - errno h')
  /\ (forall r emu' h',
        lfs_emubd_prog cfg emu h block off size buffer
        = Returned (r, emu', h') ->
        r = 0 \/ r = - EINVAL /\ h' = h \/ r = - errno h')
  /\ (forall r emu' h',
        lfs_emubd_erase cfg emu h block off size = Returned (r, emu', h') ->
        r = 0 \/ r = - EINVAL /\ h' = h \/ r = - errno h')
  /\ (forall r emu' h',
        lfs_emubd_sync cfg emu h = Returned (r, emu', h') ->
        r = 0 \/ r = - errno h').
Proof.
  repeat split.
  - intros r emu' h' out'. unfold lfs_emubd_read.
    destruct (read_size (info emu) =? 0); [done |].
    destruct (valid_access _ _ _ _ _); cbn [negb];
      [| intros [= <- <- <- <-]; right; by left].
    destruct (length buffer <? Z.to_nat size)%nat; [done |].
    destruct (read_loop _ _ _ _ _ _ _ _ _)
      as [[[[r1 emu1] h1] out1] | |] eqn:Hloop; [| done | done].
    cbn [mbind outcome_bind]. destruct r1 as [e |]; intros [= <- <- <- <-];
      [| by left].
    right; right. by apply read_loop_code in Hloop.
  - intros r emu' h'. unfold lfs_emubd_prog.
    destruct (prog_size (info emu) =? 0); [done |].
    destruct (valid_access _ _ _ _ _); cbn [negb];
      [| intros [= <- <- <-]; right; by left].
    destruct (prog_loop _ _ _ _ _ _ _ _ _)
      as [[[r1 emu1] h1] | |] eqn:Hloop; [| done | done].
    cbn [mbind outcome_bind]. destruct r1 as [e |]; intros [= <- <- <-];
      [| by left].
    right; right. by apply prog_loop_code in Hloop.
  - intros r emu' h'. unfold lfs_emubd_erase.
    destruct (erase_size (info emu) =? 0); [done |].
    destruct (valid_access _ _ _ _ _); cbn [negb];
      [| intros [= <- <- <-]; right; by left].
    destruct (erase_loop _ _ _ _ _ _ _)
      as [[[r1 emu1] h1] | |] eqn:Hloop; [| done | done].
    cbn [mbind outcome_bind]. destruct r1 as [e |]; intros [= <- <- <-];
      [| by left].
    right; right. by apply erase_loop_code in Hloop.
  - intros r emu' h'. unfold lfs_emubd_sync.
    destruct (sync_record h _ _ _) as [[r1 h1] | |] eqn:Hrec1;
      cbn [mbind outcome_bind]; [| done | done].
    destruct r1 as [e1 |].
    { intros [= <- <- <-]. right. by apply sync_record_code in Hrec1. }
    destruct (sync_record h1 _ _ _) as [[r2 h2] | |] eqn:Hrec2;
      cbn [mbind outcome_bind]; [| done | done].
    destruct r2 as [e2 |]; intros [= <- <- <-]; [| by left].
    right. by apply sync_record_code in Hrec2.
Qed.

End Codes.

(** * Properties of the code beyond the specification *)

(** X1.  The validity test is exact.  For 32-bit arguments and a non-zero
    granularity, the 64-bit computation of the end address never wraps
    around, so the test accepts an access exactly when offset and size are
    multiples of the granularity and the mathematical end address
    [block * erase_size + off + size] is strictly below [total_size]. *)
Theorem validity_test_exact gran i block off size :
  gran <> 0 -> uint32 block -> uint32 (erase_size i) -> uint32 off ->
  uint32 size ->
  valid_access gran i block off size = true <->
  off mod gran = 0 /\ size mod gran = 0
  /\ block * erase_size i + off + size < total_size i.
Proof. apply valid_access_true. Qed.

(** The last 16 bytes of the scenario device end at [total_size]. *)
Lemma validity_test_exact_witness :
  valid_access 16 (info scenario_emu) 3 496 16 = true <->
  496 mod 16 = 0 /\ 16 mod 16 = 0
  /\ 3 * erase_size (info scenario_emu) + 496 + 16
     < total_size (info scenario_emu).
Proof.
  apply (validity_test_exact 16 (info scenario_emu) 3 496 16).
  - lia.
  - unfold uint32. lia.
  - unfold uint32. by_evaluation.
  - unfold uint32. lia.
  - unfold uint32. lia.
Defined.

(** X2.  With room for eight digits in the child buffer, the names of the
    artifacts of two blocks are equal only if the blocks are the same
    32-bit index, and no block has the name of the "info" or the "stats"
    artifact. *)
Theorem block_names_distinct n a b old :
  (8 < n)%nat -> uint32 a -> uint32 b ->
  (snprintf n (sprintf_x a) old = snprintf n (sprintf_x b) old -> a = b)
  /\ snprintf n (sprintf_x a) old <> snprintf n "info" old
  /\ snprintf n (sprintf_x a) old <> snprintf n "stats" old.
Proof.
  intros Hn Ha Hb.
  rewrite !snprintf_block, snprintf_info, snprintf_stats by lia.
  split; [by apply sprintf_x_inj |]. apply sprintf_x_not_metadata.
Qed.

Lemma block_names_distinct_witness :
  (snprintf 255 (sprintf_x 10) EmptyString
   = snprintf 255 (sprintf_x 266) EmptyString -> 10 = 266)
  /\ snprintf 255 (sprintf_x 10) EmptyString
     <> snprintf 255 "info" EmptyString
  /\ snprintf 255 (sprintf_x 10) EmptyString
     <> snprintf 255 "stats" EmptyString.
Proof.
  apply (block_names_distinct 255 10 266 EmptyString).
  - lia.
  - unfold uint32. lia.
  - unfold uint32. lia.
Defined.

(** X3.  On every host, faults included, a read that returns, with
    whatever code, has left the directory and the geometry and path of the
    handle as they were; the buffer keeps its length, and the read has
    written at most its first [size] bytes. *)
Theorem read_changes_buffer_only cfg emu h block off size buffer r emu' h'
    out' :
  uint32 size ->
  lfs_emubd_read cfg emu h block off size buffer
  = Returned (r, emu', h', out') ->
  dir h' = dir h /\ path emu' = path emu /\ info emu' = info emu
  /\ length out' = length buffer
  /\ forall i : nat, (Z.to_nat size <= i)%nat -> out' !! i = buffer !! i.
Proof.
  intros Hs Hcall.
  pose proof (lfs_emubd_read_any _ _ _ _ _ _ _ _ _ _ _ Hcall) as (Hin & _).
  apply lfs_emubd_read_frame in Hcall as (Hd & Hp & Hl & Hb); [| done].
  by repeat split.
Qed.

(** A read of 16 bytes into a buffer of 32 whose [fread] fails. *)
Lemma read_changes_buffer_only_witness :
  exists r emu' h' out',
    lfs_emubd_read scenario_cfg scenario_emu
      (host_of block0 [None; None; Some 5%positive]) 0 0 16 (bb16 ++ bb16)
    = Returned (r, emu', h', out')
    /\ dir h' = dir (host_of block0 [None; None; Some 5%positive])
    /\ path emu' = path scenario_emu /\ info emu' = info scenario_emu
    /\ length out' = length (bb16 ++ bb16)
    /\ forall i : nat, (Z.to_nat 16 <= i)%nat ->
                       out' !! i = (bb16 ++ bb16) !! i.
Proof.
  eexists _, _, _, _. split; [reflexivity |].
  refine (read_changes_buffer_only scenario_cfg scenario_emu
            (host_of block0 [None; None; Some 5%positive]) 0 0 16
            (bb16 ++ bb16) _ _ _ _ _ _).
  - unfold uint32. lia.
  - reflexivity.
Defined.

(** X4.  On every host, faults included, a program that returns, with
    whatever code, has changed no entry of the directory other than
    artifacts of blocks: every entry whose name is not the hexadecimal
    name of a block is as it was, the "info" and "stats" artifacts among
    them; geometry and path of the handle are as they were. *)
Theorem prog_changes_block_artifacts_only cfg emu h block off size buffer r
    emu' h' :
  (8 < LFS_NAME_MAX cfg)%nat ->
  lfs_emubd_prog cfg emu h block off size buffer = Returned (r, emu', h') ->
  path emu' = path emu /\ info emu' = info emu
  /\ (forall n, (forall b, n <> sprintf_x b) ->
                entries h' !! n = entries h !! n)
  /\ entries h' !! "info"%string = entries h !! "info"%string
  /\ entries h' !! "stats"%string = entries h !! "stats"%string.
Proof.
  intros Hname Hcall.
  pose proof (lfs_emubd_prog_any _ _ _ _ _ _ _ _ _ _ Hcall) as (Hin & _).
  apply lfs_emubd_prog_frame in Hcall as (Hp & Hfr); [| done].
  repeat split; try done.
  - apply Hfr. intros b Heq. symmetry in Heq.
    by apply sprintf_x_not_metadata in Heq.
  - apply Hfr. intros b Heq. symmetry in Heq.
    by apply sprintf_x_not_metadata in Heq.
Qed.

(** A program of a missing block whose [fwrite] fails, beside the
    statistics artifact. *)
Lemma prog_changes_block_artifacts_only_witness :
  exists r emu' h',
    lfs_emubd_prog scenario_cfg scenario_emu
      (host_of stats_dir [None; None; None; Some 28%positive]) 0 0 16 bb16
    = Returned (r, emu', h')
    /\ path emu' = path scenario_emu /\ info emu' = info scenario_emu
    /\ (forall n, (forall b, n <> sprintf_x b) ->
          entries h' !! n
          = entries (host_of stats_dir [None; None; None; Some 28%positive])
              !! n)
    /\ entries h' !! "info"%string
       = entries (host_of stats_dir [None; None; None; Some 28%positive])
           !! "info"%string
    /\ entries h' !! "stats"%string
       = entries (host_of stats_dir [None; None; None; Some 28%positive])
           !! "stats"%string.
Proof.
  eexists _, _, _. split; [reflexivity |].
  refine (prog_changes_block_artifacts_only scenario_cfg scenario_emu
            (host_of stats_dir [None; None; None; Some 28%positive]) 0 0 16
            bb16 _ _ _ _ _).
  - cbn. lia.
  - reflexivity.
Defined.

(** X5.  On every host, faults included, an erase that returns, with
    whatever code, has created and rewritten nothing: each entry of the
    directory is as it was, or it was a regular artifact with the name of
    a block and is gone.  The erase opens no stream, and geometry and path
    of the handle are as they were. *)
Theorem erase_only_removes_block_artifacts cfg emu h block off size r emu'
    h' :
  (8 < LFS_NAME_MAX cfg)%nat ->
  lfs_emubd_erase cfg emu h block off size = Returned (r, emu', h') ->
  path emu' = path emu /\ info emu' = info emu /\ streams h' = streams h
  /\ forall n,
       entries h' !! n = entries h !! n
       \/ (entries h' !! n = None
           /\ (exists c, entries h !! n = Some (RegFile c))
           /\ exists b, n = sprintf_x b).
Proof.
  intros Hname Hcall.
  pose proof (lfs_emubd_erase_any _ _ _ _ _ _ _ _ _ Hcall) as (Hin & Hs & _).
  apply lfs_emubd_erase_frame in Hcall as (Hp & Hfr); [| done].
  by repeat split.
Qed.

(** An erase of two blocks whose second [unlink] fails. *)
Lemma erase_only_removes_block_artifacts_witness :
  exists r emu' h',
    lfs_emubd_erase scenario_cfg scenario_emu
      (host_of blocks01 [None; None; None; Some 13%positive]) 0 0 1024
    = Returned (r, emu', h')
    /\ path emu' = path scenario_emu /\ info emu' = info scenario_emu
    /\ streams h'
       = streams (host_of blocks01 [None; None; None; Some 13%positive])
    /\ forall n,
         entries h' !! n
         = entries (host_of blocks01 [None; None; None; Some 13%positive])
             !! n
         \/ (entries h' !! n = None
             /\ (exists c,
                   entries
                     (host_of blocks01 [None; None; None; Some 13%positive])
                     !! n = Some (RegFile c))
             /\ exists b, n = sprintf_x b).
Proof.
  eexists _, _, _. split; [reflexivity |].
  refine (erase_only_removes_block_artifacts scenario_cfg scenario_emu
            (host_of blocks01 [None; None; None; Some 13%positive]) 0 0 1024
            _ _ _ _ _).
  - cbn. lia.
  - reflexivity.
Defined.

(** X6.  With a positive geometry and a buffer of at least [size] bytes,
    a read and an erase return a code on every host, faults included:
    they never use a null or closed stream, and their loops end.  The
    loop of a program ends as well, within the same bound. *)
Theorem read_and_erase_always_return cfg emu h block off size buffer :
  geometry_ok (info emu) -> uint32 block -> uint32 off -> uint32 size ->
  (Z.to_nat size <= length buffer)%nat ->
  (exists r emu' h' out',
     lfs_emubd_read cfg emu h block off size buffer
     = Returned (r, emu', h', out'))
  /\ (exists r emu' h',
        lfs_emubd_erase cfg emu h block off size = Returned (r, emu', h'))
  /\ lfs_emubd_prog cfg emu h block off size buffer <> OutOfFuel.
Proof.
  intros Hgeo Hb Ho Hs Hlen. split; [| split].
  - by apply lfs_emubd_read_returns.
  - by apply lfs_emubd_erase_returns.
  - by apply lfs_emubd_prog_in_fuel.
Qed.

Lemma read_and_erase_always_return_witness :
  (exists r emu' h' out',
     lfs_emubd_read scenario_cfg scenario_emu
       (host_of blocks01 [Some 13%positive]) 0 496 32 (aa16 ++ bb16)
     = Returned (r, emu', h', out'))
  /\ (exists r emu' h',
        lfs_emubd_erase scenario_cfg scenario_emu
          (host_of blocks01 [Some 13%positive]) 0 496 32
        = Returned (r, emu', h'))
  /\ lfs_emubd_prog scenario_cfg scenario_emu
       (host_of blocks01 [Some 13%positive]) 0 496 32 (aa16 ++ bb16)
     <> OutOfFuel.
Proof.
  apply (read_and_erase_always_return scenario_cfg scenario_emu
           (host_of blocks01 [Some 13%positive]) 0 496 32 (aa16 ++ bb16)).
  - unfold geometry_ok. by_evaluation.
  - unfold uint32. lia.
  - unfold uint32. lia.
  - unfold uint32. lia.
  - cbn. lia.
Defined.

(** X7.  On a host without faults whose directory holds regular files
    only, a program that passes the validity test succeeds, over any
    number of blocks, and changes what a read sees at the places of its
    own bytes only: every other place (block, offset) reads as before. *)
Theorem prog_keeps_other_places cfg emu h d block off size data :
  (8 < LFS_NAME_MAX cfg)%nat -> geometry_ok (info emu) ->
  uint32 block -> uint32 off -> uint32 size ->
  valid_access (prog_size (info emu)) (info emu) block off size = true ->
  faults h = [] -> dir h = Some d -> regular d ->
  (Z.to_nat size <= length data)%nat ->
  exists emu' h' d',
    lfs_emubd_prog cfg emu h block off size data = Returned (0, emu', h')
    /\ dir h' = Some d' /\ regular d'
    /\ forall b o, uint32 b -> 0 <= o ->
         (forall p, 0 <= p < size ->
                    locate (erase_size (info emu)) block off p <> (b, o)) ->
         stored_byte d' (b, o) = stored_byte d (b, o).
Proof. apply lfs_emubd_prog_untouched. Qed.

(** A program of the last 16 bytes of block 0 and the first 16 of
    block 1. *)
Lemma prog_keeps_other_places_witness :
  exists emu' h' d',
    lfs_emubd_prog scenario_cfg scenario_emu (host_of blocks01 []) 0 496 32
      (bb16 ++ aa16)
    = Returned (0, emu', h')
    /\ dir h' = Some d' /\ regular d'
    /\ forall b o, uint32 b -> 0 <= o ->
         (forall p, 0 <= p < 32 ->
                    locate (erase_size (info scenario_emu)) 0 496 p
                    <> (b, o)) ->
         stored_byte d' (b, o) = stored_byte blocks01 (b, o).
Proof.
  apply (prog_keeps_other_places scenario_cfg scenario_emu
           (host_of blocks01 []) blocks01 0 496 32 (bb16 ++ aa16)).
  - cbn. lia.
  - unfold geometry_ok. by_evaluation.
  - unfold uint32. lia.
  - unfold uint32. lia.
  - unfold uint32. lia.
  - reflexivity.
  - reflexivity.
  - reflexivity.
  - apply regular_insert, regular_insert, regular_empty.
  - cbn. lia.
Defined.

(** X8.  On a host without faults whose directory holds regular files
    only, an erase at offset 0 followed by a read of the same region,
    both passing their validity tests, returns 0 twice, and the read fills
    the buffer with zeros. *)
Theorem read_after_erase_is_zero cfg emu h d block size out :
  (8 < LFS_NAME_MAX cfg)%nat -> geometry_ok (info emu) ->
  uint32 block -> uint32 size ->
  valid_access (erase_size (info emu)) (info emu) block 0 size = true ->
  valid_access (read_size (info emu)) (info emu) block 0 size = true ->
  faults h = [] -> dir h = Some d -> regular d ->
  length out = Z.to_nat size ->
  exists emu1 h1 emu2 h2,
    lfs_emubd_erase cfg emu h block 0 size = Returned (0, emu1, h1)
    /\ lfs_emubd_read cfg emu1 h1 block 0 size out
       = Returned (0, emu2, h2, replicate (Z.to_nat size) zero).
Proof. apply erase_then_read. Qed.

Lemma read_after_erase_is_zero_witness :
  exists emu1 h1 emu2 h2,
    lfs_emubd_erase scenario_cfg scenario_emu (host_of blocks01 []) 0 0 1024
    = Returned (0, emu1, h1)
    /\ lfs_emubd_read scenario_cfg emu1 h1 0 0 1024 (replicate 1024 Byte.xff)
       = Returned (0, emu2, h2, replicate (Z.to_nat 1024) zero).
Proof.
  apply (read_after_erase_is_zero scenario_cfg scenario_emu
           (host_of blocks01 []) blocks01 0 1024 (replicate 1024 Byte.xff)).
  - cbn. lia.
  - unfold geometry_ok. by_evaluation.
  - unfold uint32. lia.
  - unfold uint32. lia.
  - reflexivity.
  - reflexivity.
  - reflexivity.
  - reflexivity.
  - apply regular_insert, regular_insert, regular_empty.
  - reflexivity.
Defined.

(** X9.  On a host without faults, an erase that passes the validity test
    can be repeated: the second erase returns 0 as well and leaves the
    directory as the first one left it. *)
Theorem erase_is_idempotent cfg emu h d block off size :
  (8 < LFS_NAME_MAX cfg)%nat -> geometry_ok (info emu) ->
  uint32 block -> uint32 off -> uint32 size ->
  valid_access (erase_size (info emu)) (info emu) block off size = true ->
  faults h = [] -> dir h = Some d ->
  exists emu1 h1 emu2 h2,
    lfs_emubd_erase cfg emu h block off size = Returned (0, emu1, h1)
    /\ lfs_emubd_erase cfg emu1 h1 block off size = Returned (0, emu2, h2)
    /\ dir h2 = dir h1.
Proof. apply erase_twice. Qed.

Lemma erase_is_idempotent_witness :
  exists emu1 h1 emu2 h2,
    lfs_emubd_erase scenario_cfg scenario_emu (host_of blocks01 []) 1 0 512
    = Returned (0, emu1, h1)
    /\ lfs_emubd_erase scenario_cfg emu1 h1 1 0 512 = Returned (0, emu2, h2)
    /\ dir h2 = dir h1.
Proof.
  apply (erase_is_idempotent scenario_cfg scenario_emu (host_of blocks01 [])
           blocks01 1 0 512).
  - cbn. lia.
  - unfold geometry_ok. by_evaluation.
  - unfold uint32. lia.
  - unfold uint32. lia.
  - unfold uint32. lia.
  - reflexivity.
  - reflexivity.
  - reflexivity.
Defined.

(** X10.  With room for the names in the child buffer, a synchronisation
    returns a code on every host, faults included, and changes no entry
    of the directory other than "info" and "stats"; the handle keeps
    path, geometry and counters.  The code is negative, or it is 0 and
    then the two artifacts hold the images of the geometry and of the
    counters, and no stream is left open. *)
Theorem sync_writes_both_records cfg emu h :
  (5 < LFS_NAME_MAX cfg)%nat ->
  exists r emu' h',
    lfs_emubd_sync cfg emu h = Returned (r, emu', h')
    /\ path emu' = path emu /\ info emu' = info emu /\ stats emu' = stats emu
    /\ (forall n, n <> "info"%string -> n <> "stats"%string ->
                  entries h' !! n = entries h !! n)
    /\ (r < 0
        \/ r = 0
           /\ entries h' !! "info"%string
              = Some (RegFile (bytes_of_info (info emu)))
           /\ entries h' !! "stats"%string
              = Some (RegFile (bytes_of_stats (stats emu)))
           /\ streams h' = streams h).
Proof. intros Hname. by apply lfs_emubd_sync_any. Qed.

(** A synchronisation whose first [fwrite] fails. *)
Lemma sync_writes_both_records_witness :
  exists r emu' h',
    lfs_emubd_sync scenario_cfg scenario_emu
      (host_of block0 [None; Some 28%positive])
    = Returned (r, emu', h')
    /\ path emu' = path scenario_emu /\ info emu' = info scenario_emu
    /\ stats emu' = stats scenario_emu
    /\ (forall n, n <> "info"%string -> n <> "stats"%string ->
          entries h' !! n
          = entries (host_of block0 [None; Some 28%positive]) !! n)
    /\ (r < 0
        \/ r = 0
           /\ entries h' !! "info"%string
              = Some (RegFile (bytes_of_info (info scenario_emu)))
           /\ entries h' !! "stats"%string
              = Some (RegFile (bytes_of_stats (stats scenario_emu)))
           /\ streams h'
              = streams (host_of block0 [None; Some 28%positive])).
Proof.
  apply (sync_writes_both_records scenario_cfg scenario_emu
           (host_of block0 [None; Some 28%positive])).
  cbn. lia.
Defined.

(** X11.  On a host without faults whose base directory exists and has no
    directory under the names "info" and "stats", a synchronisation
    returns 0; it creates or replaces the two artifacts and leaves every
    other entry, the open streams and [errno] as they were. *)
Theorem sync_succeeds_without_faults cfg emu h d :
  (5 < LFS_NAME_MAX cfg)%nat ->
  faults h = [] -> dir h = Some d ->
  d !! "info"%string <> Some Directory ->
  d !! "stats"%string <> Some Directory ->
  lfs_emubd_sync cfg emu h
  = Returned (0, set_child emu "stats",
              set_dir h
                (Some (<["stats"%string := RegFile (bytes_of_stats (stats emu))]>
                         (<["info"%string := RegFile (bytes_of_info (info emu))]>
                            d)))).
Proof. intros Hname. by apply lfs_emubd_sync_quiet. Qed.

Lemma sync_succeeds_without_faults_witness :
  lfs_emubd_sync scenario_cfg scenario_emu (host_of block0 [])
  = Returned (0, set_child scenario_emu "stats",
              set_dir (host_of block0 [])
                (Some (<["stats"%string :=
                         RegFile (bytes_of_stats (stats scenario_emu))]>
                         (<["info"%string :=
                            RegFile (bytes_of_info (info scenario_emu))]>
                            block0)))).
Proof.
  apply (sync_succeeds_without_faults scenario_cfg scenario_emu
           (host_of block0 []) block0).
  - cbn. lia.
  - reflexivity.
  - reflexivity.
  - intros H. vm_compute in H. discriminate H.
  - intros H. vm_compute in H. discriminate H.
Defined.

(** X12.  Synchronise, then create.  With counters that fit 64 bits,
    after a synchronisation that returned 0, on whatever host, a creation
    that meets no fault returns 0, and the new handle has the counters of
    the synchronised one and the geometry of the configuration; the
    creation changes no entry of the directory. *)
Theorem create_after_sync_restores_counters cfg emu h emu1 h1 emu2 base :
  (5 < LFS_NAME_MAX cfg)%nat ->
  uint64 (read_count (stats emu)) -> uint64 (prog_count (stats emu)) ->
  uint64 (erase_count (stats emu)) ->
  lfs_emubd_sync cfg emu h = Returned (0, emu1, h1) ->
  faults h1 = [] ->
  exists emu3 h3,
    lfs_emubd_create cfg emu2 h1 base = Returned (0, emu3, h3)
    /\ stats emu3 = stats emu /\ info emu3 = config_info cfg
    /\ path emu3 = base /\ entries h3 = entries h1.
Proof. intros Hname. by apply sync_then_create. Qed.

(** The counters 7, 8 and 9, synchronised into an empty directory. *)
Lemma create_after_sync_restores_counters_witness :
  exists emu1 h1,
    lfs_emubd_sync scenario_cfg
      (set_stats scenario_emu
         {| read_count := 7; prog_count := 8; erase_count := 9 |})
      (host_of ∅ [None; None; None])
    = Returned (0, emu1, h1)
    /\ exists emu3 h3,
         lfs_emubd_create scenario_cfg scenario_emu h1 "bd"
         = Returned (0, emu3, h3)
         /\ stats emu3
            = stats (set_stats scenario_emu
                       {| read_count := 7; prog_count := 8;
                          erase_count := 9 |})
         /\ info emu3 = config_info scenario_cfg
         /\ path emu3 = "bd"%string /\ entries h3 = entries h1.
Proof.
  eexists _, _. split; [reflexivity |].
  refine (create_after_sync_restores_counters scenario_cfg
            (set_stats scenario_emu
               {| read_count := 7; prog_count := 8; erase_count := 9 |})
            (host_of ∅ [None; None; None]) _ _ scenario_emu "bd" _ _ _ _ _ _).
  - cbn. lia.
  - unfold uint64. cbn [read_count stats set_stats]. lia.
  - unfold uint64. cbn [prog_count stats set_stats]. lia.
  - unfold uint64. cbn [erase_count stats set_stats]. lia.
  - reflexivity.
  - reflexivity.
Defined.

(** X13.  Destroy, then create.  On a host without faults whose base
    directory exists and has no directory under the names "info" and
    "stats", a device that is destroyed and then created again returns 0
    from the creation, with the counters the handle had when it was
    destroyed and the geometry of the configuration. *)
Theorem destroy_then_create_restores_counters cfg emu h d emu2 base :
  (5 < LFS_NAME_MAX cfg)%nat ->
  uint64 (read_count (stats emu)) -> uint64 (prog_count (stats emu)) ->
  uint64 (erase_count (stats emu)) ->
  faults h = [] -> dir h = Some d ->
  d !! "info"%string <> Some Directory ->
  d !! "stats"%string <> Some Directory ->
  exists h1 emu3 h3,
    lfs_emubd_destroy cfg emu h = Returned h1
    /\ lfs_emubd_create cfg emu2 h1 base = Returned (0, emu3, h3)
    /\ stats emu3 = stats emu /\ info emu3 = config_info cfg.
Proof. intros Hname. by apply destroy_then_create. Qed.

Lemma destroy_then_create_restores_counters_witness :
  exists h1 emu3 h3,
    lfs_emubd_destroy scenario_cfg
      (set_stats scenario_emu
         {| read_count := 7; prog_count := 8; erase_count := 9 |})
      (host_of stats_dir [])
    = Returned h1
    /\ lfs_emubd_create scenario_cfg scenario_emu h1 "bd"
       = Returned (0, emu3, h3)
    /\ stats emu3
       = stats (set_stats scenario_emu
                  {| read_count := 7; prog_count := 8; erase_count := 9 |})
    /\ info emu3 = config_info scenario_cfg.
Proof.
  apply (destroy_then_create_restores_counters scenario_cfg
           (set_stats scenario_emu
              {| read_count := 7; prog_count := 8; erase_count := 9 |})
           (host_of stats_dir []) stats_dir scenario_emu "bd").
  - cbn. lia.
  - unfold uint64. cbn [read_count stats set_stats]. lia.
  - unfold uint64. cbn [prog_count stats set_stats]. lia.
  - unfold uint64. cbn [erase_count stats set_stats]. lia.
  - reflexivity.
  - reflexivity.
  - intros H. vm_compute in H. discriminate H.
  - intros H. vm_compute in H. discriminate H.
Defined.

(** X14.  With room for the names in the child buffer, destroying a
    device returns on every host, faults included, whatever becomes of
    the synchronisation it starts with, and changes no entry of the
    directory other than "info" and "stats". *)
Theorem destroy_always_returns cfg emu h :
  (5 < LFS_NAME_MAX cfg)%nat ->
  exists h',
    lfs_emubd_destroy cfg emu h = Returned h'
    /\ forall n, n <> "info"%string -> n <> "stats"%string ->
                 entries h' !! n = entries h !! n.
Proof. intros Hname. by apply lfs_emubd_destroy_any. Qed.

(** A destruction whose synchronisation cannot open "info". *)
Lemma destroy_always_returns_witness :
  exists h',
    lfs_emubd_destroy scenario_cfg scenario_emu
      (host_of blocks01 [Some 13%positive])
    = Returned h'
    /\ forall n, n <> "info"%string -> n <> "stats"%string ->
                 entries h' !! n
                 = entries (host_of blocks01 [Some 13%positive]) !! n.
Proof.
  apply (destroy_always_returns scenario_cfg scenario_emu
           (host_of blocks01 [Some 13%positive])).
  cbn. lia.
Defined.

(** X15.  The first life of a device.  On a host without faults where the
    base directory does not exist, creation makes the directory, empty,
    and fails with [-ENOENT], as there are no statistics to load; a
    synchronisation of the handle this creation filled in returns 0, and
    the next creation returns 0 with the three counters at zero and the
    geometry of the configuration. *)
Theorem first_creation_needs_a_sync cfg emu h emu3 base :
  (5 < LFS_NAME_MAX cfg)%nat ->
  faults h = [] -> dir h = None ->
  exists emu1 h1 emu2 h2 emu4 h4,
    lfs_emubd_create cfg emu h base = Returned (- ENOENT, emu1, h1)
    /\ dir h1 = Some ∅
    /\ lfs_emubd_sync cfg emu1 h1 = Returned (0, emu2, h2)
    /\ lfs_emubd_create cfg emu3 h2 base = Returned (0, emu4, h4)
    /\ stats emu4 = zero_stats /\ info emu4 = config_info cfg.
Proof. intros Hname. by apply create_sync_create. Qed.

Lemma first_creation_needs_a_sync_witness :
  exists emu1 h1 emu2 h2 emu4 h4,
    lfs_emubd_create scenario_cfg scenario_emu
      {| dir := None; streams := ∅; errno := 0; faults := [] |} "bd"
    = Returned (- ENOENT, emu1, h1)
    /\ dir h1 = Some ∅
    /\ lfs_emubd_sync scenario_cfg emu1 h1 = Returned (0, emu2, h2)
    /\ lfs_emubd_create scenario_cfg scenario_emu h2 "bd"
       = Returned (0, emu4, h4)
    /\ stats emu4 = zero_stats /\ info emu4 = config_info scenario_cfg.
Proof.
  apply (first_creation_needs_a_sync scenario_cfg scenario_emu
           {| dir := None; streams := ∅; errno := 0; faults := [] |}
           scenario_emu "bd").
  - cbn. lia.
  - reflexivity.
  - reflexivity.
Defined.

(** X16.  A device whose base directory is missing.  With a positive
    geometry, on a host without faults and without the base directory:
    a read that passes the validity test returns 0 and zeros the first
    [size] bytes of the buffer; an erase that passes it returns 0; a
    program of at least one byte that passes it fails with [-ENOENT] and
    counts nothing.  None of them makes the directory. *)
Theorem operations_on_missing_directory cfg emu h block off size buffer :
  geometry_ok (info emu) -> uint32 block -> uint32 off -> uint32 size ->
  faults h = [] -> dir h = None ->
  (valid_access (read_size (info emu)) (info emu) block off size = true ->
   (Z.to_nat size <= length buffer)%nat ->
   exists emu' h',
     lfs_emubd_read cfg emu h block off size buffer
     = Returned (0, emu', h', memset0 (Z.to_nat size) buffer)
     /\ dir h' = None)
  /\ (valid_access (prog_size (info emu)) (info emu) block off size = true ->
      0 < size ->
      exists emu' h',
        lfs_emubd_prog cfg emu h block off size buffer
        = Returned (- ENOENT, emu', h')
        /\ dir h' = None /\ stats emu' = stats emu)
  /\ (valid_access (erase_size (info emu)) (info emu) block off size = true ->
      exists emu' h',
        lfs_emubd_erase cfg emu h block off size = Returned (0, emu', h')
        /\ dir h' = None).
Proof. apply operations_without_directory. Qed.

Lemma operations_on_missing_directory_witness :
  (exists emu' h',
     lfs_emubd_read scenario_cfg scenario_emu
       {| dir := None; streams := ∅; errno := 0; faults := [] |} 1 0 512
       (replicate 512 Byte.xff)
     = Returned (0, emu', h',
                 memset0 (Z.to_nat 512) (replicate 512 Byte.xff))
     /\ dir h' = None)
  /\ (exists emu' h',
        lfs_emubd_prog scenario_cfg scenario_emu
          {| dir := None; streams := ∅; errno := 0; faults := [] |} 1 0 512
          (replicate 512 Byte.xff)
        = Returned (- ENOENT, emu', h')
        /\ dir h' = None /\ stats emu' = stats scenario_emu)
  /\ (exists emu' h',
        lfs_emubd_erase scenario_cfg scenario_emu
          {| dir := None; streams := ∅; errno := 0; faults := [] |} 1 0 512
        = Returned (0, emu', h')
        /\ dir h' = None).
Proof.
  assert (Hgeo : geometry_ok (info scenario_emu))
    by (unfold geometry_ok; by_evaluation).
  assert (H1 : uint32 1) by (unfold uint32; lia).
  assert (H0 : uint32 0) by (unfold uint32; lia).
  assert (H512 : uint32 512) by (unfold uint32; lia).
  destruct (operations_on_missing_directory scenario_cfg scenario_emu
              {| dir := None; streams := ∅; errno := 0; faults := [] |}
              1 0 512 (replicate 512 Byte.xff) Hgeo H1 H0 H512 eq_refl
              eq_refl) as (Hread & Hprog & Herase).
  split; [| split].
  - apply Hread; [reflexivity |]. rewrite length_replicate. lia.
  - apply Hprog; [reflexivity | lia].
  - apply Herase. reflexivity.
Defined.

(** X17.  The codes.  On every host, faults included, what a read, a
    program or an erase returns is 0 or negative; a negative code is
    [-EINVAL] from the validity test, with the host untouched, or the
    negated [errno] of the host as the call leaves it.  What a
    synchronisation returns is 0 or the negated [errno]. *)
Theorem codes_are_negated_errno cfg emu h block off size buffer :
  (forall r emu' h' out',
     lfs_emubd_read cfg emu h block off size buffer
     = Returned (r, emu', h', out') ->
     r = 0 \/ r < 0 /\ (r = - EINVAL /\ h' = h \/ r = - errno h'))
  /\ (forall r emu' h',
        lfs_emubd_prog cfg emu h block off size buffer
        = Returned (r, emu', h') ->
        r = 0 \/ r < 0 /\ (r = - EINVAL /\ h' = h \/ r = - errno h'))
  /\ (forall r emu' h',
        lfs_emubd_erase cfg emu h block off size = Returned (r, emu', h') ->
        r = 0 \/ r < 0 /\ (r = - EINVAL /\ h' = h \/ r = - errno h'))
  /\ (forall r emu' h',
        lfs_emubd_sync cfg emu h = Returned (r, emu', h') ->
        r = 0 \/ r = - errno h').
Proof.
  destruct (return_codes cfg emu h block off size buffer)
    as (Hread & Hprog & Herase & Hsync).
  repeat split; [| | | done].
  - intros r emu' h' out' Hcall.
    pose proof (lfs_emubd_read_any _ _ _ _ _ _ _ _ _ _ _ Hcall)
      as (_ & _ & [(-> & _) | (Hneg & _)]); [by left |].
    right. split; [done |].
    destruct (Hread _ _ _ _ Hcall) as [-> | H]; [lia | done].
  - intros r emu' h' Hcall.
    pose proof (lfs_emubd_prog_any _ _ _ _ _ _ _ _ _ _ Hcall)
      as (_ & _ & [(-> & _) | (Hneg & _)]); [by left |].
    right. split; [done |].
    destruct (Hprog _ _ _ Hcall) as [-> | H]; [lia | done].
  - intros r emu' h' Hcall.
    pose proof (lfs_emubd_erase_any _ _ _ _ _ _ _ _ _ Hcall)
      as (_ & _ & [(-> & _) | (Hneg & _)]); [by left |].
    right. split; [done |].
    destruct (Herase _ _ _ Hcall) as [-> | H]; [lia | done].
Qed.

(** A read whose [fseek] fails with [errno] 5, and an erase whose range
    ends at [total_size]. *)
Lemma codes_are_negated_errno_witness :
  (exists emu' h' out',
     lfs_emubd_read scenario_cfg scenario_emu
       (host_of block0 [None; Some 5%positive]) 0 0 16 bb16
     = Returned (-5, emu', h', out')
     /\ (-5 = 0
         \/ -5 < 0
            /\ (-5 = - EINVAL
                /\ h' = host_of block0 [None; Some 5%positive]
                \/ -5 = - errno h')))
  /\ (exists emu' h',
        lfs_emubd_erase scenario_cfg scenario_emu (host_of block0 []) 3 0 512
        = Returned (- EINVAL, emu', h')
        /\ (- EINVAL = 0
            \/ - EINVAL < 0
               /\ (- EINVAL = - EINVAL /\ h' = host_of block0 []
                   \/ - EINVAL = - errno h'))).
Proof.
  split.
  - eexists _, _, _. split; [reflexivity |].
    refine (proj1 (codes_are_negated_errno scenario_cfg scenario_emu
                     (host_of block0 [None; Some 5%positive]) 0 0 16 bb16)
              _ _ _ _ _).
    reflexivity.
  - eexists _, _. split; [reflexivity |].
    refine (proj1 (proj2 (proj2 (codes_are_negated_errno scenario_cfg
                                   scenario_emu (host_of block0 []) 3 0 512
                                   bb16)))
              _ _ _ _).
    reflexivity.
Defined.
